(** * Family-Friendly-Facility: the enrichment and normalization engine

    A shallow embedding of the Python data scripts
    - [src/data/scripts/parse_address.py]       (address parser),
    - [src/data/scripts/geocode_nursing_rooms.py] (geocode client, worker
      and orchestrator),
    - [src/data/reverse_geocode_playgrounds.py]  (reverse-geocode client,
      worker and orchestrator),
    - [src/data/scripts/parse_playgrounds.py]    (TWD97 to WGS84 transformer),
    together with the properties the specification states about them. *)

From Stdlib Require Import ZArith NArith QArith Reals Lra Lia List Bool Ascii String.
From Stdlib Require Floats.
From stdpp Require Import base option list relations.

#[global] Set Warnings "-register-all".

(* ===================================================================== *)
(** * Python strings

    A Python [str] is a sequence of Unicode code points; the scripts only
    compare, slice and strip them, so a string is the list of its code
    points. *)
(* ===================================================================== *)

Module PyStr.

Abbreviation char := N (only parsing).
Abbreviation pystr := (list N) (only parsing).

(** The code points for which [str.isspace] holds; [str.strip] without an
    argument removes exactly these. *)
Definition whitespace : list char :=
  [0x9; 0xA; 0xB; 0xC; 0xD; 0x1C; 0x1D; 0x1E; 0x1F; 0x20; 0x85; 0xA0;
   0x1680; 0x2000; 0x2001; 0x2002; 0x2003; 0x2004; 0x2005; 0x2006;
   0x2007; 0x2008; 0x2009; 0x200A; 0x2028; 0x2029; 0x202F; 0x205F;
   0x3000]%N.

Definition mem (c : char) (l : list char) : bool := existsb (N.eqb c) l.

Definition isspace (c : char) : bool := mem c whitespace.

Fixpoint lstrip (s : pystr) : pystr :=
  match s with
  | c :: s' => if isspace c then lstrip s' else s
  | [] => []
  end.

Definition rstrip (s : pystr) : pystr := rev (lstrip (rev s)).

(** [s.strip()] *)
Definition strip (s : pystr) : pystr := lstrip (rstrip s).

(** [s.startswith(p)] *)
Fixpoint startswith (s p : pystr) {struct p} : bool :=
  match p, s with
  | [], _ => true
  | c :: p', d :: s' => N.eqb c d && startswith s' p'
  | _ :: _, [] => false
  end.

(** [s.replace(old, new)] for one-character [old] and [new]. *)
Definition replace (old new : char) (s : pystr) : pystr :=
  map (fun c => if N.eqb c old then new else c) s.

(** [s == ''] *)
Definition is_empty (s : pystr) : bool :=
  match s with
  | [] => true
  | _ :: _ => false
  end.

(** Truthiness of an [Optional[str]]: [None] and [''] are falsy. *)
Definition truthy (o : option pystr) : bool :=
  match o with
  | Some (_ :: _) => true
  | _ => false
  end.

End PyStr.

(* ===================================================================== *)
(** * [parse_address.py] *)
(* ===================================================================== *)

Module ParseAddress.
Import PyStr.

(** The characters that occur in the constants of the module. *)
Definition c_tai_trad : char := 0x81FA%N.  (* 臺 *)
Definition c_tai_simp : char := 0x53F0%N.  (* 台 *)
Definition c_qu : char := 0x5340%N.        (* 區 *)
Definition c_shi : char := 0x5E02%N.       (* 市 *)
Definition c_zhen : char := 0x93AE%N.      (* 鎮 *)
Definition c_xiang : char := 0x9109%N.     (* 鄉 *)
Definition c_xian : char := 0x7E23%N.      (* 縣 *)

Definition CITY_PATTERNS : list pystr :=
  [ [c_tai_trad; 0x5317; c_shi];  (* 臺北市 *)
    [c_tai_simp; 0x5317; c_shi];  (* 台北市 *)
    [0x65B0; 0x5317; c_shi];      (* 新北市 *)
    [0x6843; 0x5712; c_shi];      (* 桃園市 *)
    [c_tai_trad; 0x4E2D; c_shi];  (* 臺中市 *)
    [c_tai_simp; 0x4E2D; c_shi];  (* 台中市 *)
    [c_tai_trad; 0x5357; c_shi];  (* 臺南市 *)
    [c_tai_simp; 0x5357; c_shi];  (* 台南市 *)
    [0x9AD8; 0x96C4; c_shi];      (* 高雄市 *)
    [0x57FA; 0x9686; c_shi];      (* 基隆市 *)
    [0x65B0; 0x7AF9; c_shi];      (* 新竹市 *)
    [0x5609; 0x7FA9; c_shi];      (* 嘉義市 *)
    [0x65B0; 0x7AF9; c_xian];     (* 新竹縣 *)
    [0x82D7; 0x6817; c_xian];     (* 苗栗縣 *)
    [0x5F70; 0x5316; c_xian];     (* 彰化縣 *)
    [0x5357; 0x6295; c_xian];     (* 南投縣 *)
    [0x96F2; 0x6797; c_xian];     (* 雲林縣 *)
    [0x5609; 0x7FA9; c_xian];     (* 嘉義縣 *)
    [0x5C4F; 0x6771; c_xian];     (* 屏東縣 *)
    [0x5B9C; 0x862D; c_xian];     (* 宜蘭縣 *)
    [0x82B1; 0x84EE; c_xian];     (* 花蓮縣 *)
    [c_tai_trad; 0x6771; c_xian]; (* 臺東縣 *)
    [c_tai_simp; 0x6771; c_xian]; (* 台東縣 *)
    [0x6F8E; 0x6E56; c_xian];     (* 澎湖縣 *)
    [0x91D1; 0x9580; c_xian];     (* 金門縣 *)
    [0x9023; 0x6C5F; c_xian]      (* 連江縣 *)
  ]%N.

Definition DISTRICT_SUFFIXES : list char :=
  [c_qu; c_shi; c_zhen; c_xiang; c_xian].

(** The [for city_pattern in CITY_PATTERNS] loop with its [break]: the first
    pattern the address starts with, and the address without it. *)
Fixpoint match_city (patterns : list pystr) (remaining : pystr)
  : option pystr * pystr :=
  match patterns with
  | [] => (None, remaining)
  | p :: ps =>
      if startswith remaining p then (Some p, drop (length p) remaining)
      else match_city ps remaining
  end.

(** The character class [[區市鎮鄉縣]] of the regular expression. *)
Definition is_suffix (c : char) : bool := mem c DISTRICT_SUFFIXES.

(** How many of the first [n] characters of [s] the class [[^區市鎮鄉縣]]
    accepts in a row: the greedy part of [{1,4}]. *)
Fixpoint span_body (n : nat) (s : pystr) : nat :=
  match n, s with
  | S n', c :: s' => if is_suffix c then O else S (span_body n' s')
  | _, _ => O
  end.

(** Backtracking: with [k] body characters taken, the next character must be
    in [[區市鎮鄉縣]]; otherwise give one back, down to one body character. *)
Fixpoint backtrack (k : nat) (s : pystr) : option pystr :=
  match k with
  | O => None
  | S k' =>
      match s !! k with
      | Some c => if is_suffix c then Some (take (S k) s) else backtrack k' s
      | None => backtrack k' s
      end
  end.

(** [re.match(r'^([^區市鎮鄉縣]{1,4}[區市鎮鄉縣])', s)], group 1. *)
Definition district_match (s : pystr) : option pystr :=
  backtrack (span_body 4 s) s.

Definition or_fallback (found fallback : option pystr) : option pystr :=
  if negb (truthy found) && truthy fallback then fallback else found.

Definition parse_city_and_district
    (address fallback_city fallback_district : option pystr)
  : option pystr * option pystr * pystr :=
  match address with
  | None => (fallback_city, fallback_district, [])
  | Some a =>
      if is_empty a || is_empty (strip a)
      then (fallback_city, fallback_district, [])
      else
        let remaining_address := strip a in
        let '(city, remaining_address) :=
          match_city CITY_PATTERNS remaining_address in
        let city := or_fallback city fallback_city in
        let '(district, remaining_address) :=
          if truthy city && (0 <? length remaining_address)%nat then
            match district_match remaining_address with
            | Some d => (Some d, drop (length d) remaining_address)
            | None => (None, remaining_address)
            end
          else (None, remaining_address) in
        let district := or_fallback district fallback_district in
        (city, district, strip remaining_address)
  end.

Definition normalize_city_name (city : option pystr) : option pystr :=
  if truthy city then replace c_tai_simp c_tai_trad <$> city else None.

Definition normalize_district_name (district : option pystr) : option pystr :=
  if truthy district then strip <$> district else None.

End ParseAddress.

(* ===================================================================== *)
(** * Python values read from JSON, and exceptions *)
(* ===================================================================== *)

Module Py.
Import PyStr.

(** What [response.json()] yields. A number stands for its value: Python
    compares [int], [float] and [bool] by value, and a JSON numeral denotes a
    rational (the literals [NaN] and [Infinity], which are not JSON, are left
    out). A [JObj] lists the items of the parsed [dict] in insertion
    order. *)
Inductive json : Type :=
  | JNull
  | JBool (b : bool)
  | JNum (q : Q)
  | JStr (s : pystr)
  | JArr (l : list json)
  | JObj (l : list (pystr * json)).

(** The exception classes the clients' handlers tell apart, and the two
    that opening and reading a text file raise. *)
Inductive exn : Type :=
  | RequestException   (* requests.exceptions.RequestException and subclasses *)
  | KeyError
  | ValueError
  | TypeError
  | UnicodeDecodeError (* a subclass of ValueError *)
  | AttributeError     (* these three fall to the last handler, *)
  | IndexError         (* [except Exception] *)
  | OSError.           (* IsADirectoryError, PermissionError, ... *)

(** A call either returns or raises. *)
Inductive outcome (A : Type) : Type :=
  | Return (a : A)
  | Raise (e : exn).
Arguments Return {A} a.
Arguments Raise {A} e.

Definition bind {A B} (m : outcome A) (k : A -> outcome B) : outcome B :=
  match m with
  | Return a => k a
  | Raise e => Raise e
  end.

Notation "'let*' x ':=' m 'in' k" := (bind m (fun x => k))
  (at level 10, x name, m at level 100, k at level 200).

(** [try: body except Exception: handler] *)
Definition try_except {A} (body : outcome A) (handler : exn -> outcome A)
  : outcome A :=
  match body with
  | Return a => Return a
  | Raise e => handler e
  end.

(** A string literal of the scripts that is plain ASCII. *)
Definition lit (s : string) : pystr :=
  map N_of_ascii (list_ascii_of_string s).
Arguments lit : simpl never.

Fixpoint str_eqb (s t : pystr) : bool :=
  match s, t with
  | [], [] => true
  | c :: s', d :: t' => N.eqb c d && str_eqb s' t'
  | _, _ => false
  end.

(** [s < t] on strings: lexicographic on code points. *)
Fixpoint str_ltb (s t : pystr) : bool :=
  match s, t with
  | _, [] => false
  | [], _ :: _ => true
  | c :: s', d :: t' => N.ltb c d || (N.eqb c d && str_ltb s' t')
  end.

(** [k in s] for strings. *)
Fixpoint substring (k s : pystr) : bool :=
  startswith s k ||
  match s with
  | [] => false
  | _ :: s' => substring k s'
  end.

(** [d[k]] on the items of a dict. *)
Fixpoint lookup_key (k : pystr) (l : list (pystr * json)) : option json :=
  match l with
  | [] => None
  | (k', v) :: l' => if str_eqb k k' then Some v else lookup_key k l'
  end.

(** Numbers, with [True] and [False] counting as 1 and 0. *)
Definition numeric (v : json) : option Q :=
  match v with
  | JNum q => Some q
  | JBool b => Some (if b then 1%Q else 0%Q)
  | _ => None
  end.

(** [a == b]; never raises. Dicts are equal when they hold equal values under
    the same keys, lists when they are equal item by item. *)
Fixpoint py_eq (a b : json) {struct a} : bool :=
  match a, b with
  | JNull, JNull => true
  | JNum _, _ | JBool _, _ =>
      match numeric a, numeric b with
      | Some x, Some y => Qeq_bool x y
      | _, _ => false
      end
  | JStr s, JStr t => str_eqb s t
  | JArr l, JArr m =>
      (fix eq_items (l : list json) (m : list json) : bool :=
         match l, m with
         | [], [] => true
         | x :: l', y :: m' => py_eq x y && eq_items l' m'
         | _, _ => false
         end) l m
  | JObj l, JObj m =>
      Nat.eqb (length l) (length m) &&
      (fix eq_values (l : list (pystr * json)) : bool :=
         match l with
         | [] => true
         | (k, v) :: l' =>
             match lookup_key k m with
             | Some w => py_eq v w && eq_values l'
             | None => false
             end
         end) l
  | _, _ => false
  end.

(** [a > b]: numbers by value, strings and lists lexicographically; any other
    pair of types is unorderable. *)
Fixpoint py_gt (a b : json) {struct a} : outcome bool :=
  match numeric a, numeric b with
  | Some x, Some y => Return (negb (Qle_bool x y))
  | _, _ =>
      match a, b with
      | JStr s, JStr t => Return (str_ltb t s)
      | JArr l, JArr m =>
          (fix gt_items (l : list json) (m : list json) : outcome bool :=
             match l, m with
             | [], _ => Return false
             | _ :: _, [] => Return true
             | x :: l', y :: m' =>
                 if py_eq x y then gt_items l' m' else py_gt x y
             end) l m
      | _, _ => Raise TypeError
      end
  end.

(** [bool(v)] *)
Definition py_truthy (v : json) : bool :=
  match v with
  | JNull => false
  | JBool b => b
  | JNum q => negb (Qeq_bool q 0%Q)
  | JStr s => negb (Nat.eqb (length s) 0)
  | JArr l => negb (Nat.eqb (length l) 0)
  | JObj l => negb (Nat.eqb (length l) 0)
  end.

(** [k in v] for a string [k]. *)
Definition py_contains (k : pystr) (v : json) : outcome bool :=
  match v with
  | JObj l =>
      Return (match lookup_key k l with Some _ => true | None => false end)
  | JArr l => Return (existsb (fun x => py_eq x (JStr k)) l)
  | JStr s => Return (substring k s)
  | _ => Raise TypeError
  end.

(** [v[k]] for a string [k]. *)
Definition py_getitem_str (v : json) (k : pystr) : outcome json :=
  match v with
  | JObj l =>
      match lookup_key k l with
      | Some w => Return w
      | None => Raise KeyError
      end
  | _ => Raise TypeError
  end.

(** [v[0]] *)
Definition py_getitem_0 (v : json) : outcome json :=
  match v with
  | JArr (x :: _) => Return x
  | JArr [] => Raise IndexError
  | JStr (c :: _) => Return (JStr [c])
  | JStr [] => Raise IndexError
  | JObj _ => Raise KeyError           (* the keys of a JSON object are strings *)
  | _ => Raise TypeError
  end.

(** [v.get(k, default)]: only a dict has [get]. *)
Definition py_get (v : json) (k : pystr) (default : json) : outcome json :=
  match v with
  | JObj l =>
      Return (match lookup_key k l with Some w => w | None => default end)
  | _ => Raise AttributeError
  end.

(** [iter(v)] *)
Definition py_iter (v : json) : outcome (list json) :=
  match v with
  | JArr l => Return l
  | JObj l => Return (map (fun kv => JStr (fst kv)) l)
  | JStr s => Return (map (fun c => JStr [c]) s)
  | _ => Raise TypeError
  end.

(** The loop of [max(iterable, key=key)] once the first item is taken: a
    later item replaces the current one only when its key is strictly
    greater. *)
Fixpoint max_loop (key : json -> outcome json)
    (maxitem maxval : json) (rest : list json) : outcome json :=
  match rest with
  | [] => Return maxitem
  | item :: rest' =>
      let* val := key item in
      let* gt := py_gt val maxval in
      if gt then max_loop key item val rest'
      else max_loop key maxitem maxval rest'
  end.

(** [max(v, key=key)] *)
Definition py_max (key : json -> outcome json) (v : json) : outcome json :=
  let* items := py_iter v in
  match items with
  | [] => Raise ValueError
  | item :: rest => let* val := key item in max_loop key item val rest
  end.

End Py.

Module PyDict.
Import PyStr Py.

(** [d[k] = v] on the items of a dict: a key that is there keeps its place,
    a new key comes last. *)
Fixpoint set_key (k : pystr) (v : json) (l : list (pystr * json))
  : list (pystr * json) :=
  match l with
  | [] => [(k, v)]
  | (k', w) :: l' =>
      if str_eqb k k' then (k', v) :: l' else (k', w) :: set_key k v l'
  end.

End PyDict.

(* ===================================================================== *)
(** * The enrichment clients

    [geocode_address] of [geocode_nursing_rooms.py] and [reverse_geocode] of
    [reverse_geocode_playgrounds.py]. The network is a parameter: what
    [requests.get] does for a request. The three calls of the [requests]
    library behave as its documentation says. *)
(* ===================================================================== *)

Module Http.
Import Py.

(** The fate of one [requests.get(url, params=..., timeout=10)]: the call
    raises (no connection, timeout, ...) or yields a response with a status
    code and a body, which is JSON or not. *)
Inductive reply : Type :=
  | NoReply
  | Reply (status_code : Z) (body : option json).

Record response : Type := { status_code : Z; body : option json }.

Definition requests_get (r : reply) : outcome response :=
  match r with
  | NoReply => Raise RequestException
  | Reply s b => Return {| status_code := s; body := b |}
  end.

(** [response.raise_for_status()]: [HTTPError] on a 4xx or 5xx status. *)
Definition http_error (s : Z) : bool := (400 <=? s)%Z && (s <? 600)%Z.

Definition raise_for_status (r : response) : outcome unit :=
  if http_error (status_code r) then Raise RequestException else Return tt.

(** [response.json()]: a [ValueError] when the body is not JSON. *)
Definition response_json (r : response) : outcome json :=
  match body r with
  | Some v => Return v
  | None => Raise ValueError
  end.

End Http.

Module GeocodeClient.
Import PyStr Py Http.

Definition is_not_none (v : json) : bool :=
  match v with
  | JNull => false
  | _ => true
  end.

(** The [key] of the [max] call: [lambda x: x.get("score", 0)]. *)
Definition score (x : json) : outcome json := py_get x (lit "score") (JNum 0).

(** The end of the [try] block: the coordinates of the chosen candidate
    (ArcGIS has x = longitude, y = latitude). *)
Definition candidate_location (best_candidate : json)
  : outcome (option (json * json)) :=
  let* location := py_get best_candidate (lit "location") (JObj []) in
  let* longitude := py_get location (lit "x") JNull in
  let* latitude := py_get location (lit "y") JNull in
  if is_not_none longitude && is_not_none latitude
  then Return (Some (longitude, latitude))
  else Return None.

(** The body of the [try] block. *)
Definition geocode_request (net : pystr -> reply) (address : pystr)
  : outcome (option (json * json)) :=
  let* response := requests_get (net address) in
  let* _ := raise_for_status response in
  let* data := response_json response in
  let* has_candidates := py_contains (lit "candidates") data in
  if negb has_candidates then Return None else
  let* candidates := py_getitem_str data (lit "candidates") in
  if negb (py_truthy candidates) then Return None else
  let* best_candidate := py_max score candidates in
  candidate_location best_candidate.

(** The three [except] clauses: each prints a warning and returns [None]. *)
Definition on_error {A} (e : exn) : outcome (option A) :=
  match e with
  | RequestException => Return None
  | KeyError | ValueError | TypeError | UnicodeDecodeError => Return None
  | AttributeError | IndexError | OSError => Return None
  end.

Definition geocode_address (net : pystr -> reply) (address : option pystr)
  : outcome (option (json * json)) :=
  match address with
  | None => Return None
  | Some a =>
      if negb (truthy address) || negb (truthy (Some (strip a)))
      then Return None
      else try_except (geocode_request net a) on_error
  end.

End GeocodeClient.

Module ReverseClient.
Import PyStr Py Http.

Record latlng_request : Type :=
  { req_latitude : Q; req_longitude : Q; req_key : pystr }.

(** The body of the [try] block. *)
Definition reverse_request (net : latlng_request -> reply)
    (latitude longitude : Q) (api_key : pystr) : outcome (option json) :=
  let* response :=
    requests_get (net {| req_latitude := latitude;
                         req_longitude := longitude;
                         req_key := api_key |}) in
  let* _ := raise_for_status response in
  let* data := response_json response in
  let* status := py_get data (lit "status") JNull in
  if negb (py_eq status (JStr (lit "OK"))) then
    let* fallback := py_get data (lit "status") (JStr (lit "Unknown error")) in
    let* error_msg := py_get data (lit "error_message") fallback in
    Return None
  else
  let* results := py_get data (lit "results") (JArr []) in
  if negb (py_truthy results) then Return None else
  let* first := py_getitem_0 results in
  let* formatted_address := py_get first (lit "formatted_address") JNull in
  if py_truthy formatted_address then Return (Some formatted_address)
  else Return None.

Definition reverse_geocode (net : latlng_request -> reply)
    (latitude longitude : option Q) (api_key : pystr)
  : outcome (option json) :=
  match latitude, longitude with
  | Some lat, Some lng =>
      try_except (reverse_request net lat lng api_key) GeocodeClient.on_error
  | _, _ => Return None
  end.

End ReverseClient.

(* ===================================================================== *)
(** * Records and the enrichment workers *)
(* ===================================================================== *)

Module Store.
Import PyStr.

(** One element of the snapshot's [data] array: the keys the enrichment
    scripts read or write, and the other keys, which they pass through.
    [address] is [item.get("address", "")], so [None] is a JSON [null]. *)
Record item : Type :=
  { name : pystr;
    address : option pystr;
    latitude : option Q;
    longitude : option Q;
    other : list (pystr * Py.json) }.

(** [item["longitude"] = v], [item["latitude"] = v], [item["address"] = v] *)
Definition set_longitude (v : Q) (it : item) : item :=
  {| name := name it; address := address it; latitude := latitude it;
     longitude := Some v; other := other it |}.

Definition set_latitude (v : Q) (it : item) : item :=
  {| name := name it; address := address it; latitude := Some v;
     longitude := longitude it; other := other it |}.

Definition set_address (v : pystr) (it : item) : item :=
  {| name := name it; address := Some v; latitude := latitude it;
     longitude := longitude it; other := other it |}.

Definition is_none {A} (o : option A) : bool :=
  match o with
  | None => true
  | Some _ => false
  end.


End Store.

(** What a worker is to the orchestrator: a job is [Queued] until a thread of
    the pool picks it, [Active] while [process_item] runs, [Done] once its
    future holds a result, truthy or not, and [Failed] once its future
    holds the exception that [process_item] raised. *)
Inductive job_status : Type :=
  | Queued
  | Active
  | Done (truthy_result : bool)
  | Failed (e : Py.exn).

(** The future is done: [as_completed] yields it, and the pool does not
    wait for it. *)
Definition settled (st : job_status) : bool :=
  match st with
  | Done _ | Failed _ => true
  | Queued | Active => false
  end.

(** What tells the two scripts apart. A worker runs [process_item] on one
    item, an object of type [record], in small steps; between two steps
    other threads may run. [selected] is the filter that builds
    [items_to_process]. [rate_unguarded] says whether the summary that
    follows the loop divides by the elapsed time without testing it:
    [geocode_nursing_rooms.py] does (line 219),
    [reverse_geocode_playgrounds.py] tests it first (line 266). *)
Class Worker : Type :=
  { record : Type;
    phase : Type;
    start : phase;
    status : phase -> job_status;
    wstep : record -> phase -> record * phase;
    remaining : phase -> nat;
    selected : record -> bool;
    rate_unguarded : bool }.

(** What the termination of a run relies on: every step brings a job
    closer to its result. *)
Class WorkerLaws (W : Worker) : Prop :=
  { wstep_remaining : forall it ph,
      settled (status ph) = false ->
      (remaining (wstep it ph).2 < remaining ph)%nat }.

Module GeocodeWorker.
Import PyStr Store.

(** [(longitude, latitude)], as [geocode_address] returns it. *)
Definition coordinates : Type := Q * Q.

Section WithClient.

(** The client: [geocode_address], or a stub of it. *)
Variable geocode_address : option pystr -> option coordinates.

(** [process_item(item, index, total)]: the returned tuple, and the addresses
    the client was called with. The item of the tuple is the argument
    object, written in place. *)
Definition process_item (it : item) (index total : nat)
  : (nat * item * option coordinates) * list (option pystr) :=
  let address := address it in
  if negb (is_none (latitude it)) && negb (is_none (longitude it))
  then ((index, it, None), [])
  else
    let coordinates := geocode_address address in
    match coordinates with
    | Some (longitude, latitude) =>
        let it := set_longitude longitude it in
        let it := set_latitude latitude it in
        ((index, it, coordinates), [address])
    | None => ((index, it, coordinates), [address])
    end.

(** The same function, one effect at a time. *)
Inductive gphase : Type :=
  | GStart
  | GFetched (coordinates : option coordinates)
  | GLongitudeSet (longitude latitude : Q)
  | GReturned (coordinates : option coordinates).

Definition gstatus (ph : gphase) : job_status :=
  match ph with
  | GStart => Queued
  | GFetched _ | GLongitudeSet _ _ => Active
  | GReturned c => Done (negb (is_none c))
  end.

Definition gstep (it : item) (ph : gphase) : item * gphase :=
  match ph with
  | GStart =>
      if negb (is_none (latitude it)) && negb (is_none (longitude it))
      then (it, GReturned None)
      else (it, GFetched (geocode_address (address it)))
  | GFetched (Some (longitude, latitude)) =>
      (set_longitude longitude it, GLongitudeSet longitude latitude)
  | GFetched None => (it, GReturned None)
  | GLongitudeSet longitude latitude =>
      (set_latitude latitude it, GReturned (Some (longitude, latitude)))
  | GReturned c => (it, GReturned c)
  end.

Definition gremaining (ph : gphase) : nat :=
  match ph with
  | GStart => 3
  | GFetched _ => 2
  | GLongitudeSet _ _ => 1
  | GReturned _ => 0
  end.

(** [if item.get("latitude") is None or item.get("longitude") is None] *)
Definition missing_coordinates (it : item) : bool :=
  is_none (latitude it) || is_none (longitude it).

Definition geocode_worker : Worker :=
  {| record := item; phase := gphase; start := GStart; status := gstatus;
     wstep := gstep; remaining := gremaining;
     selected := missing_coordinates; rate_unguarded := true |}.

End WithClient.
End GeocodeWorker.

Module ReverseWorker.
Import PyStr Store.

Section WithClient.

(** The client: [reverse_geocode], or a stub of it, and the API key. *)
Variable reverse_geocode : option Q -> option Q -> pystr -> option pystr.
Variable api_key : pystr.

(** [process_item(item, index, total, api_key)]: the returned tuple, and the
    coordinates the client was called with. *)
Definition process_item (it : item) (index total : nat)
  : (nat * item * option pystr) * list (option Q * option Q) :=
  if truthy (address it) then ((index, it, None), [])
  else
    let latitude := latitude it in
    let longitude := longitude it in
    if is_none latitude || is_none longitude then ((index, it, None), [])
    else
      let address := reverse_geocode latitude longitude api_key in
      if truthy address then
        match address with
        | Some a => ((index, set_address a it, address), [(latitude, longitude)])
        | None => ((index, it, address), [(latitude, longitude)])
        end
      else ((index, it, address), [(latitude, longitude)]).

Inductive rphase : Type :=
  | RStart
  | RFetched (address : option pystr)
  | RReturned (address : option pystr).

Definition rstatus (ph : rphase) : job_status :=
  match ph with
  | RStart => Queued
  | RFetched _ => Active
  | RReturned a => Done (truthy a)
  end.

Definition rstep (it : item) (ph : rphase) : item * rphase :=
  match ph with
  | RStart =>
      if truthy (address it) then (it, RReturned None)
      else if is_none (latitude it) || is_none (longitude it)
      then (it, RReturned None)
      else (it, RFetched (reverse_geocode (latitude it) (longitude it) api_key))
  | RFetched (Some a) =>
      if truthy (Some a) then (set_address a it, RReturned (Some a))
      else (it, RReturned (Some a))
  | RFetched None => (it, RReturned None)
  | RReturned a => (it, RReturned a)
  end.

Definition rremaining (ph : rphase) : nat :=
  match ph with
  | RStart => 2
  | RFetched _ => 1
  | RReturned _ => 0
  end.

(** [if not item.get("address") and item.get("latitude") is not None
        and item.get("longitude") is not None] *)
Definition missing_address (it : item) : bool :=
  negb (truthy (address it))
  && negb (is_none (latitude it)) && negb (is_none (longitude it)).

Definition reverse_worker : Worker :=
  {| record := item; phase := rphase; start := RStart; status := rstatus;
     wstep := rstep; remaining := rremaining;
     selected := missing_address; rate_unguarded := false |}.

End WithClient.
End ReverseWorker.

(** ** [process_item] of [geocode_nursing_rooms.py] on any JSON

    The typed worker above takes the client by its signature,
    [Optional[Tuple[float, float]]]. What [geocode_address] returns comes
    from the body of the response, and nothing makes it a pair of numbers.
    Here [process_item] runs on an item as [json.load] gives it, the items
    of a dict, with [geocode_address] over the network, and with the two
    expressions of its [print] calls that can raise: the slice of the name
    and the format [.6f] of the coordinates. *)

Module RawGeocodeWorker.
Import PyStr Py Http.

Definition dict : Type := list (pystr * json).

(** [item.get(k)] and [item.get(k, default)] *)
Definition get (k : pystr) (item : dict) : json :=
  default JNull (lookup_key k item).

Definition get_default (k : pystr) (d : json) (item : dict) : json :=
  default d (lookup_key k item).

Definition is_none (v : json) : bool :=
  match v with
  | JNull => true
  | _ => false
  end.

(** [v[:30]]: strings and lists have slices; [None], numbers and booleans
    raise a [TypeError], and so does a dict (a [KeyError] from Python 3.12
    on). *)
Definition py_slice (v : json) : outcome unit :=
  match v with
  | JStr _ | JArr _ => Return tt
  | _ => Raise TypeError
  end.

(** [f"{v:.6f}"]: numbers and booleans have the format; a string raises a
    [ValueError], any other value a [TypeError]. *)
Definition py_format_f (v : json) : outcome unit :=
  match v with
  | JNum _ | JBool _ => Return tt
  | JStr _ => Raise ValueError
  | _ => Raise TypeError
  end.

Section WithNetwork.

Variable net : pystr -> reply.

(** [geocode_address(address)] for the value of [item.get("address", "")]:
    a falsy value returns [None] at line 31; a truthy one that is no string
    has no [strip]. *)
Definition call (address : json) : outcome (option (json * json)) :=
  match address with
  | JStr s => GeocodeClient.geocode_address net (Some s)
  | JNull => GeocodeClient.geocode_address net None
  | v => if py_truthy v then Raise AttributeError else Return None
  end.

(** The [print] of line 105: the parts of the f-string, from left to
    right. *)
Definition print_success (item : dict) (longitude latitude : json)
  : outcome unit :=
  let* _ := py_slice (get_default (lit "name") (JStr []) item) in
  let* _ := py_format_f latitude in
  py_format_f longitude.

(** The [print] of line 109. *)
Definition print_failure (item : dict) : outcome unit :=
  py_slice (get_default (lit "name") (JStr []) item).

Inductive jphase : Type :=
  | Start
  | Fetched (coordinates : option (json * json))
  | LongitudeSet (longitude latitude : json)
  | LatitudeSet (longitude latitude : json)
  | Returned (coordinates : option (json * json))
  | Raised (e : exn).

Definition jstatus (ph : jphase) : job_status :=
  match ph with
  | Start => Queued
  | Fetched _ | LongitudeSet _ _ | LatitudeSet _ _ => Active
  | Returned c => Done (match c with Some _ => true | None => false end)
  | Raised e => Failed e
  end.

(** One effect of [process_item] at a time: lines 92 to 99, line 103,
    line 104, and the [print] before [return]. A tuple of two values is
    truthy. *)
Definition jstep (item : dict) (ph : jphase) : dict * jphase :=
  match ph with
  | Start =>
      let address := get_default (lit "address") (JStr []) item in
      if negb (is_none (get (lit "latitude") item))
         && negb (is_none (get (lit "longitude") item))
      then (item, Returned None)
      else
        match call address with
        | Return coordinates => (item, Fetched coordinates)
        | Raise e => (item, Raised e)
        end
  | Fetched (Some (longitude, latitude)) =>
      (PyDict.set_key (lit "longitude") longitude item,
       LongitudeSet longitude latitude)
  | Fetched None =>
      match print_failure item with
      | Return _ => (item, Returned None)
      | Raise e => (item, Raised e)
      end
  | LongitudeSet longitude latitude =>
      (PyDict.set_key (lit "latitude") latitude item,
       LatitudeSet longitude latitude)
  | LatitudeSet longitude latitude =>
      match print_success item longitude latitude with
      | Return _ => (item, Returned (Some (longitude, latitude)))
      | Raise e => (item, Raised e)
      end
  | Returned c => (item, Returned c)
  | Raised e => (item, Raised e)
  end.

Definition jremaining (ph : jphase) : nat :=
  match ph with
  | Start => 4
  | Fetched _ => 3
  | LongitudeSet _ _ => 2
  | LatitudeSet _ _ => 1
  | Returned _ | Raised _ => 0
  end.

(** [if item.get("latitude") is None or item.get("longitude") is None] *)
Definition missing_coordinates (item : dict) : bool :=
  is_none (get (lit "latitude") item) || is_none (get (lit "longitude") item).

Definition worker : Worker :=
  {| record := dict; phase := jphase; start := Start; status := jstatus;
     wstep := jstep; remaining := jremaining;
     selected := missing_coordinates; rate_unguarded := true |}.

End WithNetwork.
End RawGeocodeWorker.
(* ===================================================================== *)
(** * The enrichment orchestrator

    [geocode_nursing_rooms] and [reverse_geocode_playgrounds] are the same
    function up to the worker they submit and to one test in the summary.
    The items are objects shared between the list [items], the jobs and
    the worker threads: a worker writes into the object it was given while
    the main thread submits the jobs, loops over the completed futures and
    dumps [data] to the file. The model keeps the objects in a heap,
    [items] and the jobs hold references, and a run is a sequence of steps
    of the worker threads and of the main thread.

    What the model follows of a KeyboardInterrupt: one that is raised in
    the [with] block while the jobs are submitted or while the loop waits
    for a result, a second one while the pool is joined, and one that is
    raised while the handler or the final save writes the file. An
    iteration of the loop, from the result it takes to the progress
    display, is one step, its periodic save included: the moments at
    which this save has opened the file and not written it yet are no
    states of the model, and a KeyboardInterrupt raised in an iteration is
    followed as one raised before it (the handler writes the file anew). A
    run is followed up to the exception, other than a handled
    KeyboardInterrupt, that ends it. *)
(* ===================================================================== *)

Module Orchestrator.
Import Store.

Record config : Type :=
  { max_workers : Z; batch_size : Z; save_interval : Z }.

(** The JSON file: [{"total_count": ..., "data": [...]}]. *)
Record snapshot_of (A : Type) : Type :=
  { total_count : option Z; data : list A }.
Arguments total_count {A} _.
Arguments data {A} _.
Arguments Build_snapshot_of {A} _ _.

(** The file of the typed records. *)
Abbreviation snapshot := (snapshot_of item).

(** What [input_file] holds: a snapshot, or what [open(input_file, "w")]
    and a [json.dump] that did not come to its end have left of one, an
    empty file or the beginning of the text. *)
Inductive content (A : Type) : Type :=
  | Whole (snap : snapshot_of A)
  | Torn.
Arguments Whole {A} snap.
Arguments Torn {A}.

Coercion Whole : snapshot_of >-> content.

Inductive mode : Type :=
  | Submitting    (* in the comprehension that submits the jobs *)
  | Running       (* in the [for future in as_completed(...)] loop *)
  | Draining      (* KeyboardInterrupt in the [with] block: the pool is
                     shut down, the main thread waits for its threads *)
  | Handling      (* in the handler, the file open for writing *)
  | Finishing     (* after the loop, the file open for writing *)
  | Completed     (* returned after the final save, or with nothing to do *)
  | Interrupted   (* returned from the KeyboardInterrupt handler *)
  | Crashed.      (* an exception ended the run *)

(** The exception that ended a run. *)
Inductive cause : Type :=
  | NoPool                   (* ValueError of [ThreadPoolExecutor] *)
  | ZeroDivision             (* [% batch_size], [/ elapsed_time] *)
  | JobRaised (e : Py.exn)   (* [future.result()] raised again *)
  | WriteInterrupted.        (* KeyboardInterrupt outside the [try] *)

Section WithWorker.

Context {W : Worker}.

(** A submitted future: the [(index, item)] it was built from, how far its
    [process_item] call is, and whether the loop has taken its result. *)
Record job : Type :=
  { j_index : nat; j_item : nat; j_phase : phase; j_consumed : bool }.

Record state : Type :=
  { heap : list record;          (* the item objects, by reference *)
    items : list nat;            (* [items]: references into the heap *)
    pending : list (nat * nat);  (* [items_to_process], not yet submitted *)
    jobs : list job;             (* the futures, in the order of submission *)
    processed_count : Z;
    success_count : Z;
    last_save_count : Z;
    file : content record;       (* the content of [input_file] *)
    saves : list (snapshot_of record);
                                 (* what this run wrote to the end, latest
                                    first *)
    run_mode : mode;
    failure : option cause }.

(** [data["data"]] as [json.dump] sees it. *)
Definition deref (h : list record) (refs : list nat) : list record :=
  omap (fun r => h !! r) refs.

(** [enumerate(items)] from position [i]. *)
Fixpoint enumerate (i : nat) (refs : list nat) : list (nat * nat) :=
  match refs with
  | [] => []
  | r :: refs' => (i, r) :: enumerate (S i) refs'
  end.

Definition needs_job (h : list record) (ir : nat * nat) : bool :=
  match h !! ir.2 with
  | Some it => selected it
  | None => false
  end.

(** [[(i, item) for i, item in enumerate(items) if ...]] *)
Definition items_to_process (h : list record) (refs : list nat)
  : list (nat * nat) :=
  List.filter (needs_job h) (enumerate 0 refs).

Definition submit (ir : nat * nat) : job :=
  {| j_index := ir.1; j_item := ir.2; j_phase := start; j_consumed := false |}.

(** The run when it enters the comprehension that submits the jobs:
    [json.load(f)], the selection of the items to process, the early
    return when there is none, and the creation of the pool, which raises
    a [ValueError] unless [max_workers] is positive. *)
Definition begin_run (cfg : config) (input : snapshot_of record) : state :=
  let h := data input in
  let refs := seq 0 (length h) in
  let todo := items_to_process h refs in
  {| heap := h; items := refs;
     pending := if (0 <? max_workers cfg)%Z then todo else [];
     jobs := [];
     processed_count := 0; success_count := 0; last_save_count := 0;
     file := input; saves := [];
     run_mode :=
       match todo with
       | [] => Completed
       | _ :: _ => if (0 <? max_workers cfg)%Z then Submitting else Crashed
       end;
     failure :=
       match todo with
       | [] => None
       | _ :: _ => if (0 <? max_workers cfg)%Z then None else Some NoPool
       end |}.

(** The run when it enters the loop, every job submitted, if no thread of
    the pool has moved yet. *)
Definition start_run (cfg : config) (input : snapshot_of record) : state :=
  let h := data input in
  let refs := seq 0 (length h) in
  let todo := items_to_process h refs in
  {| heap := h; items := refs;
     pending := [];
     jobs := if (0 <? max_workers cfg)%Z then submit <$> todo else [];
     processed_count := 0; success_count := 0; last_save_count := 0;
     file := input; saves := [];
     run_mode :=
       match todo with
       | [] => Completed
       | _ :: _ => if (0 <? max_workers cfg)%Z then Running else Crashed
       end;
     failure :=
       match todo with
       | [] => None
       | _ :: _ => if (0 <? max_workers cfg)%Z then None else Some NoPool
       end |}.

(** [executor.submit(process_item, item, index, missing_count)] for the
    next item to process; after the last one the loop begins. *)
Definition submitted (ir : nat * nat) (rest : list (nat * nat)) (s : state)
  : state :=
  {| heap := heap s; items := items s;
     pending := rest;
     jobs := jobs s ++ [submit ir];
     processed_count := processed_count s;
     success_count := success_count s;
     last_save_count := last_save_count s;
     file := file s; saves := saves s;
     run_mode := match rest with [] => Running | _ :: _ => Submitting end;
     failure := failure s |}.

(** [data["total_count"] = len(items)] and [json.dump(data, f)]. The dump
    reads every item at once: a dump that reads the items one after the
    other while the threads of the pool write gives what the dump at once
    gives when these threads are scheduled otherwise. *)
Definition dump (h : list record) (refs : list nat) : snapshot_of record :=
  {| total_count := Some (Z.of_nat (length refs)); data := deref h refs |}.

(** [open(input_file, "w")]: the file is empty, and stays incomplete until
    the dump has come to its end. *)
Definition truncate (s : state) : state :=
  {| heap := heap s; items := items s; pending := pending s; jobs := jobs s;
     processed_count := processed_count s;
     success_count := success_count s;
     last_save_count := last_save_count s;
     file := Torn; saves := saves s;
     run_mode := run_mode s; failure := failure s |}.

(** The dump written to its end. *)
Definition save (s : state) : state :=
  {| heap := heap s; items := items s; pending := pending s; jobs := jobs s;
     processed_count := processed_count s;
     success_count := success_count s;
     last_save_count := last_save_count s;
     file := dump (heap s) (items s);
     saves := dump (heap s) (items s) :: saves s;
     run_mode := run_mode s; failure := failure s |}.

Definition set_mode (m : mode) (s : state) : state :=
  {| heap := heap s; items := items s; pending := pending s; jobs := jobs s;
     processed_count := processed_count s;
     success_count := success_count s;
     last_save_count := last_save_count s;
     file := file s; saves := saves s; run_mode := m;
     failure := failure s |}.

(** An exception that no handler of the function catches. *)
Definition abort (c : cause) (s : state) : state :=
  {| heap := heap s; items := items s; pending := pending s; jobs := jobs s;
     processed_count := processed_count s;
     success_count := success_count s;
     last_save_count := last_save_count s;
     file := file s; saves := saves s; run_mode := Crashed;
     failure := Some c |}.

Definition set_phase (ph : phase) (j : job) : job :=
  {| j_index := j_index j; j_item := j_item j; j_phase := ph;
     j_consumed := j_consumed j |}.

Definition consume (j : job) : job :=
  {| j_index := j_index j; j_item := j_item j; j_phase := j_phase j;
     j_consumed := true |}.

(** The part of the loop body up to the periodic save, for the future at
    position [k] whose result is [(j_index j, j_item j, _)], truthy or not:
    the counters, [items[index] = updated_item], and the test
    [processed_count - last_save_count >= save_interval]. *)
Definition count_result (k : nat) (j : job) (truthy_result : bool)
    (s : state) : state :=
  {| heap := heap s;
     items := <[j_index j := j_item j]> (items s);
     pending := pending s;
     jobs := <[k := consume j]> (jobs s);
     processed_count := processed_count s + 1;
     success_count :=
       if truthy_result then success_count s + 1 else success_count s;
     last_save_count := last_save_count s;
     file := file s; saves := saves s; run_mode := run_mode s;
     failure := failure s |}.

Definition checkpoint_due (cfg : config) (s : state) : bool :=
  (save_interval cfg <=? processed_count s - last_save_count s)%Z.

Definition reset_counter (s : state) : state :=
  {| heap := heap s; items := items s; pending := pending s; jobs := jobs s;
     processed_count := processed_count s;
     success_count := success_count s;
     last_save_count := processed_count s;
     file := file s; saves := saves s; run_mode := run_mode s;
     failure := failure s |}.

(** The periodic save. *)
Definition checkpoint (cfg : config) (s : state) : state :=
  if checkpoint_due cfg s then reset_counter (save s) else s.

(** The progress display computes [processed_count % batch_size]: a
    [ZeroDivisionError] when [batch_size] is 0. The display itself changes
    nothing. *)
Definition show_progress (cfg : config) (s : state) : state :=
  if (batch_size cfg =? 0)%Z then abort ZeroDivision s else s.

(** One turn of the [for future in as_completed(future_to_item)] loop. *)
Definition on_completed (cfg : config) (k : nat) (j : job)
    (truthy_result : bool) (s : state) : state :=
  show_progress cfg (checkpoint cfg (count_result k j truthy_result s)).

(** One step of the worker thread that runs the job at position [k], on the
    object [it] the job refers to. *)
Definition work (k : nat) (j : job) (it : record) (s : state) : state :=
  {| heap := <[j_item j := (wstep it (j_phase j)).1]> (heap s);
     items := items s;
     pending := pending s;
     jobs := <[k := set_phase (wstep it (j_phase j)).2 j]> (jobs s);
     processed_count := processed_count s;
     success_count := success_count s;
     last_save_count := last_save_count s;
     file := file s; saves := saves s; run_mode := run_mode s;
     failure := failure s |}.

(** Jobs a thread of the pool is running. *)
Definition active (j : job) : bool :=
  match status (j_phase j) with
  | Active => true
  | _ => false
  end.

Definition in_flight (js : list job) : nat := length (List.filter active js).

Definition all_consumed (js : list job) : bool := forallb j_consumed js.

(** The job returned: its future holds a result. *)
Definition returned (j : job) : bool :=
  match status (j_phase j) with
  | Done _ => true
  | _ => false
  end.


(** The job is over, with a result or with an exception. *)
Definition over (j : job) : bool := settled (status (j_phase j)).

Definition all_over (js : list job) : bool := forallb over js.

(** The threads of the pool work from the first submission on, and go on
    while the main thread waits for the pool and while the handler
    writes. *)
Definition pool_alive (m : mode) : bool :=
  match m with
  | Submitting | Running | Draining | Handling => true
  | Finishing | Completed | Interrupted | Crashed => false
  end.

(** A step of the run. *)
Inductive step (cfg : config) : state -> state -> Prop :=
  | step_submit s ir rest :
      run_mode s = Submitting ->
      pending s = ir :: rest ->
      step cfg s (submitted ir rest s)
  | step_worker s k j it :
      pool_alive (run_mode s) = true ->
      jobs s !! k = Some j ->
      over j = false ->
      (status (j_phase j) = Queued ->
       (Z.of_nat (in_flight (jobs s)) < max_workers cfg)%Z) ->
      heap s !! j_item j = Some it ->
      step cfg s (work k j it s)
  | step_completed s k j d :
      run_mode s = Running ->
      jobs s !! k = Some j ->
      j_consumed j = false ->
      status (j_phase j) = Done d ->
      step cfg s (on_completed cfg k j d s)
  | step_raised s k j e :
      (* [future.result()] raises what [process_item] raised *)
      run_mode s = Running ->
      jobs s !! k = Some j ->
      j_consumed j = false ->
      status (j_phase j) = Failed e ->
      step cfg s (abort (JobRaised e) s)
  | step_interrupt s :
      (* KeyboardInterrupt in the [with] block: the jobs that were not
         submitted never are; the exit of the block joins the pool *)
      run_mode s = Submitting \/ run_mode s = Running ->
      step cfg s (set_mode Draining s)
  | step_joined s :
      (* every submitted job is over: the handler opens the file *)
      run_mode s = Draining ->
      all_over (jobs s) = true ->
      step cfg s (truncate (set_mode Handling s))
  | step_interrupt_again s :
      (* a second KeyboardInterrupt while the pool is joined: the handler
         opens the file while threads of the pool are still working *)
      run_mode s = Draining ->
      step cfg s (truncate (set_mode Handling s))
  | step_handler_saved s :
      run_mode s = Handling ->
      step cfg s (set_mode Interrupted (save s))
  | step_handler_torn s :
      (* KeyboardInterrupt while the handler writes *)
      run_mode s = Handling ->
      step cfg s (abort WriteInterrupted s)
  | step_clock s :
      (* the loop is over and the clock has not advanced since the start:
         [processed_count/elapsed_time] at line 219 *)
      run_mode s = Running ->
      all_consumed (jobs s) = true ->
      rate_unguarded = true ->
      step cfg s (abort ZeroDivision s)
  | step_finish s :
      (* the loop is over: the final save opens the file *)
      run_mode s = Running ->
      all_consumed (jobs s) = true ->
      step cfg s (truncate (set_mode Finishing s))
  | step_final_saved s :
      run_mode s = Finishing ->
      step cfg s (set_mode Completed (save s))
  | step_final_torn s :
      (* KeyboardInterrupt while the final save writes *)
      run_mode s = Finishing ->
      step cfg s (abort WriteInterrupted s).

(** The states a run goes through, and the states in which it has ended. *)
Definition reachable (cfg : config) (input : snapshot_of record) (s : state)
  : Prop :=
  rtc (step cfg) (begin_run cfg input) s.

Definition ended (s : state) : bool :=
  match run_mode s with
  | Completed | Interrupted | Crashed => true
  | _ => false
  end.

(** The run returned normally: by the early return, after the final save,
    or from the interruption handler. *)
Definition returned_normally (s : state) : bool :=
  match run_mode s with
  | Completed | Interrupted => true
  | _ => false
  end.

(** The number of futures the run submitted. *)
Definition dispatched (s : state) : nat := length (jobs s).

(** Results the loop has taken since the last periodic save. *)
Definition unsaved (s : state) : Z := processed_count s - last_save_count s.

(** ** Schedules

    A run written down as the list of its steps: which thread moved. *)
Inductive action : Type :=
  | Submit             (* the main thread submits the next job *)
  | Work (k : nat)     (* the thread that runs job [k] takes a step *)
  | Take (k : nat)     (* [as_completed] yields future [k] to the loop *)
  | Interrupt          (* KeyboardInterrupt in the [with] block *)
  | Join               (* the pool is joined: the handler opens the file *)
  | InterruptAgain     (* KeyboardInterrupt during the join *)
  | Finish             (* the loop is over: the final save opens the file *)
  | Written            (* the dump comes to its end *)
  | Tear               (* KeyboardInterrupt during the dump *)
  | Clock.             (* the loop is over, no time has elapsed *)

(** The step an action stands for, when the state allows it. *)
Definition perform (cfg : config) (a : action) (s : state) : option state :=
  match a with
  | Submit =>
      match run_mode s, pending s with
      | Submitting, ir :: rest => Some (submitted ir rest s)
      | _, _ => None
      end
  | Work k =>
      if pool_alive (run_mode s) then
        match jobs s !! k with
        | Some j =>
            match status (j_phase j), heap s !! j_item j with
            | Queued, Some it =>
                if (Z.of_nat (in_flight (jobs s)) <? max_workers cfg)%Z
                then Some (work k j it s) else None
            | Active, Some it => Some (work k j it s)
            | _, _ => None
            end
        | None => None
        end
      else None
  | Take k =>
      match run_mode s, jobs s !! k with
      | Running, Some j =>
          match status (j_phase j), j_consumed j with
          | Done d, false => Some (on_completed cfg k j d s)
          | Failed e, false => Some (abort (JobRaised e) s)
          | _, _ => None
          end
      | _, _ => None
      end
  | Interrupt =>
      match run_mode s with
      | Submitting | Running => Some (set_mode Draining s)
      | _ => None
      end
  | Join =>
      match run_mode s with
      | Draining =>
          if all_over (jobs s) then Some (truncate (set_mode Handling s))
          else None
      | _ => None
      end
  | InterruptAgain =>
      match run_mode s with
      | Draining => Some (truncate (set_mode Handling s))
      | _ => None
      end
  | Finish =>
      match run_mode s with
      | Running =>
          if all_consumed (jobs s)
          then Some (truncate (set_mode Finishing s)) else None
      | _ => None
      end
  | Written =>
      match run_mode s with
      | Handling => Some (set_mode Interrupted (save s))
      | Finishing => Some (set_mode Completed (save s))
      | _ => None
      end
  | Tear =>
      match run_mode s with
      | Handling | Finishing => Some (abort WriteInterrupted s)
      | _ => None
      end
  | Clock =>
      match run_mode s with
      | Running =>
          if all_consumed (jobs s) && rate_unguarded
          then Some (abort ZeroDivision s) else None
      | _ => None
      end
  end.

Fixpoint schedule (cfg : config) (acts : list action) (s : state)
  : option state :=
  match acts with
  | [] => Some s
  | a :: acts' =>
      match perform cfg a s with
      | Some s' => schedule cfg acts' s'
      | None => None
      end
  end.

(** The state a schedule leads to from the beginning of a run; the
    beginning itself when the schedule asks for a step that cannot be
    taken. *)
Definition run_from (cfg : config) (input : snapshot_of record)
    (acts : list action) : state :=
  default (begin_run cfg input) (schedule cfg acts (begin_run cfg input)).

(** The same from the entry of the loop, for the runs whose submission is
    not interrupted and during which no thread moves. *)
Definition run_of (cfg : config) (input : snapshot_of record)
    (acts : list action) : state :=
  default (start_run cfg input) (schedule cfg acts (start_run cfg input)).

End WithWorker.

Arguments job : clear implicits.
Arguments state : clear implicits.

(** The states of a run of
    [geocode_nursing_rooms(input_file, max_workers, batch_size, save_interval)]
    over the file [input], with [geocode_address] as the client. *)
Definition geocode_nursing_rooms
    (geocode_address : option PyStr.pystr -> option GeocodeWorker.coordinates)
    (cfg : config) (input : snapshot)
  : state (GeocodeWorker.geocode_worker geocode_address) -> Prop :=
  reachable (W := GeocodeWorker.geocode_worker geocode_address) cfg input.

(** The states of a run of
    [reverse_geocode_playgrounds(input_file, api_key, max_workers, batch_size,
    save_interval)]. *)
Definition reverse_geocode_playgrounds
    (reverse_geocode : option Q -> option Q -> PyStr.pystr -> option PyStr.pystr)
    (api_key : PyStr.pystr) (cfg : config) (input : snapshot)
  : state (ReverseWorker.reverse_worker reverse_geocode api_key) -> Prop :=
  reachable (W := ReverseWorker.reverse_worker reverse_geocode api_key)
    cfg input.


End Orchestrator.

(* ===================================================================== *)
(** * [twd97_to_wgs84] of [parse_playgrounds.py]

    The formula is read over the real numbers: every [float] operation is
    the exact operation it rounds. A division by zero and a square root of
    a negative number raise in Python; here they yield [None]. *)
(* ===================================================================== *)

Module Twd97.

#[local] Open Scope R_scope.

(** [x / y], a [ZeroDivisionError] when [y] is zero. *)
Definition divide (x y : R) : option R :=
  if Req_EM_T y 0 then None else Some (x / y).

(** [math.sqrt(x)], a [ValueError] when [x] is negative. *)
Definition math_sqrt (x : R) : option R :=
  if Rlt_dec x 0 then None else Some (sqrt x).

(** [x ** y] for a base that is not negative and a positive exponent. *)
Definition power (x y : R) : R :=
  if Rlt_dec 0 x then Rpower x y else 0.

Definition twd97_to_wgs84 (x y : R) : option (R * R) :=
  (* TWD97 parameters (GRS80) *)
  let a := 6378137.0 in
  let b := 6356752.314140 in
  e ← math_sqrt (1 - (b * b) / (a * a));
  (* projection parameters: two-degree zone, central meridian 121 *)
  let k0 := 0.9999 in
  let dx := 250000 in
  let dy := 0 in
  let lon0 := 121 * PI / 180 in
  let x1 := x - dx in
  let y1 := y - dy in
  (* meridional arc *)
  let M := y1 / k0 in
  mu ← divide M (a * (1 - e ^ 2 / 4 - 3 * e ^ 4 / 64 - 5 * e ^ 6 / 256));
  root ← math_sqrt (1 - e * e);
  e1 ← divide (1 - root) (1 + root);
  let J1 := 3 * e1 / 2 - 27 * e1 ^ 3 / 32 in
  let J2 := 21 * e1 ^ 2 / 16 - 55 * e1 ^ 4 / 32 in
  let J3 := 151 * e1 ^ 3 / 96 in
  let J4 := 1097 * e1 ^ 4 / 512 in
  let fp := mu + J1 * sin (2 * mu) + J2 * sin (4 * mu)
            + J3 * sin (6 * mu) + J4 * sin (8 * mu) in
  (* auxiliary quantities *)
  e2 ← divide (e ^ 2) (1 - e ^ 2);
  den ← math_sqrt (1 - e ^ 2 * sin fp ^ 2);
  N1 ← divide a den;
  let T1 := tan fp ^ 2 in
  let C1 := e2 * cos fp ^ 2 in
  R1 ← divide (a * (1 - e ^ 2)) (power (1 - e ^ 2 * sin fp ^ 2) 1.5);
  D ← divide x1 (N1 * k0);
  (* latitude *)
  Q1 ← divide (N1 * tan fp) R1;
  let Q2 := D ^ 2 / 2 in
  let Q3 := (5 + 3 * T1 + 10 * C1 - 4 * C1 ^ 2 - 9 * e2) * D ^ 4 / 24 in
  let Q4 := (61 + 90 * T1 + 298 * C1 + 45 * T1 ^ 2 - 252 * e2 - 3 * C1 ^ 2)
            * D ^ 6 / 720 in
  let lat := fp - Q1 * (Q2 - Q3 + Q4) in
  (* longitude *)
  let Q5 := D in
  let Q6 := (1 + 2 * T1 + C1) * D ^ 3 / 6 in
  let Q7 := (5 - 2 * C1 + 28 * T1 - 3 * C1 ^ 2 + 8 * e2 + 24 * T1 ^ 2)
            * D ^ 5 / 120 in
  shift ← divide (Q5 - Q6 + Q7) (cos fp);
  let lng := lon0 + shift in
  Some (lat * 180 / PI, lng * 180 / PI).

End Twd97.

(* ===================================================================== *)
(** * [twd97_to_wgs84] in binary64

    The same function with Python's [float]: IEEE 754 binary64 with
    rounding to nearest, which is what the primitive floats compute. The
    functions of the C library are a parameter. A division by zero, a
    square root of a negative number, a power that overflows and a
    trigonometric function of an infinity raise in Python; here they yield
    [None]. *)
(* ===================================================================== *)

Module Twd97Float.
Import Floats.PrimFloat.

#[local] Open Scope float_scope.

(** The functions of the C library behind [math.sin], [math.cos],
    [math.tan] and [**]. *)
Record libm : Type :=
  { c_sin : float -> float;
    c_cos : float -> float;
    c_tan : float -> float;
    c_pow : float -> float -> float }.

Definition is_inf (x : float) : bool := abs x =? infinity.

(** [x / y], a [ZeroDivisionError] when [y] is zero. *)
Definition divide (x y : float) : option float :=
  if y =? 0 then None else Some (x / y).

(** [math.sqrt(x)], a [ValueError] when [x] is negative. *)
Definition math_sqrt (x : float) : option float :=
  if x <? 0 then None else Some (sqrt x).

(** [math.sin(x)], [math.cos(x)], [math.tan(x)]: a [ValueError] when [x] is
    an infinity. *)
Definition math_call (f : float -> float) (x : float) : option float :=
  if is_inf x then None else Some (f x).

(** [x ** y] for a positive exponent: an [OverflowError] when the result of
    [pow] is an infinity and [x] is not. *)
Definition power (m : libm) (x y : float) : option float :=
  if is_inf (c_pow m x y) && negb (is_inf x) then None
  else Some (c_pow m x y).

(** [x ** 1.5]: for a negative base the result is a complex number, not a
    [float]. *)
Definition power_1_5 (m : libm) (x : float) : option float :=
  if x <? 0 then None else power m x 0x1.8p+0.

Definition math_pi : float := 0x1.921fb54442d18p+1.

Definition twd97_to_wgs84 (m : libm) (x y : float) : option (float * float) :=
  (* TWD97 parameters (GRS80) *)
  let a := 6378137 in
  let b := 0x1.83fc4141adea9p+22 in        (* 6356752.314140 *)
  e ← math_sqrt (1 - (b * b) / (a * a));
  (* projection parameters: two-degree zone, central meridian 121 *)
  let k0 := 0x1.fff2e48e8a71ep-1 in        (* 0.9999 *)
  let dx := 250000 in
  let dy := 0 in
  let lon0 := 121 * math_pi / 180 in
  let x1 := x - dx in
  let y1 := y - dy in
  (* meridional arc *)
  let M := y1 / k0 in
  e_2 ← power m e 2; e_4 ← power m e 4; e_6 ← power m e 6;
  mu ← divide M (a * (1 - e_2 / 4 - 3 * e_4 / 64 - 5 * e_6 / 256));
  root ← math_sqrt (1 - e * e);
  e1 ← divide (1 - root) (1 + root);
  e1_2 ← power m e1 2; e1_3 ← power m e1 3; e1_4 ← power m e1 4;
  let J1 := 3 * e1 / 2 - 27 * e1_3 / 32 in
  let J2 := 21 * e1_2 / 16 - 55 * e1_4 / 32 in
  let J3 := 151 * e1_3 / 96 in
  let J4 := 1097 * e1_4 / 512 in
  s2 ← math_call (c_sin m) (2 * mu); s4 ← math_call (c_sin m) (4 * mu);
  s6 ← math_call (c_sin m) (6 * mu); s8 ← math_call (c_sin m) (8 * mu);
  let fp := mu + J1 * s2 + J2 * s4 + J3 * s6 + J4 * s8 in
  (* auxiliary quantities *)
  e_2 ← power m e 2;
  e2 ← divide e_2 (1 - e_2);
  sin_fp ← math_call (c_sin m) fp; sin_fp_2 ← power m sin_fp 2;
  den ← math_sqrt (1 - e_2 * sin_fp_2);
  N1 ← divide a den;
  tan_fp ← math_call (c_tan m) fp; T1 ← power m tan_fp 2;
  cos_fp ← math_call (c_cos m) fp; cos_fp_2 ← power m cos_fp 2;
  let C1 := e2 * cos_fp_2 in
  curvature ← power_1_5 m (1 - e_2 * sin_fp_2);
  R1 ← divide (a * (1 - e_2)) curvature;
  D ← divide x1 (N1 * k0);
  (* latitude *)
  Q1 ← divide (N1 * tan_fp) R1;
  D_2 ← power m D 2; D_4 ← power m D 4; D_6 ← power m D 6;
  C1_2 ← power m C1 2; T1_2 ← power m T1 2;
  let Q2 := D_2 / 2 in
  let Q3 := (5 + 3 * T1 + 10 * C1 - 4 * C1_2 - 9 * e2) * D_4 / 24 in
  let Q4 := (61 + 90 * T1 + 298 * C1 + 45 * T1_2 - 252 * e2 - 3 * C1_2)
            * D_6 / 720 in
  let lat := fp - Q1 * (Q2 - Q3 + Q4) in
  (* longitude *)
  D_3 ← power m D 3; D_5 ← power m D 5;
  let Q5 := D in
  let Q6 := (1 + 2 * T1 + C1) * D_3 / 6 in
  let Q7 := (5 - 2 * C1 + 28 * T1 - 3 * C1_2 + 8 * e2 + 24 * T1_2)
            * D_5 / 120 in
  shift ← divide (Q5 - Q6 + Q7) cos_fp;
  let lng := lon0 + shift in
  Some (lat * 180 / math_pi, lng * 180 / math_pi).

(** The floats at most [n] units in the last place above and below [r]. *)
Fixpoint above (n : nat) (r : float) : list float :=
  match n with
  | O => []
  | S n' => next_up r :: above n' (next_up r)
  end.

Fixpoint below (n : nat) (r : float) : list float :=
  match n with
  | O => []
  | S n' => next_down r :: below n' (next_down r)
  end.

Definition nearby (r : float) : list float := r :: above 8 r ++ below 8 r.

(** What the statement about the origin asks of the C library: the exact
    values at 0 and 1 that C (Annex F) prescribes, and a [pow] that is at
    most 8 units in the last place away from the repeated product for a
    base between 0 and 1 and the exponent 2, 3, 4 or 6. *)
Record libm_ok (m : libm) : Prop :=
  { sin_zero : c_sin m 0 = 0;
    cos_zero : c_cos m 0 = 1;
    tan_zero : c_tan m 0 = 0;
    pow_zero_2 : c_pow m 0 2 = 0;
    pow_zero_3 : c_pow m 0 3 = 0;
    pow_zero_4 : c_pow m 0 4 = 0;
    pow_zero_5 : c_pow m 0 5 = 0;
    pow_zero_6 : c_pow m 0 6 = 0;
    pow_one_2 : c_pow m 1 2 = 1;
    pow_one_1_5 : c_pow m 1 0x1.8p+0 = 1;
    pow_2 : forall x, (0 <? x) = true -> (x <? 1) = true ->
      In (c_pow m x 2) (nearby (x * x));
    pow_3 : forall x, (0 <? x) = true -> (x <? 1) = true ->
      In (c_pow m x 3) (nearby (x * x * x));
    pow_4 : forall x, (0 <? x) = true -> (x <? 1) = true ->
      In (c_pow m x 4) (nearby (x * x * x * x));
    pow_6 : forall x, (0 <? x) = true -> (x <? 1) = true ->
      In (c_pow m x 6) (nearby (x * x * x * x * x * x)) }.

(** A library that is exact where it matters here. *)
Definition sample_pow (x y : float) : float :=
  if y =? 2 then x * x
  else if y =? 3 then x * x * x
  else if y =? 4 then x * x * x * x
  else if y =? 5 then x * x * x * x * x
  else if y =? 6 then x * x * x * x * x * x
  else x * sqrt x.

Definition sample_libm : libm :=
  {| c_sin := fun x => x; c_cos := fun _ => 1; c_tan := fun x => x;
     c_pow := sample_pow |}.

(** 1e-6 degrees, and the comparison of the specification. *)
Definition tolerance : float := 0x1.0c6f7a0b5ed8dp-20.

Definition within (x c : float) : bool := abs (x - c) <=? tolerance.

End Twd97Float.
(* ===================================================================== *)
(** * [load_api_key] of [reverse_geocode_playgrounds.py]

    What the function finds is a parameter: the [.env] file next to the
    script, with what opening it and reading it line by line do, and the
    environment variables. *)
(* ===================================================================== *)

Module ApiKey.
Import PyStr Py.

(** The [.env] file: missing ([env_file.exists()] is false); one that
    cannot be opened ([exists] or [open] raises: a directory, a file
    without the permission to read it); or one that is opened, with the
    lines [for line in f] yields and the exception the read after them
    raises, if any: bytes that are not UTF-8, an error of the device. *)
Inductive env_file : Type :=
  | Missing
  | Unreadable (e : exn)
  | Opened (lines : list pystr) (broken : option exn).

(** [s.split(sep, 1)] for a one-character separator: the part before the
    first [sep] and the part after it, or [s] alone when there is none. *)
Fixpoint split_once (sep : char) (s : pystr) : list pystr :=
  match s with
  | [] => [[]]
  | c :: s' =>
      if N.eqb c sep then [[]; s']
      else
        match split_once sep s' with
        | head :: tail => (c :: head) :: tail
        | [] => [[c]]
        end
  end.

Definition c_equals : char := 0x3D%N.  (* = *)

(** The three spellings the file may use. *)
Definition is_key_line (line : pystr) : bool :=
  startswith line (lit "key=")
  || startswith line (lit "API_KEY=")
  || startswith line (lit "GOOGLE_API_KEY=").

(** The [for line in f] loop: the first line that, stripped, starts with
    one of the spellings decides; a read that raises before such a line
    ends the call. *)
Fixpoint scan_lines (lines : list pystr) (broken : option exn)
  : option (outcome pystr) :=
  match lines with
  | [] =>
      match broken with
      | Some e => Some (Raise e)
      | None => None
      end
  | l :: lines' =>
      let line := strip l in
      if is_key_line line then
        Some (match split_once c_equals line !! 1%nat with
              | Some value => Return (strip value)
              | None => Raise IndexError
              end)
      else scan_lines lines' broken
  end.

(** [a or b] on optional strings. *)
Definition or_else (a b : option pystr) : option pystr :=
  if truthy a then a else b.

(** The [if env_file.exists():] block: what it returns or raises, if it
    does either. *)
Definition read_env_file (env : env_file) : option (outcome pystr) :=
  match env with
  | Missing => None
  | Unreadable e => Some (Raise e)
  | Opened lines broken => scan_lines lines broken
  end.

Definition load_api_key (env : env_file)
    (getenv : pystr -> option pystr) : outcome pystr :=
  match read_env_file env with
  | Some result => result
  | None =>
      let api_key :=
        or_else (getenv (lit "GOOGLE_API_KEY")) (getenv (lit "API_KEY")) in
      match api_key with
      | Some (c :: k) => Return (c :: k)
      | _ => Raise ValueError
      end
  end.

End ApiKey.

(* ===================================================================== *)
(** * The converters and the merge

    [convert_nursing_rooms.py], [convert_voluntary_nursing_rooms.py] and
    [merge_nursing_rooms.py] build the file that [geocode_nursing_rooms]
    completes. A CSV file is the list of the rows [csv.DictReader] yields;
    a JSON file is the snapshot it holds. *)
(* ===================================================================== *)

Module Csv.
Import PyStr Py.

(** A row of [csv.DictReader]: the items of the dict. A column that a short
    row lacks has the value [None]. *)
Definition row : Type := list (pystr * option pystr).

Fixpoint lookup_column (k : pystr) (r : row) : option (option pystr) :=
  match r with
  | [] => None
  | (k', v) :: r' => if str_eqb k k' then Some v else lookup_column k r'
  end.

(** [row.get(k)] *)
Definition get (k : pystr) (r : row) : option pystr :=
  match lookup_column k r with
  | Some v => v
  | None => None
  end.

(** [row.get(k, default)] *)
Definition get_default (k default : pystr) (r : row) : option pystr :=
  match lookup_column k r with
  | Some v => v
  | None => Some default
  end.

(** [row[k]] for a column whose value was seen to be truthy. *)
Definition value (o : option pystr) : pystr := default [] o.

End Csv.

Module NursingRoomColumns.
Import PyStr.

Definition k_city : pystr := [0x7E23; 0x5E02]%N.              (* 縣市 *)
Definition k_district : pystr :=
  [0x9109; 0x2F; 0x93AE; 0x2F; 0x5E02; 0x2F; 0x5340]%N.       (* 鄉/鎮/市/區 *)
Definition k_village : pystr := [0x6751; 0x2F; 0x91CC]%N.     (* 村/里 *)
Definition k_road : pystr :=
  [0x5927; 0x9053; 0x2F; 0x8DEF; 0x2F; 0x8857; 0x2F; 0x5730; 0x5340]%N.
                                                               (* 大道/路/街/地區 *)
Definition k_section : pystr := [0x6BB5]%N.                   (* 段 *)
Definition k_lane : pystr := [0x5DF7; 0x2F; 0x5F04; 0x2F; 0x8856]%N.
                                                               (* 巷/弄/衖 *)
Definition k_number : pystr := [0x865F]%N.                    (* 號 *)
Definition k_floor : pystr :=
  [0x6A13; 0xFF08; 0x4E4B; 0x7E; 0xFF09]%N.                   (* 樓（之~） *)
Definition k_name : pystr := [0x5834; 0x6240; 0x540D; 0x7A31]%N.
                                                               (* 場所名稱 *)
Definition k_hours : pystr := [0x958B; 0x653E; 0x6642; 0x9593]%N.
                                                               (* 開放時間 *)
Definition k_note : pystr := [0x6CE8; 0x610F; 0x4E8B; 0x9805]%N.
                                                               (* 注意事項 *)
Definition staff : pystr := [0x54E1; 0x5DE5]%N.               (* 員工 *)
Definition nursing_room : pystr := [0x54FA; 0x96C6; 0x4E73; 0x5BA4]%N.
                                                               (* 哺集乳室 *)
Definition mandatory_room : pystr :=
  [0x4F9D; 0x6CD5; 0x8A2D; 0x7F6E; 0x54FA; 0x96C6; 0x4E73; 0x5BA4]%N.
                                                       (* 依法設置哺集乳室 *)
Definition voluntary_room : pystr :=
  [0x81EA; 0x9858; 0x8A2D; 0x7F6E; 0x54FA; 0x96C6; 0x4E73; 0x5BA4]%N.
                                                       (* 自願設置哺集乳室 *)

End NursingRoomColumns.

(** ** [convert_nursing_rooms.py] *)

Module ConvertNursingRooms.
Import PyStr Py Csv Store NursingRoomColumns.

(** [if row.get(k): parts.append(row[k] + suffix)] *)
Definition part (k suffix : pystr) (r : row) : list pystr :=
  if truthy (get k r) then [value (get k r) ++ suffix] else [].

Definition build_address (r : row) : pystr :=
  let parts :=
    part k_city [] r ++ part k_district [] r ++ part k_village [] r
    ++ part k_road [] r ++ part k_section k_section r ++ part k_lane [] r
    ++ part k_number k_number r ++ part k_floor [] r in
  concat parts.

(** [not row.get("場所名稱") or not row["場所名稱"].strip()] *)
Definition unnamed (r : row) : bool :=
  negb (truthy (get k_name r))
  || negb (truthy (Some (strip (value (get k_name r))))).

(** [row.get(k, "").strip() if row.get(k) else ""] *)
Definition stripped_or_empty (k : pystr) (r : row) : pystr :=
  if truthy (get k r) then strip (value (get_default k [] r)) else [].

(** [row.get(k, "").strip() if row.get(k) and row.get(k).strip() else
    None] *)
Definition stripped_or_none (k : pystr) (r : row) : json :=
  if truthy (get k r) && truthy (Some (strip (value (get k r))))
  then JStr (strip (value (get_default k [] r)))
  else JNull.

(** The dict built for a row. *)
Definition to_item (r : row) : item :=
  {| name := strip (value (get k_name r));
     address := Some (build_address r);
     latitude := None;
     longitude := None;
     other :=
       [(lit "type", JStr nursing_room);
        (lit "city", JStr (stripped_or_empty k_city r));
        (lit "district", JStr (stripped_or_empty k_district r));
        (lit "opening_hours", stripped_or_none k_hours r);
        (lit "note", stripped_or_none k_note r)] |}.

(** The [for row in reader] loop; [data_list] grows at its end. *)
Fixpoint convert_rows (rows : list row) (data_list : list item) : list item :=
  match rows with
  | [] => data_list
  | r :: rows' =>
      if unnamed r then convert_rows rows' data_list
      else convert_rows rows' (data_list ++ [to_item r])
  end.

(** The snapshot written to [output_path]. *)
Definition convert_csv_to_json (rows : list row) : Orchestrator.snapshot :=
  let data_list := convert_rows rows [] in
  {| Orchestrator.total_count := Some (Z.of_nat (length data_list));
     Orchestrator.data := data_list |}.

End ConvertNursingRooms.

(** ** [convert_voluntary_nursing_rooms.py] *)

Module ConvertVoluntaryNursingRooms.
Import PyStr Py Csv Store NursingRoomColumns.

(** As in [convert_nursing_rooms.py], but the number comes with its 號. *)
Definition build_address (r : row) : pystr :=
  let parts :=
    ConvertNursingRooms.part k_city [] r
    ++ ConvertNursingRooms.part k_district [] r
    ++ ConvertNursingRooms.part k_village [] r
    ++ ConvertNursingRooms.part k_road [] r
    ++ ConvertNursingRooms.part k_section k_section r
    ++ ConvertNursingRooms.part k_lane [] r
    ++ ConvertNursingRooms.part k_number [] r
    ++ ConvertNursingRooms.part k_floor [] r in
  concat parts.

(** [s and "員工" in s] *)
Definition mentions_staff (o : option pystr) : bool :=
  truthy o && substring staff (value o).

(** [(opening_hours and "員工" in opening_hours)
     or (note and "員工" in note)] *)
Definition for_staff (r : row) : bool :=
  mentions_staff (get_default k_hours [] r)
  || mentions_staff (get_default k_note [] r).

Definition to_item (r : row) : item :=
  let opening_hours := get_default k_hours [] r in
  {| name := strip (value (get k_name r));
     address := Some (build_address r);
     latitude := None;
     longitude := None;
     other :=
       [(lit "type", JStr nursing_room);
        (lit "city", JStr (ConvertNursingRooms.stripped_or_empty k_city r));
        (lit "district",
         JStr (ConvertNursingRooms.stripped_or_empty k_district r));
        (lit "opening_hours",
         if truthy opening_hours
            && truthy (Some (strip (value opening_hours)))
         then JStr (strip (value opening_hours)) else JNull);
        (lit "note", ConvertNursingRooms.stripped_or_none k_note r)] |}.

(** The loop, with [data_list] and [filtered_count]. *)
Fixpoint convert_rows (rows : list row) (data_list : list item)
    (filtered_count : nat) : list item * nat :=
  match rows with
  | [] => (data_list, filtered_count)
  | r :: rows' =>
      if ConvertNursingRooms.unnamed r
      then convert_rows rows' data_list filtered_count
      else if for_staff r
      then convert_rows rows' data_list (S filtered_count)
      else convert_rows rows' (data_list ++ [to_item r]) filtered_count
  end.

(** The snapshot written to [output_path], and the count that is printed. *)
Definition convert_csv_to_json (rows : list row)
  : Orchestrator.snapshot * nat :=
  let '(data_list, filtered_count) := convert_rows rows [] 0 in
  ({| Orchestrator.total_count := Some (Z.of_nat (length data_list));
      Orchestrator.data := data_list |}, filtered_count).

End ConvertVoluntaryNursingRooms.

(** ** [merge_nursing_rooms.py] *)

Module MergeNursingRooms.
Import PyStr Py Store NursingRoomColumns.

(** [item["type"] = label] *)
Definition set_type (label : pystr) (it : item) : item :=
  {| name := name it; address := address it; latitude := latitude it;
     longitude := longitude it;
     other := PyDict.set_key (lit "type") (JStr label) (other it) |}.

(** The snapshot written to 全國哺集乳室.json, from the two that are read. *)
Definition merge_nursing_rooms
    (mandatory_data voluntary_data : Orchestrator.snapshot)
  : Orchestrator.snapshot :=
  let mandatory := set_type mandatory_room <$> Orchestrator.data mandatory_data in
  let voluntary := set_type voluntary_room <$> Orchestrator.data voluntary_data in
  let merged_data := mandatory ++ voluntary in
  {| Orchestrator.total_count := Some (Z.of_nat (length merged_data));
     Orchestrator.data := merged_data |}.

End MergeNursingRooms.

(* ===================================================================== *)
(** * The playground loaders of [parse_playgrounds.py]

    [parse_playgrounds_csv] and [parse_taipei_playgrounds_json], from the
    rows of the CSV file and from the value of the JSON file. Coordinates
    are Python [float]s, binary64 with its NaN. What the functions take
    from the language is a parameter: the C library behind
    [twd97_to_wgs84], the conversion of a string and of a number to a
    [float], and the text of a value in an f-string. A loader returns
    [None] when an exception leaves it. *)
(* ===================================================================== *)

Module ParsePlaygrounds.
Import PyStr Py Csv ParseAddress.
Import Floats.PrimFloat.

#[local] Open Scope float_scope.

Record ParsedPlace : Type :=
  { name : json;
    address : json;
    city : option pystr;
    district : option pystr;
    latitude : float;
    longitude : float;
    link : json;
    metadata : list (pystr * json);
    source : pystr;
    source_id : pystr }.

(** The keys and the literals that are not ASCII. *)
Definition k_park_name : pystr := [0x516C; 0x5712; 0x540D; 0x7A31]%N.  (* 公園名稱 *)
Definition k_title : pystr := [0x540D; 0x7A31]%N.                      (* 名稱 *)
Definition k_borough : pystr := [0x884C; 0x653F; 0x5340]%N.            (* 行政區 *)
Definition k_lat : pystr := [0x7DEF; 0x5EA6]%N.                        (* 緯度 *)
Definition k_lng : pystr := [0x7D93; 0x5EA6]%N.                        (* 經度 *)
Definition k_x : pystr := [0x58; 0x5750; 0x6A19]%N.                    (* X坐標 *)
Definition k_y : pystr := [0x59; 0x5750; 0x6A19]%N.                    (* Y坐標 *)
Definition k_url : pystr := [0x9023; 0x7D50]%N.                        (* 連結 *)
Definition unnamed_playground : pystr :=
  [0x672A; 0x547D; 0x540D; 0x904A; 0x6232; 0x5834]%N.                  (* 未命名遊戲場 *)
Definition inclusive_playground : pystr :=
  [0x5171; 0x878D; 0x5F0F; 0x904A; 0x6232; 0x5834]%N.                  (* 共融式遊戲場 *)
Definition taipei_playground : pystr :=
  [0x53F0; 0x5317; 0x5E02; 0x5152; 0x7AE5; 0x904A; 0x6232; 0x5834]%N.  (* 台北市兒童遊戲場 *)
Definition taipei_city : pystr := [0x81FA; 0x5317; 0x5E02]%N.          (* 臺北市 *)

(** [lat < 20 or lat > 26 or lng < 118 or lng > 123] *)
Definition outside_box (lat lng : float) : bool :=
  (lat <? 20) || (26 <? lat) || (lng <? 118) || (123 <? lng).

(** A value that may be [None], as JSON and in an f-string. *)
Definition opt_json (o : option pystr) : json :=
  match o with
  | Some s => JStr s
  | None => JNull
  end.

Definition opt_text (o : option pystr) : pystr :=
  match o with
  | Some s => s
  | None => lit "None"
  end.

(** [a or b] *)
Definition py_or (a b : json) : json := if py_truthy a then a else b.

(** [district.endswith(('區', '市', '鎮', '鄉'))] *)
Definition ends_with_suffix (s : pystr) : bool :=
  match last s with
  | Some c => mem c [c_qu; c_shi; c_zhen; c_xiang]
  | None => false
  end.

Section WithPython.

(** The C library of [twd97_to_wgs84]. *)
Variable m : Twd97Float.libm.

(** [float(s)] for a string: [None] is the [ValueError]. *)
Variable parse_float : pystr -> option float.

(** [float(v)] for a number, which is also [float(str(v))]. *)
Variable number_to_float : Q -> float.

(** [f"{x}"] for a float and for a value. *)
Variable format_float : float -> pystr.
Variable format_value : json -> pystr.

(** ** [parse_playgrounds_csv] *)

(** [float(row.get(k, 0))]: [None] is the [ValueError] of a string that is
    no number or the [TypeError] of the [None] of a short row. *)
Definition float_of_column (k : pystr) (r : row) : option float :=
  match lookup_column k r with
  | None => Some 0
  | Some None => None
  | Some (Some s) => parse_float s
  end.

(** The body of the loop: [None] is [continue]. *)
Definition parse_row (r : row) : option ParsedPlace :=
  match float_of_column (lit "latitude") r,
        float_of_column (lit "longitude") r with
  | Some lat, Some lng =>
      if outside_box lat lng then None
      else
        let '(city, district, remaining_address) :=
          parse_city_and_district (get_default (lit "address") [] r) None
            (get (lit "district") r) in
        Some
          {| name := opt_json (get_default (lit "location") unnamed_playground r);
             address :=
               if is_empty remaining_address
               then opt_json (get_default (lit "address") [] r)
               else JStr remaining_address;
             city := normalize_city_name city;
             district := normalize_district_name district;
             latitude := lat;
             longitude := lng;
             link := opt_json (get (lit "link") r);
             metadata :=
               [(lit "district", opt_json (get (lit "district") r));
                (lit "originalAddress", opt_json (get (lit "address") r))];
             source := inclusive_playground;
             source_id :=
               lit "playground_"
               ++ opt_text (get_default (lit "location") [] r)
               ++ lit "_" ++ format_float lat
               ++ lit "_" ++ format_float lng |}
  | _, _ => None
  end.

Fixpoint parse_rows (rows : list row) (places : list ParsedPlace)
  : list ParsedPlace :=
  match rows with
  | [] => places
  | r :: rows' =>
      match parse_row r with
      | Some place => parse_rows rows' (places ++ [place])
      | None => parse_rows rows' places
      end
  end.

Definition parse_playgrounds_csv (rows : list row) : list ParsedPlace :=
  parse_rows rows [].

(** ** [parse_taipei_playgrounds_json] *)

(** [float(s) if s else float('nan')] for [s = str(v)], where [v] is the
    value of an [or] chain that ends in ['']; [None] is the [ValueError]. *)
Definition float_of_text (v : json) : option float :=
  if negb (py_truthy v) then Some nan
  else
    match v with
    | JStr s => parse_float s
    | JNum q => Some (number_to_float q)
    | _ => None
    end.

(** The two conversions of a [try] block whose handler sets both to NaN. *)
Definition both_or_nan (a b : option float) : float * float :=
  match a, b with
  | Some x, Some y => (x, y)
  | _, _ => (nan, nan)
  end.

(** What happens to an item. *)
Inductive verdict : Type :=
  | Raises
  | Skipped
  | Kept (place : ParsedPlace).

(** The coordinates of an item: those it gives, or those converted from
    its TWD97 coordinates. *)
Inductive located : Type :=
  | LocationRaises
  | NoLocation
  | Location (lat lng : float).

Definition locate (l : list (pystr * json)) : located :=
  let get k := default JNull (lookup_key k l) in
  let '(lat, lng) :=
    both_or_nan
      (float_of_text
         (py_or (get (lit "latitude"))
            (py_or (get (lit "lat"))
               (py_or (get k_lat) (py_or (get k_lat) (JStr []))))))
      (float_of_text
         (py_or (get (lit "longitude"))
            (py_or (get (lit "lng"))
               (py_or (get k_lng) (py_or (get k_lng) (JStr [])))))) in
  if is_nan lat || is_nan lng then
    let '(x, y) :=
      both_or_nan
        (float_of_text (py_or (get k_x) (py_or (get k_x) (JStr []))))
        (float_of_text (py_or (get k_y) (py_or (get k_y) (JStr [])))) in
    if negb (is_nan x) && negb (is_nan y) && (0 <? x) && (0 <? y) then
      match Twd97Float.twd97_to_wgs84 m x y with
      | Some (lat, lng) => Location lat lng
      | None => LocationRaises
      end
    else NoLocation
  else Location lat lng.

(** The body of the loop. An item that is no dict has no [get]; a district
    that is truthy and no string has no [endswith]. *)
Definition parse_item (item : json) : verdict :=
  match item with
  | JObj l =>
      let get k := default JNull (lookup_key k l) in
      let name :=
        py_or (get k_park_name)
          (py_or (get (lit "name"))
             (py_or (get (lit "location"))
                (py_or (get k_title) (JStr unnamed_playground)))) in
      let district_name :=
        py_or (get k_borough)
          (py_or (get (lit "district")) (py_or (get k_borough) (JStr []))) in
      match locate l with
      | LocationRaises => Raises
      | NoLocation => Skipped
      | Location lat lng =>
          if is_nan lat || is_nan lng || outside_box lat lng then Skipped
          else
            let keep (district : option pystr) : verdict :=
              Kept
                {| name := name;
                   address := JStr [];
                   city := normalize_city_name (Some taipei_city);
                   district := normalize_district_name district;
                   latitude := lat;
                   longitude := lng;
                   link := py_or (get (lit "link")) (get k_url);
                   metadata := PyDict.set_key k_borough district_name l;
                   source := taipei_playground;
                   source_id :=
                     lit "taipei_playground_"
                     ++ format_value
                          (default name (lookup_key (lit "id") l))
                     ++ lit "_" ++ format_float lat
                     ++ lit "_" ++ format_float lng |} in
            if py_truthy district_name then
              match district_name with
              | JStr district =>
                  keep (Some (if ends_with_suffix district then district
                              else district ++ [c_qu]))
              | _ => Raises
              end
            else
              match district_name with
              | JStr district => keep (Some district)
              | _ => keep None
              end
      end
  | _ => Raises
  end.

Fixpoint parse_items (data : list json) (places : list ParsedPlace)
  : option (list ParsedPlace) :=
  match data with
  | [] => Some places
  | item :: data' =>
      match parse_item item with
      | Raises => None
      | Skipped => parse_items data' places
      | Kept place => parse_items data' (places ++ [place])
      end
  end.

(** [data] is what [json.load] returned. *)
Definition parse_taipei_playgrounds_json (data : json)
  : option (list ParsedPlace) :=
  match data with
  | JArr items => parse_items items []
  | _ => Some []
  end.

End WithPython.

End ParsePlaygrounds.

(* ===================================================================== *)
(** * Properties of the address parser *)
(* ===================================================================== *)

Module ParseAddressProps.
Import PyStr ParseAddress.

(** ** Stripping *)

Lemma lstrip_nonspace c s : isspace c = false -> lstrip (c :: s) = c :: s.
Proof. intros H. simpl. now rewrite H. Qed.

Lemma lstrip_app_nonspace a c b :
  isspace c = false -> lstrip (a ++ c :: b) = lstrip a ++ c :: b.
Proof.
  intros Hc. induction a as [|x a IH]; simpl.
  - now rewrite Hc.
  - destruct (isspace x); [exact IH | reflexivity].
Qed.

Lemma lstrip_idem s : lstrip (lstrip s) = lstrip s.
Proof.
  induction s as [|x s IH]; simpl; [reflexivity|].
  destruct (isspace x) eqn:Hx; [exact IH|].
  simpl. now rewrite Hx.
Qed.

Lemma rstrip_app_nonspace a c b :
  isspace c = false -> rstrip (a ++ c :: b) = a ++ c :: rstrip b.
Proof.
  intros Hc. unfold rstrip.
  rewrite rev_app_distr. simpl. rewrite <- app_assoc. simpl.
  rewrite lstrip_app_nonspace by exact Hc.
  rewrite rev_app_distr. simpl. rewrite rev_involutive.
  now rewrite <- app_assoc.
Qed.

Lemma rstrip_idem s : rstrip (rstrip s) = rstrip s.
Proof. unfold rstrip. now rewrite rev_involutive, lstrip_idem. Qed.

(** A stripped string is empty, or begins and ends with a character that is
    not white space. *)
Inductive clean : pystr -> Prop :=
  | clean_nil : clean []
  | clean_one c : isspace c = false -> clean [c]
  | clean_ends c s d :
      isspace c = false -> isspace d = false -> clean (c :: s ++ [d]).

Lemma lstrip_cases s :
  lstrip s = [] \/ exists c t, lstrip s = c :: t /\ isspace c = false.
Proof.
  induction s as [|x s IH]; simpl; [now left|].
  destruct (isspace x) eqn:Hx; [exact IH|]. right. eauto.
Qed.

Lemma rstrip_cases s :
  rstrip s = [] \/ exists t d, rstrip s = t ++ [d] /\ isspace d = false.
Proof.
  unfold rstrip. destruct (lstrip_cases (rev s)) as [->|(c & t & -> & Hc)].
  - now left.
  - right. exists (rev t), c. simpl. auto.
Qed.

Lemma strip_clean s : clean (strip s).
Proof.
  unfold strip. destruct (rstrip_cases s) as [->|(t & d & -> & Hd)].
  - constructor.
  - change (t ++ [d]) with (t ++ d :: []).
    rewrite lstrip_app_nonspace by exact Hd.
    destruct (lstrip_cases t) as [->|(c & u & -> & Hc)].
    + now constructor.
    + simpl. now constructor.
Qed.

Lemma strip_of_clean s : clean s -> strip s = s.
Proof.
  intros [|c Hc|c t d Hc Hd]; unfold strip.
  - reflexivity.
  - change [c] with ([] ++ c :: []).
    rewrite rstrip_app_nonspace by exact Hc. simpl. now rewrite Hc.
  - change (c :: t ++ [d]) with ((c :: t) ++ d :: []).
    rewrite rstrip_app_nonspace by exact Hd.
    cbn [rstrip rev lstrip app]. now rewrite Hc.
Qed.

Lemma strip_idem s : strip (strip s) = strip s.
Proof. apply strip_of_clean, strip_clean. Qed.

Lemma strip_rstrip s : strip (rstrip s) = strip s.
Proof. unfold strip. now rewrite rstrip_idem. Qed.

(** ** The city loop *)

Lemma city_shape city :
  In city CITY_PATTERNS ->
  exists c1 c2 c3, city = [c1; c2; c3] /\ isspace c1 = false.
Proof.
  intros H. simpl in H.
  repeat (destruct H as [<-|H]; [do 3 eexists; split; reflexivity|]).
  destruct H.
Qed.

Lemma match_city_known city tail :
  In city CITY_PATTERNS ->
  match_city CITY_PATTERNS (city ++ tail) = (Some city, tail).
Proof.
  intros H. simpl in H.
  repeat (destruct H as [<-|H]; [reflexivity|]).
  destruct H.
Qed.

(** ** The district pattern *)

(** A name the pattern can match as a whole: one to four characters outside
    [[區市鎮鄉縣]], then one of them. *)
Definition district_shaped (d : pystr) : Prop :=
  exists body suffix,
    d = body ++ [suffix] /\
    (1 <= length body <= 4)%nat /\
    Forall (fun c => is_suffix c = false) body /\
    is_suffix suffix = true.

Lemma span_body_app n body c tail :
  Forall (fun c => is_suffix c = false) body ->
  (length body <= n)%nat ->
  is_suffix c = true ->
  span_body n (body ++ c :: tail) = length body.
Proof.
  intros Hb. revert n. induction Hb as [|x body Hx Hb IH]; intros n Hn Hc.
  - destruct n; simpl; [reflexivity | now rewrite Hc].
  - destruct n; simpl in *; [lia|]. rewrite Hx. f_equal. apply IH; [lia|exact Hc].
Qed.

Lemma backtrack_S k s :
  backtrack (S k) s =
  match s !! S k with
  | Some c => if is_suffix c then Some (take (S (S k)) s) else backtrack k s
  | None => backtrack k s
  end.
Proof. reflexivity. Qed.

Lemma backtrack_hit body c tail :
  body <> [] -> is_suffix c = true ->
  backtrack (length body) (body ++ c :: tail) = Some (body ++ [c]).
Proof.
  intros Hne Hc.
  destruct (length body) as [|n] eqn:En.
  { destruct body; [congruence | discriminate]. }
  rewrite backtrack_S.
  rewrite list_lookup_middle by (symmetry; exact En). rewrite Hc. f_equal.
  replace (S (S n)) with (length (body ++ [c])).
  2:{ rewrite length_app, En. simpl. lia. }
  change (body ++ c :: tail) with (body ++ [c] ++ tail).
  rewrite app_assoc. apply take_app_length.
Qed.

Lemma district_match_shaped d tail :
  district_shaped d -> district_match (d ++ tail) = Some d.
Proof.
  intros (body & c & -> & [Hlo Hhi] & Hb & Hc).
  unfold district_match.
  replace ((body ++ [c]) ++ tail) with (body ++ c :: tail)
    by (rewrite <- app_assoc; reflexivity).
  rewrite span_body_app by assumption.
  apply backtrack_hit; [|exact Hc].
  destruct body; simpl in *; [lia | congruence].
Qed.

Lemma suffix_not_space c : is_suffix c = true -> isspace c = false.
Proof.
  unfold is_suffix, mem. simpl. rewrite !orb_true_iff.
  intros [H|[H|[H|[H|[H|H]]]]]; try discriminate;
    apply N.eqb_eq in H; subst; reflexivity.
Qed.

(** ** Normalization *)

Lemma replace_idem s :
  replace c_tai_simp c_tai_trad (replace c_tai_simp c_tai_trad s)
  = replace c_tai_simp c_tai_trad s.
Proof.
  unfold replace. rewrite map_map. apply map_ext. intros c.
  destruct (N.eqb c c_tai_simp) eqn:E; [reflexivity | now rewrite E].
Qed.

Lemma normalize_city_idem city :
  normalize_city_name (normalize_city_name city) = normalize_city_name city.
Proof.
  destruct city as [[|c s]|]; try reflexivity.
  change (normalize_city_name (Some (c :: s)))
    with (Some (replace c_tai_simp c_tai_trad (c :: s))).
  change (normalize_city_name (Some (replace c_tai_simp c_tai_trad (c :: s))))
    with (Some (replace c_tai_simp c_tai_trad
                  (replace c_tai_simp c_tai_trad (c :: s)))).
  f_equal. apply replace_idem.
Qed.

(** A string that is not empty but holds white space only. *)
Definition blank (o : option pystr) : bool :=
  truthy o && negb (truthy (strip <$> o)).

Lemma normalize_district_idem district :
  blank district = false ->
  normalize_district_name (normalize_district_name district)
  = normalize_district_name district.
Proof.
  destruct district as [[|c s]|]; try reflexivity.
  unfold blank, normalize_district_name.
  cbn [truthy fmap option_fmap option_map andb].
  destruct (strip (c :: s)) as [|x t] eqn:E; [discriminate|]. intros _.
  cbn [truthy fmap option_fmap option_map]. rewrite <- E. f_equal. apply strip_idem.
Qed.

(** ** The specification's statements *)

(** The example of the module's docstring: 臺北市 北投區 榮華三路與磺溪旁. *)
Definition taipei : pystr := [c_tai_trad; 0x5317; c_shi]%N.
Definition beitou : pystr := [0x5317; 0x6295; c_qu]%N.
Definition ronghua_road : pystr :=
  [0x69AE; 0x83EF; 0x4E09; 0x8DEF; 0x8207; 0x78FA; 0x6EAA; 0x65C1]%N.

(** 高雄市 前鎮區 中山路: a district whose name holds 鎮 before its 區. *)
Definition kaohsiung : pystr := [0x9AD8; 0x96C4; c_shi]%N.
Definition qianzhen : pystr := [0x524D; c_zhen; c_qu]%N.
Definition zhongshan_road : pystr := [0x4E2D; 0x5C71; 0x8DEF]%N.

(** C2, as stated, fails: for the address 高雄市前鎮區中山路, made of a city of
    [CITY_PATTERNS], the district 前鎮區 and a remainder, the parser returns
    the district 前鎮 and the remainder 區中山路, because the pattern stops
    at the first of 區市鎮鄉縣. *)
Lemma parse_known_district_counterexample :
  In kaohsiung CITY_PATTERNS /\
  parse_city_and_district (Some (kaohsiung ++ qianzhen ++ zhongshan_road))
    None None
  = (Some kaohsiung, Some [0x524D; c_zhen]%N, c_qu :: zhongshan_road) /\
  parse_city_and_district (Some (kaohsiung ++ qianzhen ++ zhongshan_road))
    None None
  <> (Some kaohsiung, Some qianzhen, strip zhongshan_road).
Proof.
  split; [|split].
  - simpl. tauto.
  - vm_compute. reflexivity.
  - vm_compute. discriminate.
Qed.

(** C2, amended: for every address made of a city of [CITY_PATTERNS], a
    district name of one to four characters other than 區市鎮鄉縣 followed by
    one of these five, and any remainder, [parse_city_and_district] returns
    that city, that district and the remainder stripped, whatever the
    fallbacks. *)
Theorem parse_city_district_remainder
    city district rest fallback_city fallback_district :
  In city CITY_PATTERNS ->
  district_shaped district ->
  parse_city_and_district (Some (city ++ district ++ rest))
    fallback_city fallback_district
  = (Some city, Some district, strip rest).
Proof.
  intros Hcity Hd. rename district into d.
  destruct (city_shape city Hcity) as (c1 & c2 & c3 & Ec & Hc1).
  pose proof Hd as (body & c & Ed & Hlen & Hb & Hc).
  assert (Hstrip : strip (city ++ d ++ rest) = city ++ d ++ rstrip rest).
  { unfold strip. rewrite Ed, <- !app_assoc. simpl.
    rewrite (app_assoc city body).
    rewrite rstrip_app_nonspace by now apply suffix_not_space.
    rewrite <- app_assoc, Ec. simpl. now rewrite Hc1. }
  unfold parse_city_and_district. rewrite !Hstrip.
  rewrite match_city_known by exact Hcity.
  rewrite district_match_shaped by exact Hd.
  rewrite drop_app_length.
  destruct body as [|b body]; [simpl in Hlen; lia|].
  rewrite Ed, Ec. cbn [app is_empty orb truthy or_fallback negb andb length
                       Nat.ltb Nat.leb].
  now rewrite strip_rstrip.
Qed.

Lemma beitou_shaped : district_shaped beitou.
Proof.
  exists [0x5317; 0x6295]%N, c_qu. split; [reflexivity|].
  split; [simpl; lia|]. split; [|reflexivity].
  repeat constructor.
Defined.

Lemma parse_city_district_remainder_witness :
  In taipei CITY_PATTERNS /\
  district_shaped beitou /\
  parse_city_and_district (Some (taipei ++ beitou ++ ronghua_road)) None None
  = (Some taipei, Some beitou, strip ronghua_road).
Proof.
  split; [simpl; tauto|]. split; [exact beitou_shaped|].
  apply (parse_city_district_remainder taipei beitou ronghua_road None None).
  - simpl. tauto.
  - exact beitou_shaped.
Defined.

(** C9, as stated, fails for the district normalizer: a single space is
    normalized to the empty string, and the empty string to [None]. *)
Lemma normalize_district_counterexample :
  normalize_district_name (Some [0x20%N]) = Some [] /\
  normalize_district_name (normalize_district_name (Some [0x20%N]))
  <> normalize_district_name (Some [0x20%N]).
Proof. split; [reflexivity | vm_compute; discriminate]. Qed.

(** C9, amended: the city normalizer is idempotent on every optional
    string, and the district normalizer on every optional string that is
    not a non-empty run of white space. *)
Theorem normalize_idempotent city district :
  blank district = false ->
  normalize_city_name (normalize_city_name city) = normalize_city_name city /\
  normalize_district_name (normalize_district_name district)
  = normalize_district_name district.
Proof.
  intros H. split; [apply normalize_city_idem | now apply normalize_district_idem].
Qed.

Lemma normalize_idempotent_witness :
  blank (Some (0x20%N :: beitou)) = false /\
  normalize_city_name (normalize_city_name (Some [c_tai_simp; 0x5317; c_shi]%N))
  = normalize_city_name (Some [c_tai_simp; 0x5317; c_shi]%N) /\
  normalize_district_name (normalize_district_name (Some (0x20%N :: beitou)))
  = normalize_district_name (Some (0x20%N :: beitou)).
Proof.
  split; [reflexivity|].
  apply (normalize_idempotent (Some [c_tai_simp; 0x5317; c_shi]%N)
           (Some (0x20%N :: beitou))).
  reflexivity.
Defined.

End ParseAddressProps.

(* ===================================================================== *)
(** * Properties of the enrichment clients *)
(* ===================================================================== *)

Module ClientProps.
Import PyStr Py Http.

(** ** [max] with a numeric key *)

(** The confidence score of a candidate as a number, 0 when it has none. *)
Definition score_value (c : json) : option Q :=
  match GeocodeClient.score c with
  | Return v => numeric v
  | Raise _ => None
  end.

Definition below (strict : bool) (q : Q) (c : json) : Prop :=
  exists x, score_value c = Some x /\ if strict then (x < q)%Q else (x <= q)%Q.

Lemma score_value_inv c q :
  score_value c = Some q ->
  exists v, GeocodeClient.score c = Return v /\ numeric v = Some q.
Proof.
  unfold score_value. destruct (GeocodeClient.score c) as [v|e]; [eauto | discriminate].
Qed.

Lemma py_gt_numeric a b x y :
  numeric a = Some x -> numeric b = Some y ->
  py_gt a b = Return (negb (Qle_bool x y)).
Proof.
  intros Ha Hb. destruct a; simpl in Ha; try discriminate;
    simpl; rewrite Hb; congruence.
Qed.

Lemma below_weaken q q' c :
  (q <= q')%Q -> below false q c -> below false q' c.
Proof.
  intros Hq (x & Hx & Hle). exists x. split; [exact Hx|].
  simpl in *. now apply Qle_trans with q.
Qed.

Lemma below_strict q q' c :
  (q < q')%Q -> below false q c -> below true q' c.
Proof.
  intros Hq (x & Hx & Hle). exists x. split; [exact Hx|].
  simpl in *. now apply Qle_lt_trans with q.
Qed.

Lemma below_strict_trans q q' c :
  (q < q')%Q -> below true q c -> below true q' c.
Proof.
  intros Hq (x & Hx & Hlt). exists x. split; [exact Hx|].
  simpl in *. now apply Qlt_trans with q.
Qed.

(** The loop keeps the first candidate of highest score: those before it
    score strictly less, those after it at most as much. *)
Lemma max_loop_first_max rest : forall pre best vbest qb mid,
  GeocodeClient.score best = Return vbest ->
  numeric vbest = Some qb ->
  Forall (fun c => is_Some (score_value c)) rest ->
  Forall (below true qb) pre ->
  Forall (below false qb) mid ->
  exists pre' best' post' q',
    pre ++ best :: mid ++ rest = pre' ++ best' :: post' /\
    max_loop GeocodeClient.score best vbest rest = Return best' /\
    score_value best' = Some q' /\
    Forall (below true q') pre' /\
    Forall (below false q') post'.
Proof.
  induction rest as [|item rest IH];
    intros pre best vbest qb mid Hs Hn Hrest Hpre Hmid.
  - exists pre, best, mid, qb. rewrite app_nil_r.
    repeat split; auto. unfold score_value. now rewrite Hs.
  - apply Forall_cons in Hrest as [[q Hq] Hrest].
    destruct (score_value_inv _ _ Hq) as (v & Hv & Hvn).
    cbn [max_loop]. rewrite Hv. cbn [bind].
    rewrite (py_gt_numeric _ _ _ _ Hvn Hn). cbn [bind].
    destruct (Qle_bool q qb) eqn:Hle; cbn [negb].
    + apply Qle_bool_iff in Hle.
      destruct (IH pre best vbest qb (mid ++ [item]) Hs Hn Hrest Hpre)
        as (pre' & best' & post' & q' & E & Hm & Hq' & H1 & H2).
      { apply Forall_app. split; [exact Hmid|].
        constructor; [|constructor]. exists q. now split. }
      exists pre', best', post', q'. rewrite <- E, <- app_assoc. auto.
    + assert (Hlt : (qb < q)%Q).
      { apply Qnot_le_lt. intros H. apply Qle_bool_iff in H. congruence. }
      destruct (IH (pre ++ best :: mid) item v q [] Hv Hvn Hrest)
        as (pre' & best' & post' & q' & E & Hm & Hq' & H1 & H2).
      { apply Forall_app. split.
        - eapply Forall_impl; [exact Hpre|]. intros c. now apply below_strict_trans.
        - constructor.
          + exists qb. split; [|exact Hlt]. unfold score_value. now rewrite Hs.
          + eapply Forall_impl; [exact Hmid|]. intros c. now apply below_strict. }
      { constructor. }
      exists pre', best', post', q'. rewrite <- E, <- app_assoc. auto.
Qed.

Lemma py_max_first_max c cs :
  Forall (fun c => is_Some (score_value c)) (c :: cs) ->
  exists pre best post q,
    c :: cs = pre ++ best :: post /\
    py_max GeocodeClient.score (JArr (c :: cs)) = Return best /\
    score_value best = Some q /\
    Forall (below true q) pre /\
    Forall (below false q) post.
Proof.
  intros H. apply Forall_cons in H as [[q Hq] H].
  destruct (score_value_inv _ _ Hq) as (v & Hv & Hvn).
  destruct (max_loop_first_max cs [] c v q [] Hv Hvn H)
    as (pre & best & post & q' & E & Hm & Hq' & H1 & H2); [constructor..|].
  exists pre, best, post, q'. repeat split; auto.
  unfold py_max. cbn [py_iter bind]. rewrite Hv. exact Hm.
Qed.

(** ** Failing soft *)

Lemma on_error_returns {A} (e : exn) :
  GeocodeClient.on_error e = Return (None : option A).
Proof. now destruct e. Qed.


Lemma try_except_raise {A} (body : outcome (option A)) e :
  body = Raise e -> try_except body GeocodeClient.on_error = Return None.
Proof. intros ->. simpl. apply on_error_returns. Qed.






Lemma str_eqb_eq s t : str_eqb s t = true -> s = t.
Proof.
  revert t. induction s as [|c s IH]; intros [|d t]; simpl; try discriminate; auto.
  intros H. apply andb_true_iff in H as [H1 H2].
  apply N.eqb_eq in H1. subst. f_equal. now apply IH.
Qed.


Lemma strip_nil : strip [] = [].
Proof. reflexivity. Qed.

Lemma not_blank a :
  strip a <> [] ->
  negb (truthy (Some a)) || negb (truthy (Some (strip a))) = false.
Proof.
  intros H. destruct a as [|c a]; [now rewrite strip_nil in H|].
  cbn [truthy negb orb]. destruct (strip (c :: a)); [congruence | reflexivity].
Qed.

(** ** The candidate the claim names *)

(** The confidence score of a candidate, read off the candidate itself:
    the number under its key [score], 0 when it has no such key. *)
Definition confidence (c : json) : option Q :=
  match c with
  | JObj fields =>
      match lookup_key (lit "score") fields with
      | Some v => numeric v
      | None => Some 0%Q
      end
  | _ => None
  end.

(** [c] scores less than [q] ([strict]), or at most [q]. *)
Definition lower (strict : bool) (q : Q) (c : json) : Prop :=
  exists x, confidence c = Some x /\ if strict then (x < q)%Q else (x <= q)%Q.

(** [best] is the first of the candidates of highest score: those before it
    score strictly less, those after it at most as much. *)
Definition first_highest (candidates pre : list json) (best : json)
    (post : list json) : Prop :=
  candidates = pre ++ best :: post /\
  exists q,
    confidence best = Some q /\
    Forall (lower true q) pre /\ Forall (lower false q) post.

(** The coordinates of a candidate, read off the candidate itself: the
    values under [x] and [y] of its [location], when both are there and
    neither is [null]. *)
Definition location_of (c : json) : option (json * json) :=
  match c with
  | JObj fields =>
      match lookup_key (lit "location") fields with
      | Some (JObj location) =>
          match lookup_key (lit "x") location,
                lookup_key (lit "y") location with
          | Some JNull, _ | _, Some JNull => None
          | Some x, Some y => Some (x, y)
          | _, _ => None
          end
      | _ => None
      end
  | _ => None
  end.

Lemma score_value_confidence c : score_value c = confidence c.
Proof.
  unfold score_value, confidence, GeocodeClient.score, py_get.
  destruct c; try reflexivity.
  destruct (lookup_key (lit "score") l); reflexivity.
Qed.

Lemma below_lower strict q c : below strict q c <-> lower strict q c.
Proof. unfold below, lower. now rewrite score_value_confidence. Qed.

Lemma candidate_location_of c :
  is_Some (confidence c) ->
  try_except (GeocodeClient.candidate_location c) GeocodeClient.on_error
  = Return (location_of c).
Proof.
  intros [q Hq]. destruct c as [| | | | |fields]; try discriminate.
  unfold GeocodeClient.candidate_location, location_of.
  cbn [py_get bind].
  destruct (lookup_key (lit "location") fields) as [[| | | | |location]|];
    try reflexivity; cbn [py_get bind lookup_key].
  destruct (lookup_key (lit "x") location) as [x|],
           (lookup_key (lit "y") location) as [y|];
    try destruct x; try destruct y; reflexivity.
Qed.

(** There is one first candidate of highest score at most. *)
Lemma first_highest_unique candidates pre best post pre' best' post' :
  first_highest candidates pre best post ->
  first_highest candidates pre' best' post' ->
  pre = pre' /\ best = best' /\ post = post'.
Proof.
  intros [E (q & Hq & Hpre & Hpost)] [E' (q' & Hq' & Hpre' & Hpost')].
  rewrite E in E'.
  assert (Hclash : forall k (pre1 post1 : list json) b1 b2 q1 q2,
            confidence b1 = Some q1 -> confidence b2 = Some q2 ->
            Forall (lower true q1) (pre1 ++ b2 :: k) ->
            Forall (lower false q2) (k ++ b1 :: post1) -> False).
  { intros k pre1 post1 b1 b2 q1 q2 H1 H2 Hp Hl.
    apply Forall_app in Hp as [_ Hp]. apply Forall_cons in Hp as [Hp _].
    apply Forall_app in Hl as [_ Hl]. apply Forall_cons in Hl as [Hl _].
    destruct Hp as (x & Hx & Hlt). destruct Hl as (y & Hy & Hle).
    assert (x = q2) as -> by congruence. assert (y = q1) as -> by congruence.
    simpl in *. apply (Qlt_irrefl q1).
    now apply Qle_lt_trans with q2. }
  apply app_eq_inv in E' as [(k & Hk1 & Hk2)|(k & Hk1 & Hk2)].
  - destruct k as [|b k].
    + rewrite app_nil_r in Hk1. simpl in Hk2. injection Hk2 as E1 E2. auto.
    + exfalso. simpl in Hk2. injection Hk2 as E1 E2. subst.
      exact (Hclash k pre' post best b q q' Hq Hq' Hpre Hpost').
  - destruct k as [|b k].
    + rewrite app_nil_r in Hk1. simpl in Hk2. injection Hk2 as E1 E2. auto.
    + exfalso. simpl in Hk2. injection Hk2 as E1 E2. subst.
      exact (Hclash k pre post' best' b q' q Hq' Hq Hpre' Hpost).
Qed.

(** What [geocode_address] returns after an answer with candidates. *)
Lemma geocode_address_best net a s l c cs :
  strip a <> [] ->
  net a = Reply s (Some (JObj l)) ->
  http_error s = false ->
  lookup_key (lit "candidates") l = Some (JArr (c :: cs)) ->
  Forall (fun c => is_Some (confidence c)) (c :: cs) ->
  exists pre best post,
    first_highest (c :: cs) pre best post /\
    GeocodeClient.geocode_address net (Some a) = Return (location_of best).
Proof.
  intros Ha Hnet Hs Hl Hscored.
  assert (Hscored' : Forall (fun c => is_Some (score_value c)) (c :: cs)).
  { eapply Forall_impl; [exact Hscored|]. intros x.
    now rewrite score_value_confidence. }
  destruct (py_max_first_max c cs Hscored')
    as (pre & best & post & q & E & Hmax & Hq & Hpre & Hpost).
  rewrite score_value_confidence in Hq.
  exists pre, best, post. split.
  - split; [exact E|]. exists q. split; [exact Hq|]. split.
    + eapply Forall_impl; [exact Hpre|]. intros x. apply below_lower.
    + eapply Forall_impl; [exact Hpost|]. intros x. apply below_lower.
  - unfold GeocodeClient.geocode_address. rewrite (not_blank a Ha).
    unfold GeocodeClient.geocode_request. rewrite Hnet.
    cbn [requests_get bind]. unfold raise_for_status. cbn [status_code].
    rewrite Hs. cbn [bind response_json body py_contains py_getitem_str].
    rewrite Hl. cbn [negb bind py_truthy length Nat.eqb].
    rewrite Hmax. cbn [bind]. apply candidate_location_of. eauto.
Qed.



(** ** The specification's statement *)

(** C6: when the service answers with a non-empty list of candidates, each
    an object whose score is a number or is absent (then it counts as 0),
    one candidate is the first of those of highest score in the order of
    the response: every candidate before it scores strictly less, every
    candidate after it at most as much; and [geocode_address] returns the
    coordinates of this candidate, whichever the candidates around it. *)
Theorem geocode_selects_first_highest net a s l c cs :
  strip a <> [] ->
  net a = Reply s (Some (JObj l)) ->
  http_error s = false ->
  lookup_key (lit "candidates") l = Some (JArr (c :: cs)) ->
  Forall (fun c => is_Some (confidence c)) (c :: cs) ->
  (exists pre best post, first_highest (c :: cs) pre best post) /\
  forall pre best post,
    first_highest (c :: cs) pre best post ->
    GeocodeClient.geocode_address net (Some a) = Return (location_of best).
Proof.
  intros Ha Hnet Hs Hl Hscored.
  destruct (geocode_address_best net a s l c cs Ha Hnet Hs Hl Hscored)
    as (pre0 & best0 & post0 & Hfirst & Hret).
  split; [eauto|]. intros pre best post H.
  destruct (first_highest_unique _ _ _ _ _ _ _ H Hfirst) as (_ & -> & _).
  exact Hret.
Qed.

(** Two candidates with the score 90, then one without a score. *)
Definition candidate (score : option Q) (x y : Q) : json :=
  JObj ((match score with
         | Some q => [(lit "score", JNum q)]
         | None => []
         end) ++
        [(lit "location", JObj [(lit "x", JNum x); (lit "y", JNum y)])]).

Definition sample_candidates : list json :=
  [candidate (Some 90) 121.5 25.0; candidate (Some 90) 120.0 23.0;
   candidate None 0 0]%Q.

Definition sample_net (_ : pystr) : reply :=
  Reply 200 (Some (JObj [(lit "candidates", JArr sample_candidates)])).

(** A candidate of score 10 before them: the second candidate of the
    response is selected, the first of the two that score 90. *)
Definition ranked_net (_ : pystr) : reply :=
  Reply 200
    (Some (JObj [(lit "candidates",
                  JArr (candidate (Some 10%Q) 119.0%Q 22.0%Q
                          :: sample_candidates))])).

Lemma geocode_selects_first_highest_witness :
  first_highest (candidate (Some 10%Q) 119.0%Q 22.0%Q :: sample_candidates)
    [candidate (Some 10%Q) 119.0%Q 22.0%Q]
    (candidate (Some 90%Q) 121.5%Q 25.0%Q)
    [candidate (Some 90%Q) 120.0%Q 23.0%Q; candidate None 0%Q 0%Q] /\
  GeocodeClient.geocode_address ranked_net (Some (lit "Taipei"))
  = Return (Some (JNum 121.5%Q, JNum 25.0%Q)).
Proof.
  assert (H : first_highest
                (candidate (Some 10%Q) 119.0%Q 22.0%Q :: sample_candidates)
                [candidate (Some 10%Q) 119.0%Q 22.0%Q]
                (candidate (Some 90%Q) 121.5%Q 25.0%Q)
                [candidate (Some 90%Q) 120.0%Q 23.0%Q;
                 candidate None 0%Q 0%Q]).
  { split; [reflexivity|]. exists 90%Q. split; [reflexivity|].
    split; repeat constructor;
      eexists; (split; [reflexivity|]); vm_compute; congruence. }
  split; [exact H|].
  refine (proj2 (geocode_selects_first_highest ranked_net (lit "Taipei") 200
           [(lit "candidates",
             JArr (candidate (Some 10%Q) 119.0%Q 22.0%Q :: sample_candidates))]
           (candidate (Some 10%Q) 119.0%Q 22.0%Q) sample_candidates
           _ _ _ _ _) _ _ _ H).
  - vm_compute. discriminate.
  - reflexivity.
  - reflexivity.
  - reflexivity.
  - repeat constructor; vm_compute; eauto.
Defined.

End ClientProps.

(* ===================================================================== *)
(** * Properties of the enrichment workers *)
(* ===================================================================== *)

Module WorkerProps.
Import PyStr Store.

(** The item and the result of a [process_item] call. *)
Definition geocoded (geocode : option pystr -> option GeocodeWorker.coordinates)
    (it : item) : item :=
  (GeocodeWorker.process_item geocode it 0 0).1.1.2.

Definition geocode_result
    (geocode : option pystr -> option GeocodeWorker.coordinates)
    (it : item) : option GeocodeWorker.coordinates :=
  (GeocodeWorker.process_item geocode it 0 0).1.2.

Definition addressed (reverse : option Q -> option Q -> pystr -> option pystr)
    (api_key : pystr) (it : item) : item :=
  (ReverseWorker.process_item reverse api_key it 0 0).1.1.2.

Definition address_result
    (reverse : option Q -> option Q -> pystr -> option pystr)
    (api_key : pystr) (it : item) : option pystr :=
  (ReverseWorker.process_item reverse api_key it 0 0).1.2.

Section Geocode.

Variable geocode : option pystr -> option GeocodeWorker.coordinates.

Import GeocodeWorker.


(** How far the object [c] of a job is from the loaded item [o], at each
    point of [process_item]. *)
Definition geocode_progress (o c : item) (ph : gphase) : Prop :=
  match ph with
  | GStart => c = o
  | GFetched r =>
      c = o /\ r = geocode (address o) /\
      negb (is_none (latitude o)) && negb (is_none (longitude o)) = false
  | GLongitudeSet lon lat =>
      c = set_longitude lon o /\ geocode (address o) = Some (lon, lat) /\
      negb (is_none (latitude o)) && negb (is_none (longitude o)) = false
  | GReturned r => c = geocoded geocode o /\ r = geocode_result geocode o
  end.

Lemma geocode_progress_start o : geocode_progress o o GStart.
Proof. reflexivity. Qed.

Lemma geocode_progress_step o c ph :
  geocode_progress o c ph ->
  geocode_progress o (gstep geocode c ph).1 (gstep geocode c ph).2.
Proof.
  destruct ph as [|[[lon lat]|]|lon lat|r]; simpl;
    unfold geocoded, geocode_result, process_item.
  - intros ->. destruct (_ && _) eqn:E; simpl;
      unfold geocoded, geocode_result, process_item; rewrite ?E; auto.
  - intros (-> & Hr & E). simpl. auto.
  - intros (-> & Hr & E). rewrite E, <- Hr. simpl. auto.
  - intros (-> & Hr & E). rewrite E, Hr. simpl. auto.
  - auto.
Qed.


End Geocode.

Section Reverse.

Variable reverse : option Q -> option Q -> pystr -> option pystr.
Variable api_key : pystr.

Import ReverseWorker.

Lemma reverse_worker_laws : WorkerLaws (reverse_worker reverse api_key).
Proof.
  split. intros it ph H.
  destruct ph as [|[[|c a]|]|a]; cbn in H |- *; try discriminate; try lia.
  destruct (truthy (address it)); cbn; [lia|].
  destruct (_ || _); cbn; lia.
Qed.

Definition reverse_progress (o c : item) (ph : rphase) : Prop :=
  match ph with
  | RStart => c = o
  | RFetched r =>
      c = o /\ r = reverse (latitude o) (longitude o) api_key /\
      truthy (address o) = false /\
      is_none (latitude o) || is_none (longitude o) = false
  | RReturned r =>
      c = addressed reverse api_key o /\ r = address_result reverse api_key o
  end.

Lemma reverse_progress_start o : reverse_progress o o RStart.
Proof. reflexivity. Qed.

Lemma reverse_progress_step o c ph :
  reverse_progress o c ph ->
  reverse_progress o (rstep reverse api_key c ph).1
    (rstep reverse api_key c ph).2.
Proof.
  destruct ph as [|[a|]|r]; simpl;
    unfold addressed, address_result, process_item.
  - intros ->. destruct (truthy (address o)) eqn:E1; simpl;
      unfold addressed, address_result, process_item; rewrite ?E1; auto.
    destruct (_ || _) eqn:E2; simpl;
      unfold addressed, address_result, process_item; rewrite ?E1, ?E2; auto.
  - intros (-> & Hr & E1 & E2).
    destruct a; simpl; unfold addressed, address_result, process_item;
      rewrite E1, E2, <- Hr; simpl; auto.
  - intros (-> & Hr & E1 & E2). rewrite E1, E2, <- Hr. simpl. auto.
  - auto.
Qed.

End Reverse.

(** ** The specification's statement *)

(** C10: for an item whose latitude and longitude are both set, the geocode
    worker returns [(index, item, None)] with the item unchanged, and calls
    the client for nothing; for an item with a non-empty address, the
    reverse-geocode worker does the same. *)
Theorem workers_skip_complete_items
    geocode reverse api_key (it it' : item) (index total : nat) lat lng :
  latitude it = Some lat ->
  longitude it = Some lng ->
  truthy (address it') = true ->
  GeocodeWorker.process_item geocode it index total = ((index, it, None), [])
  /\
  ReverseWorker.process_item reverse api_key it' index total
  = ((index, it', None), []).
Proof.
  intros Hlat Hlng Haddr. split.
  - unfold GeocodeWorker.process_item. now rewrite Hlat, Hlng.
  - unfold ReverseWorker.process_item. now rewrite Haddr.
Qed.

Definition sample_complete : item :=
  {| name := Py.lit "A"; address := Some (Py.lit "1 Main St");
     latitude := Some 25.0%Q; longitude := Some 121.5%Q; other := [] |}.

Lemma workers_skip_complete_items_witness :
  GeocodeWorker.process_item (fun _ => Some (0, 0)%Q) sample_complete 3 7
  = ((3%nat, sample_complete, None), [])
  /\
  ReverseWorker.process_item (fun _ _ _ => Some (Py.lit "x")) (Py.lit "key")
    sample_complete 3 7
  = ((3%nat, sample_complete, None), []).
Proof.
  apply (workers_skip_complete_items (fun _ => Some (0, 0)%Q)
           (fun _ _ _ => Some (Py.lit "x")) (Py.lit "key")
           sample_complete sample_complete 3 7 25.0%Q 121.5%Q);
    reflexivity.
Defined.

End WorkerProps.
(* ===================================================================== *)
(** * Properties of the orchestrator *)
(* ===================================================================== *)

Module OrchestratorProps.
Import Store Orchestrator.

(** ** The items to process *)

Lemma enumerate_seq i m :
  enumerate i (seq i m) = (fun r => (r, r)) <$> seq i m.
Proof.
  revert i. induction m as [|m IH]; intros i; csimpl; [reflexivity|].
  f_equal. apply IH.
Qed.

Lemma filter_fmap {A B} (f : B -> bool) (g : A -> B) l :
  List.filter f (g <$> l) = g <$> List.filter (fun x => f (g x)) l.
Proof.
  induction l as [|x l IH]; csimpl; [reflexivity|].
  destruct (f (g x)); csimpl; now rewrite IH.
Qed.

Section Todo.

Context {W : Worker}.
Variable h : list record.

Definition refs_to_process : list nat :=
  List.filter (fun r => needs_job h (r, r)) (seq 0 (length h)).

Lemma items_to_process_refs :
  items_to_process h (seq 0 (length h)) = (fun r => (r, r)) <$> refs_to_process.
Proof.
  unfold items_to_process. rewrite enumerate_seq. apply filter_fmap.
Qed.

Lemma refs_to_process_spec r :
  r ∈ refs_to_process <-> exists o, h !! r = Some o /\ selected o = true.
Proof.
  unfold refs_to_process. rewrite list_elem_of_In, filter_In, <- list_elem_of_In.
  unfold needs_job. simpl. split.
  - intros [_ H]. destruct (h !! r) as [o|]; [eauto | discriminate].
  - intros (o & Ho & Hs). rewrite Ho. split; [|exact Hs].
    apply elem_of_seq. apply lookup_lt_Some in Ho. lia.
Qed.

Lemma refs_to_process_NoDup : NoDup refs_to_process.
Proof.
  unfold refs_to_process.
  apply NoDup_ListNoDup, List.NoDup_filter, NoDup_ListNoDup, NoDup_seq.
Qed.

End Todo.

(** ** Projections of the steps *)

Section Steps.

Context {W : Worker}.
Variable cfg : config.

Implicit Types s : state W.
Implicit Types j : job W.

Lemma heap_on_completed k j d s : heap (on_completed cfg k j d s) = heap s.
Proof.
  unfold on_completed, show_progress, checkpoint.
  destruct (checkpoint_due _ _), (batch_size cfg =? 0)%Z; reflexivity.
Qed.

Lemma jobs_on_completed k j d s :
  jobs (on_completed cfg k j d s) = <[k := consume j]> (jobs s).
Proof.
  unfold on_completed, show_progress, checkpoint.
  destruct (checkpoint_due _ _), (batch_size cfg =? 0)%Z; reflexivity.
Qed.

Lemma pending_on_completed k j d s :
  pending (on_completed cfg k j d s) = pending s.
Proof.
  unfold on_completed, show_progress, checkpoint.
  destruct (checkpoint_due _ _), (batch_size cfg =? 0)%Z; reflexivity.
Qed.

Lemma items_on_completed k j d s :
  items (on_completed cfg k j d s) = <[j_index j := j_item j]> (items s).
Proof.
  unfold on_completed, show_progress, checkpoint.
  destruct (checkpoint_due _ _), (batch_size cfg =? 0)%Z; reflexivity.
Qed.

Lemma mode_on_completed k j d s :
  run_mode (on_completed cfg k j d s)
  = if (batch_size cfg =? 0)%Z then Crashed else run_mode s.
Proof.
  unfold on_completed, show_progress, checkpoint.
  destruct (checkpoint_due _ _), (batch_size cfg =? 0)%Z; reflexivity.
Qed.


Lemma processed_on_completed k j d s :
  processed_count (on_completed cfg k j d s) = (processed_count s + 1)%Z.
Proof.
  unfold on_completed, show_progress, checkpoint.
  destruct (checkpoint_due _ _), (batch_size cfg =? 0)%Z; reflexivity.
Qed.

(** A step of the main thread that is no submission and takes no result
    leaves the objects and the jobs as they are. *)
Definition same_jobs s s' : Prop :=
  heap s' = heap s /\ items s' = items s /\ pending s' = pending s /\
  jobs s' = jobs s /\ processed_count s' = processed_count s /\
  success_count s' = success_count s /\
  last_save_count s' = last_save_count s.

(** The steps of a run, by what they change. *)
Inductive step_kind s s' : Prop :=
  | kind_submit ir rest :
      run_mode s = Submitting -> pending s = ir :: rest ->
      s' = submitted ir rest s -> step_kind s s'
  | kind_worker k j it :
      pool_alive (run_mode s) = true -> jobs s !! k = Some j ->
      over j = false -> heap s !! j_item j = Some it ->
      s' = work k j it s -> step_kind s s'
  | kind_completed k j d :
      run_mode s = Running -> jobs s !! k = Some j ->
      j_consumed j = false -> status (j_phase j) = Done d ->
      s' = on_completed cfg k j d s -> step_kind s s'
  | kind_mode :
      (* only the mode and the cause change *)
      same_jobs s s' -> file s' = file s -> saves s' = saves s ->
      run_mode s' = Draining \/ run_mode s' = Crashed ->
      run_mode s <> Crashed ->
      step_kind s s'
  | kind_open :
      (* the handler or the final save opens the file *)
      same_jobs s s' -> file s' = Torn -> saves s' = saves s ->
      run_mode s = Draining /\ run_mode s' = Handling \/
      run_mode s = Running /\ all_consumed (jobs s) = true /\
      run_mode s' = Finishing ->
      step_kind s s'
  | kind_written :
      same_jobs s s' ->
      file s' = dump (heap s) (items s) ->
      saves s' = dump (heap s) (items s) :: saves s ->
      run_mode s = Handling /\ run_mode s' = Interrupted \/
      run_mode s = Finishing /\ run_mode s' = Completed ->
      step_kind s s'.

Lemma step_kinds s s' : step cfg s s' -> step_kind s s'.
Proof.
  intros [s0 ir rest Hm Hp | s0 k j it Hm Hk Ho Hq Hit
         | s0 k j d Hm Hk Hc Hd | s0 k j e Hm Hk Hc Hf | s0 Hm
         | s0 Hm Hall | s0 Hm | s0 Hm | s0 Hm | s0 Hm Hall Hr
         | s0 Hm Hall | s0 Hm | s0 Hm].
  - eapply kind_submit; eauto.
  - eapply kind_worker; eauto.
  - eapply kind_completed; eauto.
  - apply kind_mode; repeat split; auto. congruence.
  - apply kind_mode; repeat split; auto. destruct Hm; congruence.
  - apply kind_open; repeat split; auto.
  - apply kind_open; repeat split; auto.
  - apply kind_written; repeat split; auto.
  - apply kind_mode; repeat split; auto. congruence.
  - apply kind_mode; repeat split; auto. congruence.
  - apply kind_open; repeat split; auto.
  - apply kind_written; repeat split; auto.
  - apply kind_mode; repeat split; auto. congruence.
Qed.

End Steps.

(** ** The invariant of a run *)

Lemma deref_seq_app {A} (h pre : list A) :
  omap (fun r => (pre ++ h) !! r) (seq (length pre) (length h)) = h.
Proof.
  revert pre. induction h as [|x h IH]; intros pre; csimpl.
  - reflexivity.
  - rewrite list_lookup_middle by reflexivity. csimpl. f_equal.
    specialize (IH (pre ++ [x])).
    rewrite <- app_assoc, length_app in IH. simpl in IH.
    now replace (length pre + 1)%nat with (S (length pre)) in IH by lia.
Qed.

Lemma deref_seq {W : Worker} (h : list record) :
  deref h (seq 0 (length h)) = h.
Proof. exact (deref_seq_app h []). Qed.

Section Invariant.

Context {W : Worker}.
Variable cfg : config.
Variable input : snapshot_of record.

(** The relation between the loaded item, the object as it is now and the
    phase of the job that holds it; one per kind of worker. *)
Variable progress : record -> record -> phase -> Prop.
Hypothesis progress_start : forall o, progress o o start.
Hypothesis progress_step : forall o c ph,
  progress o c ph -> progress o (wstep c ph).1 (wstep c ph).2.

Implicit Types s : state W.
Implicit Types j : job W.

(** The objects the run selects, when it has a pool. *)
Definition job_refs : list nat :=
  if (0 <? max_workers cfg)%Z then refs_to_process (data input) else [].

Record inv s : Prop :=
  { inv_items : items s = seq 0 (length (data input));
    inv_heap : length (heap s) = length (data input);
    inv_index : Forall (fun j => j_index j = j_item j) (jobs s);
    inv_pending : Forall (fun ir => ir.1 = ir.2) (pending s);
    inv_item : (j_item <$> jobs s) ++ (snd <$> pending s) = job_refs;
    inv_consumed : forall k j,
      jobs s !! k = Some j -> j_consumed j = true -> returned j = true;
    inv_jobs : forall k j,
      jobs s !! k = Some j ->
      exists o c,
        data input !! j_item j = Some o /\
        heap s !! j_item j = Some c /\
        progress o c (j_phase j);
    inv_frame : forall r,
      r ∉ j_item <$> jobs s -> heap s !! r = data input !! r;
    inv_loop :
      run_mode s = Running \/ run_mode s = Finishing \/
      run_mode s = Completed ->
      pending s = [];
    inv_submitting : run_mode s = Submitting -> pending s <> [];
    inv_done :
      run_mode s = Finishing \/ run_mode s = Completed ->
      all_consumed (jobs s) = true;
    inv_final :
      returned_normally s = true ->
      exists snap, file s = Whole snap /\ data snap = heap s;
    inv_live :
      run_mode s <> Crashed ->
      (0 < max_workers cfg)%Z \/ refs_to_process (data input) = [] }.

Lemma job_refs_NoDup : NoDup job_refs.
Proof.
  unfold job_refs. destruct (0 <? max_workers cfg)%Z;
    [apply refs_to_process_NoDup | constructor].
Qed.

Lemma fmap_insert_same {B} (f : job W -> B) (js : list (job W)) k j j' :
  js !! k = Some j -> f j' = f j -> f <$> <[k := j']> js = f <$> js.
Proof.
  intros Hk Hf. rewrite list_fmap_insert, Hf.
  apply list_insert_id. now rewrite list_lookup_fmap, Hk.
Qed.

Lemma inv_jobs_NoDup s : inv s -> NoDup (j_item <$> jobs s).
Proof.
  intros Hinv. pose proof job_refs_NoDup as H.
  rewrite <- (inv_item _ Hinv) in H. now apply NoDup_app in H as [H _].
Qed.

Lemma inv_distinct s k k' j j' :
  inv s -> jobs s !! k = Some j -> jobs s !! k' = Some j' ->
  k <> k' -> j_item j <> j_item j'.
Proof.
  intros Hinv Hk Hk' Hne E. apply Hne.
  eapply (NoDup_lookup (j_item <$> jobs s)).
  - now apply inv_jobs_NoDup.
  - rewrite list_lookup_fmap, Hk. reflexivity.
  - rewrite list_lookup_fmap, Hk', E. reflexivity.
Qed.

Lemma inv_job_ref s k j :
  inv s -> jobs s !! k = Some j ->
  j_index j = j_item j /\ j_item j ∈ job_refs /\
  (j_item j < length (data input))%nat.
Proof.
  intros Hinv Hk. split; [|split].
  - pose proof (inv_index _ Hinv) as H. rewrite Forall_lookup in H.
    exact (H k j Hk).
  - rewrite <- (inv_item _ Hinv). apply elem_of_app. left.
    apply list_elem_of_fmap. exists j. split; [reflexivity|].
    now apply list_elem_of_lookup_2 with k.
  - destruct (inv_jobs _ Hinv k j Hk) as (o & c & Ho & _).
    now apply lookup_lt_Some in Ho.
Qed.

Lemma inv_todo_ref s ir :
  inv s -> ir ∈ pending s ->
  exists o, data input !! ir.2 = Some o /\ selected o = true.
Proof.
  intros Hinv Hir.
  assert (H : ir.2 ∈ job_refs).
  { rewrite <- (inv_item _ Hinv). apply elem_of_app. right.
    apply list_elem_of_fmap. eauto. }
  unfold job_refs in H.
  destruct (0 <? max_workers cfg)%Z; [|now apply not_elem_of_nil in H].
  now apply refs_to_process_spec in H.
Qed.

Lemma inv_dump s :
  inv s ->
  dump (heap s) (items s)
  = {| total_count := Some (Z.of_nat (length (data input)));
       data := heap s |}.
Proof.
  intros Hinv. unfold dump. rewrite (inv_items _ Hinv), length_seq.
  f_equal. rewrite <- (inv_heap _ Hinv). apply deref_seq.
Qed.

Lemma inv_taken s k j :
  inv s -> jobs s !! k = Some j ->
  <[j_index j := j_item j]> (items s) = items s.
Proof.
  intros Hinv Hk.
  destruct (inv_job_ref s k j Hinv Hk) as (Hidx & _ & Hlt).
  rewrite (inv_items _ Hinv). apply list_insert_id.
  rewrite Hidx. now apply lookup_seq_lt.
Qed.

Lemma inv_begin : inv (begin_run cfg input).
Proof.
  unfold begin_run. rewrite items_to_process_refs.
  split; cbn [heap items jobs pending file run_mode]; try reflexivity.
  - constructor.
  - destruct (0 <? max_workers cfg)%Z; [|constructor].
    apply Forall_fmap, Forall_forall. reflexivity.
  - unfold job_refs. destruct (0 <? max_workers cfg)%Z; [|reflexivity].
    csimpl. rewrite <- list_fmap_compose. apply list_fmap_id.
  - intros k j Hk. now rewrite lookup_nil in Hk.
  - intros k j Hk. now rewrite lookup_nil in Hk.
  - destruct (refs_to_process (data input)) as [|r rs]; csimpl.
    + intros _. now destruct (0 <? max_workers cfg)%Z.
    + destruct (0 <? max_workers cfg)%Z; intros [H|[H|H]]; discriminate.
  - destruct (refs_to_process (data input)) as [|r rs]; csimpl;
      [discriminate|].
    destruct (0 <? max_workers cfg)%Z; discriminate.
  - unfold returned_normally. cbn [run_mode]. intros _. eauto.
  - destruct (refs_to_process (data input)) as [|r rs]; csimpl; auto.
    destruct (0 <? max_workers cfg)%Z eqn:E; [|congruence].
    intros _. left. now apply Z.ltb_lt.
Qed.

Lemma inv_step s s' : step cfg s s' -> inv s -> inv s'.
Proof.
  intros Hstep Hinv. apply step_kinds in Hstep.
  destruct Hstep as
    [ir rest Hmode Hp -> | k j it Hmode Hk Hover Hit ->
    | k j d Hmode Hk Hcons Hdone ->
    | (Hh & Hi & Hp & Hj & _) Hf Hs Hmode Hlive
    | (Hh & Hi & Hp & Hj & _) Hf Hs Hmode
    | (Hh & Hi & Hp & Hj & _) Hf Hs Hmode].
  - (* a submission *)
    assert (Hir : ir ∈ pending s) by (rewrite Hp; apply list_elem_of_here).
    destruct (inv_todo_ref s ir Hinv Hir) as (o & Ho & Hsel).
    assert (Hfresh : ir.2 ∉ j_item <$> jobs s).
    { pose proof job_refs_NoDup as H.
      rewrite <- (inv_item _ Hinv), Hp in H. csimpl in H.
      apply NoDup_app in H as (_ & H & _). intros Hin.
      apply (H _ Hin). apply list_elem_of_here. }
    pose proof (inv_pending _ Hinv) as Hpend. rewrite Hp in Hpend.
    apply Forall_cons in Hpend as [Hsame Hrest].
    split; unfold submitted; cbn [heap items jobs pending file run_mode].
    + exact (inv_items _ Hinv).
    + exact (inv_heap _ Hinv).
    + apply Forall_app. split; [exact (inv_index _ Hinv)|].
      constructor; [exact Hsame | constructor].
    + exact Hrest.
    + rewrite fmap_app, <- app_assoc, <- (inv_item _ Hinv), Hp. reflexivity.
    + intros k j Hk Hc. apply lookup_app_Some in Hk as [Hk|[_ Hk]].
      * exact (inv_consumed _ Hinv _ _ Hk Hc).
      * apply list_lookup_singleton_Some in Hk as [_ <-]. discriminate.
    + intros k j Hk. apply lookup_app_Some in Hk as [Hk|[_ Hk]].
      * exact (inv_jobs _ Hinv _ _ Hk).
      * apply list_lookup_singleton_Some in Hk as [_ <-]. cbn [submit j_item j_phase].
        exists o, o. split; [exact Ho|]. split; [|apply progress_start].
        rewrite (inv_frame _ Hinv _ Hfresh). exact Ho.
    + intros r Hr. apply (inv_frame _ Hinv). intros Hin. apply Hr.
      rewrite fmap_app. apply elem_of_app. now left.
    + destruct rest; [reflexivity | intros [H|[H|H]]; discriminate].
    + destruct rest; [discriminate | intros _; discriminate].
    + destruct rest; intros [H|H]; discriminate.
    + unfold returned_normally. cbn [run_mode]. destruct rest; discriminate.
    + intros _. apply (inv_live _ Hinv). congruence.
  - (* a worker thread *)
    assert (Hrefs : forall {B} (f : job W -> B),
              f (set_phase (wstep it (j_phase j)).2 j) = f j ->
              f <$> jobs (work k j it s) = f <$> jobs s).
    { intros B f Hf. unfold work. cbn [jobs]. now apply fmap_insert_same with j. }
    assert (Hm : run_mode s <> Running -> run_mode s <> Submitting ->
                 run_mode s = Draining \/ run_mode s = Handling).
    { destruct (run_mode s); try discriminate; auto; congruence. }
    split.
    + exact (inv_items _ Hinv).
    + unfold work. cbn [heap]. rewrite length_insert. exact (inv_heap _ Hinv).
    + unfold work. cbn [jobs]. apply Forall_insert; [exact (inv_index _ Hinv)|].
      pose proof (inv_index _ Hinv) as H. rewrite Forall_lookup in H.
      exact (H k j Hk).
    + exact (inv_pending _ Hinv).
    + rewrite Hrefs by reflexivity. exact (inv_item _ Hinv).
    + unfold work. cbn [jobs]. intros k' j' Hk' Hc.
      apply list_lookup_insert_Some in Hk' as [(-> & <- & _)|(Hne & Hk')].
      * exfalso. cbn [set_phase j_consumed] in Hc.
        pose proof (inv_consumed _ Hinv _ _ Hk Hc) as Hr.
        unfold returned in Hr. unfold over in Hover.
        destruct (status (j_phase j)); discriminate.
      * exact (inv_consumed _ Hinv _ _ Hk' Hc).
    + unfold work. cbn [jobs heap]. intros k' j' Hk'.
      apply list_lookup_insert_Some in Hk' as [(-> & <- & _)|(Hne & Hk')].
      * destruct (inv_jobs _ Hinv _ _ Hk) as (o & c & Ho & Hc & Hprog).
        assert (c = it) as -> by congruence.
        exists o, (wstep it (j_phase j)).1. cbn [set_phase j_item j_phase].
        split; [exact Ho|]. split; [|now apply progress_step].
        apply list_lookup_insert_eq. now apply lookup_lt_Some in Hc.
      * destruct (inv_jobs _ Hinv _ _ Hk') as (o & c & Ho & Hc & Hprog).
        exists o, c. split; [exact Ho|]. split; [|exact Hprog].
        rewrite list_lookup_insert_ne; [exact Hc|].
        now apply (inv_distinct s k k' j j').
    + rewrite Hrefs by reflexivity. unfold work. cbn [heap]. intros r Hr.
      rewrite list_lookup_insert_ne; [now apply (inv_frame _ Hinv)|].
      intros <-. apply Hr. apply list_elem_of_fmap. exists j.
      split; [reflexivity|]. now apply list_elem_of_lookup_2 with k.
    + exact (inv_loop _ Hinv).
    + exact (inv_submitting _ Hinv).
    + unfold work. cbn [run_mode jobs]. intros H. exfalso.
      destruct H as [H|H]; rewrite H in Hmode; discriminate.
    + unfold returned_normally, work. cbn [run_mode].
      destruct (run_mode s); discriminate.
    + exact (inv_live _ Hinv).
  - (* the loop takes a result *)
    destruct (inv_job_ref s k j Hinv Hk) as (Hidx & _ & Hlt).
    split.
    + rewrite items_on_completed. rewrite (inv_taken s k j Hinv Hk).
      exact (inv_items _ Hinv).
    + rewrite heap_on_completed. exact (inv_heap _ Hinv).
    + rewrite jobs_on_completed. apply Forall_insert; [exact (inv_index _ Hinv)|].
      exact Hidx.
    + rewrite pending_on_completed. exact (inv_pending _ Hinv).
    + rewrite jobs_on_completed, pending_on_completed,
        (fmap_insert_same _ _ k j) by easy.
      exact (inv_item _ Hinv).
    + rewrite jobs_on_completed. intros k' j' Hk' Hc.
      apply list_lookup_insert_Some in Hk' as [(-> & <- & _)|(Hne & Hk')].
      * unfold returned. cbn [consume j_phase]. now rewrite Hdone.
      * exact (inv_consumed _ Hinv _ _ Hk' Hc).
    + rewrite jobs_on_completed, heap_on_completed. intros k' j' Hk'.
      apply list_lookup_insert_Some in Hk' as [(-> & <- & _)|(Hne & Hk')].
      * exact (inv_jobs _ Hinv _ _ Hk).
      * exact (inv_jobs _ Hinv _ _ Hk').
    + rewrite jobs_on_completed, heap_on_completed,
        (fmap_insert_same _ _ k j) by easy.
      exact (inv_frame _ Hinv).
    + rewrite pending_on_completed. intros _. apply (inv_loop _ Hinv). auto.
    + rewrite mode_on_completed, Hmode.
      destruct (batch_size cfg =? 0)%Z; discriminate.
    + rewrite mode_on_completed, Hmode.
      destruct (batch_size cfg =? 0)%Z; intros [H|H]; discriminate.
    + unfold returned_normally. rewrite mode_on_completed, Hmode.
      destruct (batch_size cfg =? 0)%Z; discriminate.
    + intros _. apply (inv_live _ Hinv). congruence.
  - (* an interruption, or the end of the run by an exception *)
    split; rewrite ?Hh, ?Hi, ?Hp, ?Hj; try apply Hinv.
    + intros [H|[H|H]]; destruct Hmode; congruence.
    + destruct Hmode; congruence.
    + intros [H|H]; destruct Hmode; congruence.
    + unfold returned_normally. destruct Hmode as [-> | ->]; discriminate.
    + intros _. now apply (inv_live _ Hinv).
  - (* the file is opened *)
    split; rewrite ?Hh, ?Hi, ?Hp, ?Hj; try apply Hinv.
    + intros Hm. destruct Hmode as [[H1 H2]|(H1 & _ & H2)].
      * exfalso. destruct Hm as [Hm|[Hm|Hm]]; congruence.
      * apply (inv_loop _ Hinv). auto.
    + destruct Hmode as [[_ H]|(_ & _ & H)]; congruence.
    + intros Hm. destruct Hmode as [[H1 H2]|(H1 & Hall & H2)]; [|exact Hall].
      exfalso. destruct Hm as [Hm|Hm]; congruence.
    + unfold returned_normally.
      destruct Hmode as [[_ ->]|(_ & _ & ->)]; discriminate.
    + intros _. apply (inv_live _ Hinv).
      destruct Hmode as [[H _]|(H & _)]; congruence.
  - (* the dump comes to its end *)
    split; rewrite ?Hh, ?Hi, ?Hp, ?Hj; try apply Hinv.
    + intros Hm. destruct Hmode as [[H1 H2]|[H1 H2]].
      * exfalso. destruct Hm as [Hm|[Hm|Hm]]; congruence.
      * apply (inv_loop _ Hinv). auto.
    + destruct Hmode as [[_ H]|[_ H]]; congruence.
    + intros Hm. destruct Hmode as [[H1 H2]|[H1 H2]].
      * exfalso. destruct Hm as [Hm|Hm]; congruence.
      * apply (inv_done _ Hinv). auto.
    + intros _. rewrite Hf, (inv_dump s Hinv). eexists. split; reflexivity.
    + intros _. apply (inv_live _ Hinv).
      destruct Hmode as [[H _]|[H _]]; congruence.
Qed.

Lemma inv_reachable s : reachable cfg input s -> inv s.
Proof.
  intros H. unfold reachable in H.
  eapply (rtc_ind_r (fun s => inv s)); [apply inv_begin | | exact H].
  intros y z _ Hstep IH. now apply inv_step with y.
Qed.

(** The submission, when it is not interrupted and no thread moves before
    its end, leads to the entry of the loop. *)
Lemma submit_all (todo : list (nat * nat)) : forall s,
  run_mode s = Submitting -> pending s = todo -> todo <> [] ->
  rtc (step cfg) s
    {| heap := heap s; items := items s; pending := [];
       jobs := jobs s ++ (submit <$> todo);
       processed_count := processed_count s;
       success_count := success_count s;
       last_save_count := last_save_count s;
       file := file s; saves := saves s; run_mode := Running;
       failure := failure s |}.
Proof.
  induction todo as [|ir todo IH]; intros s Hmode Hp Hne; [congruence|].
  eapply rtc_l; [now apply (step_submit cfg s ir todo)|].
  destruct todo as [|ir' todo].
  - csimpl. apply rtc_refl.
  - specialize (IH (submitted ir (ir' :: todo) s) eq_refl eq_refl).
    cbn [submitted heap items jobs pending processed_count success_count
         last_save_count file saves failure] in IH.
    rewrite <- app_assoc in IH. apply IH. discriminate.
Qed.

Lemma start_run_reachable : reachable cfg input (start_run cfg input).
Proof.
  unfold reachable.
  destruct (items_to_process (data input) (seq 0 (length (data input))))
    as [|ir todo] eqn:E.
  - replace (start_run cfg input) with (begin_run cfg input);
      [apply rtc_refl|].
    unfold start_run, begin_run. rewrite E.
    now destruct (0 <? max_workers cfg)%Z.
  - destruct (0 <? max_workers cfg)%Z eqn:Hpool.
    + unfold start_run, begin_run. rewrite E, Hpool.
      match goal with |- rtc _ ?b _ =>
        apply (submit_all (ir :: todo) b); [reflexivity..|discriminate]
      end.
    + replace (start_run cfg input) with (begin_run cfg input);
        [apply rtc_refl|].
      unfold start_run, begin_run. now rewrite E, Hpool.
Qed.

End Invariant.

End OrchestratorProps.
(* ===================================================================== *)
(** * Runs of the orchestrator: termination, results, counters *)
(* ===================================================================== *)

Module RunProps.
Import Store Orchestrator OrchestratorProps.

(** ** Every run ends *)

Section Termination.

Context {W : Worker} {L : WorkerLaws W}.
Variable cfg : config.

Implicit Types s : state W.
Implicit Types j : job W.

Definition job_weight j : nat :=
  remaining (j_phase j) + (if j_consumed j then 0 else 1).

(** A job that is not submitted yet weighs more than one that is. *)
Definition todo_weight (ir : nat * nat) : nat := remaining start + 2.

Definition mode_weight (m : mode) : nat :=
  match m with
  | Submitting | Running => 3
  | Draining => 2
  | Handling | Finishing => 1
  | Completed | Interrupted | Crashed => 0
  end.

(** What is left to do: the submissions, the steps of the workers, the
    results to take, and the way out of the loop. *)
Definition measure s : nat :=
  mode_weight (run_mode s) + sum_list_with job_weight (jobs s)
  + sum_list_with todo_weight (pending s).

Lemma sum_insert (js : list (job W)) k j j' :
  js !! k = Some j ->
  (sum_list_with job_weight (<[k := j']> js) + job_weight j
   = sum_list_with job_weight js + job_weight j')%nat.
Proof.
  revert k. induction js as [|x js IH]; intros [|k] Hk; simpl in *;
    try discriminate.
  - injection Hk as ->. lia.
  - specialize (IH k Hk). lia.
Qed.

Lemma step_measure s s' : step cfg s s' -> (measure s' < measure s)%nat.
Proof.
  intros [s0 ir rest Hm Hp | s0 k j it Hm Hk Ho Hq Hit
         | s0 k j d Hm Hk Hc Hd | s0 k j e Hm Hk Hc Hf | s0 Hm
         | s0 Hm Hall | s0 Hm | s0 Hm | s0 Hm | s0 Hm Hall Hr
         | s0 Hm Hall | s0 Hm | s0 Hm]; unfold measure.
  - unfold submitted. cbn [jobs run_mode pending]. rewrite Hm, Hp.
    rewrite sum_list_with_app. cbn [sum_list_with].
    unfold job_weight at 2, todo_weight at 2. cbn [submit j_phase j_consumed].
    destruct rest; simpl; lia.
  - unfold work. cbn [jobs run_mode pending].
    pose proof (sum_insert (jobs s0) k j
                  (set_phase (wstep it (j_phase j)).2 j) Hk) as Hsum.
    pose proof (wstep_remaining it (j_phase j) Ho) as Hrem.
    change (job_weight (set_phase (wstep it (j_phase j)).2 j))
      with (remaining (wstep it (j_phase j)).2
            + (if j_consumed j then 0 else 1))%nat in Hsum.
    change (job_weight j)
      with (remaining (j_phase j) + (if j_consumed j then 0 else 1))%nat
      in Hsum.
    lia.
  - rewrite jobs_on_completed, mode_on_completed, pending_on_completed, Hm.
    pose proof (sum_insert (jobs s0) k j (consume j) Hk) as Hsum.
    change (job_weight (consume j)) with (remaining (j_phase j) + 0)%nat
      in Hsum.
    change (job_weight j)
      with (remaining (j_phase j) + (if j_consumed j then 0 else 1))%nat
      in Hsum.
    rewrite Hc in Hsum.
    destruct (batch_size cfg =? 0)%Z; simpl; lia.
  - cbn [abort jobs run_mode pending]. rewrite Hm. simpl. lia.
  - cbn [set_mode jobs run_mode pending]. destruct Hm as [-> | ->]; simpl; lia.
  - cbn [truncate set_mode jobs run_mode pending]. rewrite Hm. simpl. lia.
  - cbn [truncate set_mode jobs run_mode pending]. rewrite Hm. simpl. lia.
  - cbn [set_mode save jobs run_mode pending]. rewrite Hm. simpl. lia.
  - cbn [abort jobs run_mode pending]. rewrite Hm. simpl. lia.
  - cbn [abort jobs run_mode pending]. rewrite Hm. simpl. lia.
  - cbn [truncate set_mode jobs run_mode pending]. rewrite Hm. simpl. lia.
  - cbn [set_mode save jobs run_mode pending]. rewrite Hm. simpl. lia.
  - cbn [abort jobs run_mode pending]. rewrite Hm. simpl. lia.
Qed.

(** No run goes on for ever. *)
Lemma run_terminates s : sn (step cfg) s.
Proof.
  apply (wf_projected lt measure); [|apply lt_wf].
  intros x y Hxy. now apply step_measure.
Qed.

End Termination.

Section Ended.

Context {W : Worker}.
Variable cfg : config.

Implicit Types s : state W.

Lemma ended_final s s' : step cfg s s' -> ended s = false.
Proof.
  unfold ended.
  intros [s0 ir rest Hm Hp | s0 k j it Hm Hk Ho Hq Hit
         | s0 k j d Hm Hk Hc Hd | s0 k j e Hm Hk Hc Hf | s0 Hm
         | s0 Hm Hall | s0 Hm | s0 Hm | s0 Hm | s0 Hm Hall Hr
         | s0 Hm Hall | s0 Hm | s0 Hm];
    try (now rewrite Hm).
  - destruct (run_mode s0); try reflexivity; discriminate.
  - destruct Hm as [-> | ->]; reflexivity.
Qed.

(** Once a run has ended, nothing moves. *)
Lemma ended_stays s s' : ended s = true -> rtc (step cfg) s s' -> s' = s.
Proof.
  intros He H. destruct H as [|x y z Hstep _]; [reflexivity|].
  apply ended_final in Hstep. congruence.
Qed.

End Ended.

(** ** Schedules are runs *)

Section Schedules.

Context {W : Worker}.
Variable cfg : config.

Implicit Types s : state W.

Lemma perform_step a s s' : perform cfg a s = Some s' -> step cfg s s'.
Proof.
  destruct a as [|k|k| | | | | | |]; unfold perform.
  - destruct (run_mode s) eqn:Hmode; try discriminate.
    destruct (pending s) as [|ir rest] eqn:Hp; [discriminate|].
    intros [= <-]. now apply step_submit.
  - destruct (pool_alive (run_mode s)) eqn:Hmode; [|discriminate].
    destruct (jobs s !! k) as [j|] eqn:Hk; [|discriminate].
    destruct (status (j_phase j)) eqn:Hst; try discriminate;
      (destruct (heap s !! j_item j) as [it|] eqn:Hit; [|discriminate]);
      try (destruct (Z.ltb_spec (Z.of_nat (in_flight (jobs s)))
                       (max_workers cfg)); [|discriminate]);
      intros [= <-]; apply step_worker; auto;
      unfold over; rewrite Hst; try reflexivity; discriminate.
  - destruct (run_mode s) eqn:Hmode; try discriminate.
    destruct (jobs s !! k) as [j|] eqn:Hk; [|discriminate].
    destruct (status (j_phase j)) eqn:Hst; try discriminate;
      (destruct (j_consumed j) eqn:Hc; [discriminate|]);
      intros [= <-].
    + now apply step_completed.
    + now apply step_raised with k j.
  - destruct (run_mode s) eqn:Hmode; try discriminate;
      intros [= <-]; apply step_interrupt; auto.
  - destruct (run_mode s) eqn:Hmode; try discriminate.
    destruct (all_over (jobs s)) eqn:Hall; [|discriminate].
    intros [= <-]. now apply step_joined.
  - destruct (run_mode s) eqn:Hmode; try discriminate.
    intros [= <-]. now apply step_interrupt_again.
  - destruct (run_mode s) eqn:Hmode; try discriminate.
    destruct (all_consumed (jobs s)) eqn:Hall; [|discriminate].
    intros [= <-]. now apply step_finish.
  - destruct (run_mode s) eqn:Hmode; try discriminate; intros [= <-].
    + now apply step_handler_saved.
    + now apply step_final_saved.
  - destruct (run_mode s) eqn:Hmode; try discriminate; intros [= <-].
    + now apply step_handler_torn.
    + now apply step_final_torn.
  - destruct (run_mode s) eqn:Hmode; try discriminate.
    destruct (all_consumed (jobs s)) eqn:Hall; [|discriminate].
    destruct rate_unguarded eqn:Hr; [|discriminate].
    intros [= <-]. now apply step_clock.
Qed.

Lemma schedule_steps acts s s' :
  schedule cfg acts s = Some s' -> rtc (step cfg) s s'.
Proof.
  revert s. induction acts as [|a acts IH]; intros s; simpl.
  - intros [= <-]. apply rtc_refl.
  - destruct (perform cfg a s) as [s1|] eqn:Ha; [|discriminate].
    intros H. apply rtc_l with s1; [now apply (perform_step a) | now apply IH].
Qed.

Lemma schedule_reachable input acts s :
  schedule cfg acts (start_run cfg input) = Some s -> reachable cfg input s.
Proof.
  intros H. unfold reachable.
  etransitivity; [apply start_run_reachable | now apply schedule_steps with acts].
Qed.

Lemma run_of_reachable input acts : reachable cfg input (run_of cfg input acts).
Proof.
  unfold run_of.
  destruct (schedule cfg acts (start_run cfg input)) as [s|] eqn:E; simpl.
  - now apply schedule_reachable with acts.
  - apply start_run_reachable.
Qed.

Lemma run_from_reachable input acts :
  reachable cfg input (run_from cfg input acts).
Proof.
  unfold run_from.
  destruct (schedule cfg acts (begin_run cfg input)) as [s|] eqn:E; simpl.
  - now apply schedule_steps with acts.
  - apply rtc_refl.
Qed.

End Schedules.

(** ** Every run can go on until it returns *)

Section Progress.

Context {W : Worker}.
Variable cfg : config.
Variable input : snapshot_of record.
Variable progress : record -> record -> phase -> Prop.

Implicit Types s : state W.
Implicit Types j : job W.

Lemma no_active_in_flight (js : list (job W)) :
  existsb active js = false -> in_flight js = 0%nat.
Proof.
  unfold in_flight. induction js as [|j js IH]; simpl; [reflexivity|].
  destruct (active j); simpl; [discriminate | exact IH].
Qed.

(** While a job is not over, some thread of the pool can take a step. *)
Lemma worker_can_step s :
  inv cfg input progress s ->
  pool_alive (run_mode s) = true ->
  all_over (jobs s) = false ->
  exists k j it, step cfg s (work k j it s).
Proof.
  intros Hinv Hmode Hall.
  assert (Hstep : forall k j,
            jobs s !! k = Some j ->
            over j = false ->
            (status (j_phase j) = Queued -> existsb active (jobs s) = false) ->
            exists k j it, step cfg s (work k j it s)).
  { intros k j Hk Hrun Hq.
    destruct (inv_jobs _ _ _ _ Hinv k j Hk) as (o & c & _ & Hc & _).
    exists k, j, c. apply step_worker; auto.
    intros Hqueued. rewrite (no_active_in_flight _ (Hq Hqueued)).
    destruct (inv_live _ _ _ _ Hinv) as [Hpos|Hnone].
    - destruct (run_mode s); discriminate.
    - simpl. lia.
    - exfalso. apply (inv_job_ref cfg input progress s k j Hinv) in Hk
        as (_ & Hin & _).
      unfold job_refs in Hin. rewrite Hnone in Hin.
      destruct (0 <? max_workers cfg)%Z; now apply not_elem_of_nil in Hin. }
  destruct (existsb active (jobs s)) eqn:Hact.
  - apply existsb_exists in Hact as (j & Hj & Ha).
    apply list_elem_of_In, list_elem_of_lookup in Hj as [k Hk].
    apply (Hstep k j Hk).
    + unfold active in Ha. unfold over.
      destruct (status (j_phase j)); try discriminate. reflexivity.
    + intros Hq. unfold active in Ha. now rewrite Hq in Ha.
  - assert (Hex : existsb (fun j => negb (over j)) (jobs s) = true).
    { clear -Hall. unfold all_over in Hall.
      induction (jobs s) as [|j js IH]; simpl in *; [discriminate|].
      destruct (over j); simpl in *; auto. }
    apply existsb_exists in Hex as (j & Hj & Hr).
    apply list_elem_of_In, list_elem_of_lookup in Hj as [k Hk].
    apply (Hstep k j Hk); [|auto].
    now destruct (over j).
Qed.

End Progress.

Section Completion.

Context {W : Worker} {L : WorkerLaws W}.
Variable cfg : config.
Variable input : snapshot_of record.
Variable progress : record -> record -> phase -> Prop.
Hypothesis progress_start : forall o, progress o o start.
Hypothesis progress_step : forall o c ph,
  progress o c ph -> progress o (wstep c ph).1 (wstep c ph).2.

(** The worker raises nothing. *)
Hypothesis never_fails : forall ph e, status ph <> Failed e.

Implicit Types s : state W.
Implicit Types j : job W.

(** Without an interruption, and with a [batch_size] that is not 0, the loop
    takes every result and the run returns after the final save. *)
Lemma run_can_complete s :
  (batch_size cfg <> 0)%Z ->
  inv cfg input progress s ->
  run_mode s = Running ->
  exists s', rtc (step cfg) s s' /\ run_mode s' = Completed.
Proof.
  intros Hbatch. revert s.
  assert (H : forall m s, (measure s < m)%nat ->
            inv cfg input progress s -> run_mode s = Running ->
            exists s', rtc (step cfg) s s' /\ run_mode s' = Completed).
  { induction m as [|m IH]; intros s Hm Hinv Hmode; [lia|].
    assert (Hnext : forall s1, step cfg s s1 -> run_mode s1 = Running ->
              exists s', rtc (step cfg) s s' /\ run_mode s' = Completed).
    { intros s1 Hstep Hmode1.
      destruct (IH s1) as (s' & Hrtc & Hdone); auto.
      - pose proof (step_measure cfg s s1 Hstep). lia.
      - now apply (inv_step cfg input progress progress_start progress_step
                     s s1).
      - exists s'. split; [|exact Hdone]. now apply rtc_l with s1. }
    destruct (all_over (jobs s)) eqn:Hall.
    - destruct (all_consumed (jobs s)) eqn:Hcons.
      + exists (set_mode Completed (save (truncate (set_mode Finishing s)))).
        split; [|reflexivity].
        eapply rtc_l; [now apply step_finish|].
        apply rtc_once. now apply step_final_saved.
      + assert (Hex : existsb (fun j => negb (j_consumed j)) (jobs s) = true).
        { clear -Hcons. unfold all_consumed in Hcons.
          induction (jobs s) as [|j js IHjs]; simpl in *; [discriminate|].
          destruct (j_consumed j); simpl in *; auto. }
        apply existsb_exists in Hex as (j & Hj & Hc).
        pose proof Hj as Hj'.
        apply list_elem_of_In, list_elem_of_lookup in Hj as [k Hk].
        unfold all_over in Hall.
        eapply forallb_forall in Hall; [|exact Hj'].
        unfold over in Hall.
        destruct (status (j_phase j)) as [| |d|e] eqn:Hst; try discriminate;
          [|now destruct (never_fails (j_phase j) e)].
        apply (Hnext (on_completed cfg k j d s)).
        * apply step_completed; auto. now destruct (j_consumed j).
        * rewrite mode_on_completed, Hmode.
          destruct (Z.eqb_spec (batch_size cfg) 0); [contradiction | reflexivity].
    - destruct (worker_can_step cfg input progress s Hinv) as (k & j & it & Hstep);
        [now rewrite Hmode | exact Hall |].
      apply (Hnext _ Hstep). exact Hmode. }
  intros s Hinv Hmode. apply (H (S (measure s)) s); auto.
Qed.

(** From the beginning, some run returns after the final save. *)
Lemma run_completes :
  (0 < max_workers cfg)%Z -> (batch_size cfg <> 0)%Z ->
  exists s, reachable cfg input s /\ run_mode s = Completed.
Proof.
  intros Hpool Hbatch.
  pose proof (start_run_reachable cfg input) as Hstart.
  assert (Hinv : inv cfg input progress (start_run cfg input))
    by (apply inv_reachable; auto).
  destruct (run_mode (start_run cfg input)) eqn:Hmode;
    try (exfalso; revert Hmode; unfold start_run; cbn [run_mode];
         destruct (items_to_process _ _); [discriminate|];
         destruct (Z.ltb_spec 0 (max_workers cfg)); [discriminate | lia]).
  - destruct (run_can_complete (start_run cfg input) Hbatch Hinv Hmode)
      as (s & Hs & Hc).
    exists s. split; [|exact Hc]. unfold reachable in *.
    etransitivity; [exact Hstart | exact Hs].
  - exists (start_run cfg input). split; [exact Hstart | exact Hmode].
Qed.

End Completion.

(** ** What the file holds *)

Section Result.

Context {W : Worker}.
Variable cfg : config.
Variable input : snapshot_of record.
Variable progress : record -> record -> phase -> Prop.

Implicit Types s : state W.

(** Every selected item was given a job, and every job is over: the
    submission was not interrupted, and the pool was joined or the loop
    came to its end. *)
Definition all_done s : Prop :=
  pending s = [] /\ all_over (jobs s) = true.

Lemma completed_all_done s :
  inv cfg input progress s -> run_mode s = Completed -> all_done s.
Proof.
  intros Hinv Hmode. split; [apply (inv_loop _ _ _ _ Hinv); auto|].
  assert (Hall : all_consumed (jobs s) = true)
    by (apply (inv_done _ _ _ _ Hinv); auto).
  unfold all_over. apply forallb_forall. intros j Hj.
  apply list_elem_of_In, list_elem_of_lookup in Hj as [k Hk].
  unfold all_consumed in Hall.
  eapply forallb_forall in Hall;
    [|apply list_elem_of_In, list_elem_of_lookup; eauto].
  pose proof (inv_consumed _ _ _ _ Hinv k j Hk Hall) as Hr.
  unfold returned in Hr. unfold over.
  destruct (status (j_phase j)); try discriminate. reflexivity.
Qed.

(** Every object of the heap is a loaded item as it was, when no job holds
    it, or as the job that holds it has made it so far. *)
Lemma heap_items s r o :
  inv cfg input progress s ->
  data input !! r = Some o ->
  exists c,
    heap s !! r = Some c /\
    ((c = o /\ r ∉ j_item <$> jobs s) \/
     exists k j,
       jobs s !! k = Some j /\ j_item j = r /\ selected o = true /\
       progress o c (j_phase j)).
Proof.
  intros Hinv Ho.
  destruct (decide (r ∈ j_item <$> jobs s)) as [Hin|Hout].
  - apply list_elem_of_fmap in Hin as (j & -> & Hj).
    apply list_elem_of_lookup in Hj as [k Hk].
    destruct (inv_jobs _ _ _ _ Hinv k j Hk) as (o' & c & Ho' & Hc & Hp).
    assert (o' = o) as -> by congruence.
    exists c. split; [exact Hc|]. right. exists k, j. repeat split; auto.
    destruct (inv_job_ref cfg input progress s k j Hinv Hk) as (_ & Hin & _).
    unfold job_refs in Hin.
    destruct (0 <? max_workers cfg)%Z; [|now apply not_elem_of_nil in Hin].
    apply refs_to_process_spec in Hin as (o2 & Ho2 & Hsel). congruence.
  - exists o. rewrite (inv_frame _ _ _ _ Hinv r Hout). auto.
Qed.

(** When every selected item was given a job, an item without a job was
    not selected. *)
Lemma unselected s r o :
  inv cfg input progress s ->
  run_mode s <> Crashed ->
  pending s = [] ->
  data input !! r = Some o ->
  r ∉ j_item <$> jobs s ->
  selected o = false.
Proof.
  intros Hinv Hlive Hp Ho Hout.
  destruct (selected o) eqn:Hsel; [|reflexivity]. exfalso.
  assert (Hr : r ∈ refs_to_process (data input))
    by (apply refs_to_process_spec; eauto).
  pose proof (inv_item _ _ _ _ Hinv) as Hitem.
  rewrite Hp, app_nil_r in Hitem. rewrite Hitem in Hout.
  destruct (inv_live _ _ _ _ Hinv Hlive) as [Hpos|Hnone].
  - apply Hout. unfold job_refs.
    now destruct (Z.ltb_spec 0 (max_workers cfg)); [|lia].
  - rewrite Hnone in Hr. now apply not_elem_of_nil in Hr.
Qed.

(** The file of a run that returned holds the objects as they are. *)
Lemma returned_file s :
  inv cfg input progress s ->
  returned_normally s = true ->
  exists snap,
    file s = Whole snap /\ data snap = heap s /\
    length (data snap) = length (data input).
Proof.
  intros Hinv Hret.
  destruct (inv_final _ _ _ _ Hinv Hret) as (snap & Hf & Hd).
  exists snap. repeat split; auto. rewrite Hd. exact (inv_heap _ _ _ _ Hinv).
Qed.

(** The objects of a run in which every selected item was given a job and
    every job is over. *)
Lemma done_items s r o :
  inv cfg input progress s ->
  run_mode s <> Crashed ->
  all_done s ->
  data input !! r = Some o ->
  exists c,
    heap s !! r = Some c /\
    ((selected o = false /\ c = o) \/
     (selected o = true /\
      exists ph, progress o c ph /\ settled (status ph) = true)).
Proof.
  intros Hinv Hlive [Hp Hall] Ho.
  destruct (heap_items s r o Hinv Ho)
    as (c & Hc & [[-> Hout]|(k & j & Hk & Hj & Hsel & Hprog)]).
  - exists o. split; [exact Hc|]. left. split; [|reflexivity].
    now apply (unselected s r o).
  - exists c. split; [exact Hc|]. right. split; [exact Hsel|].
    exists (j_phase j). split; [exact Hprog|].
    unfold all_over in Hall. eapply forallb_forall in Hall;
      [exact Hall | apply list_elem_of_In, list_elem_of_lookup; eauto].
Qed.

End Result.

(** ** The geocoding run *)

Section GeocodeRun.

Variable geocode : option PyStr.pystr -> option GeocodeWorker.coordinates.
Variable cfg : config.
Variable input : snapshot.

#[local] Abbreviation worker := (GeocodeWorker.geocode_worker geocode).
#[local] Abbreviation run_inv :=
  (inv (W := worker) cfg input (WorkerProps.geocode_progress geocode)).



End GeocodeRun.

(** ** The reverse-geocoding run *)

Section ReverseRun.

Variable reverse : option Q -> option Q -> PyStr.pystr -> option PyStr.pystr.
Variable api_key : PyStr.pystr.
Variable cfg : config.
Variable input : snapshot.

#[local] Abbreviation rworker := (ReverseWorker.reverse_worker reverse api_key).

Lemma reverse_inv s :
  reachable (W := rworker) cfg input s ->
  inv (W := rworker) cfg input (WorkerProps.reverse_progress reverse api_key) s.
Proof.
  apply inv_reachable.
  - apply WorkerProps.reverse_progress_start.
  - apply WorkerProps.reverse_progress_step.
Qed.

Lemma reverse_run_heap s :
  reachable (W := rworker) cfg input s ->
  run_mode s <> Crashed ->
  all_done s ->
  heap s = WorkerProps.addressed reverse api_key <$> data input.
Proof.
  intros Hreach Hlive Hdone.
  pose proof (reverse_inv s Hreach) as Hinv.
  apply list_eq. intros r. rewrite list_lookup_fmap.
  destruct (data input !! r) as [o|] eqn:Ho; csimpl.
  - destruct (done_items (W := rworker) cfg input _ s r o Hinv Hlive Hdone Ho)
      as (c & Hc & [[Hsel ->]|(Hsel & ph & Hp & Hst)]);
      (etransitivity; [exact Hc|]).
    + f_equal. simpl in Hsel.
      unfold WorkerProps.addressed, ReverseWorker.process_item.
      unfold ReverseWorker.missing_address in Hsel.
      destruct (PyStr.truthy (address o)); [reflexivity|].
      destruct (is_none (latitude o)), (is_none (longitude o));
        try reflexivity; discriminate.
    + f_equal. destruct ph; simpl in Hst; try discriminate.
      now destruct Hp.
  - pose proof (inv_heap _ _ _ _ Hinv) as Hlen.
    apply lookup_ge_None in Ho. apply lookup_ge_None.
    cbn [record ReverseWorker.reverse_worker] in Hlen |- *. lia.
Qed.

End ReverseRun.

(** ** The counter of the periodic save *)

Section Counter.

Context {W : Worker}.
Variable cfg : config.
Variable input : snapshot_of record.

Implicit Types s : state W.


Lemma file_on_completed k j d s :
  file (on_completed cfg k j d s)
  = if (save_interval cfg <=? unsaved s + 1)%Z
    then Whole (dump (heap s) (<[j_index j := j_item j]> (items s)))
    else file s.
Proof.
  replace (unsaved s + 1)%Z
    with (processed_count s + 1 - last_save_count s)%Z by (unfold unsaved; lia).
  unfold on_completed, show_progress, checkpoint, checkpoint_due, unsaved.
  cbn [count_result processed_count last_save_count].
  destruct (save_interval cfg <=? _)%Z, (batch_size cfg =? 0)%Z; reflexivity.
Qed.

Lemma saves_on_completed k j d s :
  saves (on_completed cfg k j d s)
  = if (save_interval cfg <=? unsaved s + 1)%Z
    then dump (heap s) (<[j_index j := j_item j]> (items s)) :: saves s
    else saves s.
Proof.
  replace (unsaved s + 1)%Z
    with (processed_count s + 1 - last_save_count s)%Z by (unfold unsaved; lia).
  unfold on_completed, show_progress, checkpoint, checkpoint_due, unsaved.
  cbn [count_result processed_count last_save_count].
  destruct (save_interval cfg <=? _)%Z, (batch_size cfg =? 0)%Z; reflexivity.
Qed.




End Counter.

(** ** What a run writes *)

Section Written.

Context {W : Worker}.
Variable cfg : config.
Variable input : snapshot_of record.
Variable progress : record -> record -> phase -> Prop.
Hypothesis progress_start : forall o, progress o o start.
Hypothesis progress_step : forall o c ph,
  progress o c ph -> progress o (wstep c ph).1 (wstep c ph).2.

Implicit Types s : state W.

(** A step leaves the file alone, opens it, or writes all the items as
    they are. *)
Lemma step_file s s' :
  inv cfg input progress s -> step cfg s s' ->
  (file s' = file s /\ saves s' = saves s) \/
  (file s' = Torn /\ saves s' = saves s /\
   (run_mode s' = Handling \/ run_mode s' = Finishing)) \/
  (file s' = Whole (dump (heap s) (items s)) /\
   saves s' = dump (heap s) (items s) :: saves s).
Proof.
  intros Hinv Hstep. apply step_kinds in Hstep.
  destruct Hstep as
    [ir rest _ _ -> | k j it _ _ _ _ -> | k j d _ Hk _ _ ->
    | _ Hf Hs _ _ | _ Hf Hs Hmode | _ Hf Hs _]; auto.
  - rewrite file_on_completed, saves_on_completed.
    rewrite (inv_taken cfg input progress s k j Hinv Hk).
    destruct (save_interval cfg <=? unsaved s + 1)%Z; auto.
  - right. left. repeat split; auto.
    destruct Hmode as [[_ H]|(_ & _ & H)]; auto.
Qed.

(** The file is torn only while the handler or the final save writes it,
    and after an interruption of that write. *)
Definition file_shape s : Prop :=
  (file s = Whole input /\ saves s = []) \/
  (exists snap rest, file s = Whole snap /\ saves s = snap :: rest) \/
  (file s = Torn /\
   (run_mode s = Handling \/ run_mode s = Finishing \/
    run_mode s = Crashed /\ failure s = Some WriteInterrupted)).

Lemma torn_file_stays s s' :
  step cfg s s' -> file s = Torn ->
  run_mode s = Handling \/ run_mode s = Finishing ->
  (exists snap, file s' = Whole snap /\ saves s' = snap :: saves s) \/
  (file s' = Torn /\ saves s' = saves s /\
   (run_mode s' = Handling \/
    run_mode s' = Crashed /\ failure s' = Some WriteInterrupted)).
Proof.
  intros Hstep Hf Hm.
  destruct Hstep as
      [s0 ir rest Hm' Hp | s0 k j it Hm' Hk Ho Hq Hit
      | s0 k j d Hm' Hk Hc Hd | s0 k j e Hm' Hk Hc Hfl | s0 Hm'
      | s0 Hm' Hall | s0 Hm' | s0 Hm' | s0 Hm' | s0 Hm' Hall Hr
      | s0 Hm' Hall | s0 Hm' | s0 Hm'];
    try (exfalso; destruct Hm as [Hm|Hm]; rewrite Hm in Hm'; discriminate);
    try (exfalso; destruct Hm as [Hm|Hm], Hm' as [Hm'|Hm'];
         rewrite Hm in Hm'; discriminate).
  - right. unfold work. cbn [file saves run_mode failure].
    repeat split; auto. left.
    destruct Hm as [Hm|Hm]; [exact Hm|]. rewrite Hm in Hm'. discriminate.
  - left. eexists. split; reflexivity.
  - right. cbn [abort file saves run_mode failure]. auto.
  - left. eexists. split; reflexivity.
  - right. cbn [abort file saves run_mode failure]. auto.
Qed.

Lemma file_shape_reachable s : reachable cfg input s -> file_shape s.
Proof.
  intros H. unfold reachable in H.
  eapply (rtc_ind_r (fun s => file_shape s)); [| |exact H].
  - left. split; reflexivity.
  - intros y z Hy Hstep IH.
    assert (Hinv : inv cfg input progress y) by now apply inv_reachable.
    unfold file_shape in *.
    destruct IH as [[Hf Hs]|[(snap & rest & Hf & Hs)|(Hf & Hm)]].
    + destruct (step_file y z Hinv Hstep)
        as [[Ef Es]|[(Ef & Es & Hm)|[Ef Es]]]; rewrite Ef, Es.
      * left. auto.
      * right. right. split; [reflexivity|]. destruct Hm; auto.
      * right. left. eauto.
    + destruct (step_file y z Hinv Hstep)
        as [[Ef Es]|[(Ef & Es & Hm)|[Ef Es]]]; rewrite Ef, Es.
      * right. left. eauto.
      * right. right. split; [reflexivity|]. destruct Hm; auto.
      * right. left. eauto.
    + destruct Hm as [Hm|[Hm|[Hm _]]].
      * destruct (torn_file_stays y z Hstep Hf (or_introl Hm))
          as [(snap & Ef & Es)|(Ef & Es & Hm')]; rewrite Ef, Es.
        -- right. left. eauto.
        -- right. right. split; [reflexivity|]. destruct Hm'; auto.
      * destruct (torn_file_stays y z Hstep Hf (or_intror Hm))
          as [(snap & Ef & Es)|(Ef & Es & Hm')]; rewrite Ef, Es.
        -- right. left. eauto.
        -- right. right. split; [reflexivity|]. destruct Hm'; auto.
      * exfalso. apply (ended_final cfg) in Hstep. unfold ended in Hstep.
        now rewrite Hm in Hstep.
Qed.

Section Related.

(** A relation between a loaded item and what a job makes of it. *)
Variable R : record -> record -> Prop.
Hypothesis R_refl : forall o, R o o.
Hypothesis R_progress : forall o c ph, progress o c ph -> R o c.

Lemma heap_related s :
  inv cfg input progress s -> Forall2 R (data input) (heap s).
Proof.
  intros Hinv. apply Forall2_same_length_lookup. split.
  - symmetry. exact (inv_heap _ _ _ _ Hinv).
  - intros r o c Ho Hc.
    destruct (heap_items cfg input progress s r o Hinv Ho)
      as (c' & Hc' & Hrel).
    assert (c' = c) as -> by congruence.
    destruct Hrel as [[-> _]|(k & j & _ & _ & _ & Hp)]; eauto.
Qed.

Definition written (snap : snapshot_of record) : Prop :=
  total_count snap = Some (Z.of_nat (length (data input))) /\
  Forall2 R (data input) (data snap).

Lemma saves_written s : reachable cfg input s -> Forall written (saves s).
Proof.
  intros H. unfold reachable in H.
  eapply (rtc_ind_r (fun s => Forall written (saves s))); [| |exact H].
  - constructor.
  - intros y z Hy Hstep IH.
    assert (Hinv : inv cfg input progress y) by now apply inv_reachable.
    destruct (step_file y z Hinv Hstep)
      as [[_ ->]|[(_ & -> & _)|[_ ->]]]; auto.
    constructor; [|exact IH].
    rewrite (inv_dump cfg input progress y Hinv). split; [reflexivity|].
    now apply heap_related.
Qed.


End Related.

End Written.

(** ** Runs that end where they begin *)

Section Idle.

Context {W : Worker}.
Variable cfg : config.
Variable input : snapshot_of record.

Implicit Types s : state W.

Lemma nothing_selected (h : list record) :
  Forall (fun o => selected o = false) h ->
  items_to_process h (seq 0 (length h)) = [].
Proof.
  intros H. rewrite items_to_process_refs.
  assert (E : refs_to_process h = []); [|now rewrite E].
  destruct (refs_to_process h) as [|r rs] eqn:E; [reflexivity|]. exfalso.
  assert (Hr : r ∈ refs_to_process h) by (rewrite E; apply list_elem_of_here).
  apply refs_to_process_spec in Hr as (o & Ho & Hsel).
  rewrite Forall_lookup in H. specialize (H r o Ho). simpl in H. congruence.
Qed.

Lemma something_selected :
  Exists (fun o => selected o = true) (data input) ->
  items_to_process (data input) (seq 0 (length (data input))) <> [].
Proof.
  intros H. apply Exists_exists in H as (o & Ho & Hsel).
  apply list_elem_of_lookup in Ho as [r Hr].
  assert (Hin : r ∈ refs_to_process (data input))
    by (apply refs_to_process_spec; eauto).
  rewrite items_to_process_refs. intros E.
  apply fmap_nil_inv in E. rewrite E in Hin. now apply not_elem_of_nil in Hin.
Qed.

(** With no item to process the run returns at once. *)
Lemma idle_run s :
  Forall (fun o => selected o = false) (data input) ->
  reachable cfg input s ->
  s = begin_run cfg input /\ s = start_run cfg input /\
  run_mode s = Completed /\ jobs s = [] /\
  file s = Whole input /\ saves s = [].
Proof.
  intros Hnone Hreach.
  pose proof (nothing_selected (data input) Hnone) as Htodo.
  assert (s = begin_run cfg input) as ->.
  { apply (ended_stays cfg (begin_run cfg input) s); [|exact Hreach].
    unfold ended, begin_run. cbn [run_mode]. now rewrite Htodo. }
  unfold start_run, begin_run. cbn [run_mode jobs file saves].
  rewrite Htodo. repeat split. now destruct (0 <? max_workers cfg)%Z.
Qed.

(** Without a pool the run ends where it begins. *)
Lemma no_pool_run s :
  (max_workers cfg <= 0)%Z ->
  Exists (fun o => selected o = true) (data input) ->
  reachable cfg input s ->
  s = begin_run cfg input /\ s = start_run cfg input /\
  run_mode s = Crashed /\ jobs s = [] /\
  file s = Whole input /\ saves s = [].
Proof.
  intros Hpool Hsome Hreach.
  pose proof (something_selected Hsome) as Htodo.
  assert (Hlt : (0 <? max_workers cfg)%Z = false) by (apply Z.ltb_ge; lia).
  assert (s = begin_run cfg input) as ->.
  { apply (ended_stays cfg (begin_run cfg input) s); [|exact Hreach].
    unfold ended, begin_run. cbn [run_mode]. rewrite Hlt.
    now destruct (items_to_process _ _). }
  unfold start_run, begin_run. cbn [run_mode jobs file saves].
  rewrite Hlt. repeat split; now destruct (items_to_process _ _).
Qed.

End Idle.

(** ** The counters *)

Section Counters.

Context {W : Worker}.
Variable cfg : config.
Variable input : snapshot_of record.

Implicit Types s : state W.
Implicit Types j : job W.

(** A job whose result is truthy: [if coordinates:], [if address:]. *)
Definition succeeded j : bool :=
  match status (j_phase j) with
  | Done d => d
  | _ => false
  end.

Definition taken (js : list (job W)) : nat :=
  length (List.filter j_consumed js).

Definition taken_with_success (js : list (job W)) : nat :=
  length (List.filter (fun j => j_consumed j && succeeded j) js).

Lemma filter_insert_same (p : job W -> bool) (js : list (job W)) k j j' :
  js !! k = Some j -> p j' = p j ->
  length (List.filter p (<[k := j']> js)) = length (List.filter p js).
Proof.
  revert k. induction js as [|x js IH]; intros [|k] Hk Hp; simpl in *;
    try discriminate.
  - injection Hk as ->. rewrite Hp. now destruct (p j).
  - specialize (IH k Hk Hp). destruct (p x); simpl; now rewrite IH.
Qed.

Lemma filter_insert_more (p : job W -> bool) (js : list (job W)) k j j' :
  js !! k = Some j -> p j = false -> p j' = true ->
  length (List.filter p (<[k := j']> js)) = S (length (List.filter p js)).
Proof.
  revert k. induction js as [|x js IH]; intros [|k] Hk Hp Hp'; simpl in *;
    try discriminate.
  - injection Hk as ->. now rewrite Hp, Hp'.
  - specialize (IH k Hk Hp Hp'). destruct (p x); simpl; now rewrite IH.
Qed.

Lemma filter_length_le (p : job W -> bool) (js : list (job W)) :
  (length (List.filter p js) <= length js)%nat.
Proof.
  induction js as [|x js IH]; simpl; [lia|]. destruct (p x); simpl; lia.
Qed.

Lemma filter_length_impl (p q : job W -> bool) (js : list (job W)) :
  (forall j, p j = true -> q j = true) ->
  (length (List.filter p js) <= length (List.filter q js))%nat.
Proof.
  intros Hpq. induction js as [|x js IH]; simpl; [lia|].
  destruct (p x) eqn:Hp; [rewrite (Hpq x Hp); simpl; lia|].
  destruct (q x); simpl; lia.
Qed.

Lemma filter_all (p : job W -> bool) (js : list (job W)) :
  forallb p js = true -> List.filter p js = js.
Proof.
  induction js as [|x js IH]; simpl; [reflexivity|].
  destruct (p x); simpl; [|discriminate]. intros H. now rewrite IH.
Qed.

Lemma success_on_completed k j d s :
  success_count (on_completed cfg k j d s)
  = if d then (success_count s + 1)%Z else success_count s.
Proof.
  unfold on_completed, show_progress, checkpoint.
  destruct (checkpoint_due _ _), (batch_size cfg =? 0)%Z; reflexivity.
Qed.

(** The counters count the results the loop has taken. *)
Definition counted s : Prop :=
  processed_count s = Z.of_nat (taken (jobs s)) /\
  success_count s = Z.of_nat (taken_with_success (jobs s)).

Lemma counted_step s s' :
  inv cfg input (fun _ _ _ => True) s ->
  step cfg s s' -> counted s -> counted s'.
Proof.
  intros Hinv Hstep (Hp & Hs). apply step_kinds in Hstep.
  destruct Hstep as
    [ir rest _ _ -> | k j it _ Hk Hover _ -> | k j d _ Hk Hcons Hdone ->
    | (_ & _ & _ & Hj & Hp' & Hs' & _) _ _ _ _
    | (_ & _ & _ & Hj & Hp' & Hs' & _) _ _ _
    | (_ & _ & _ & Hj & Hp' & Hs' & _) _ _ _];
    try (unfold counted; now rewrite Hj, Hp', Hs').
  - unfold counted, submitted, taken, taken_with_success.
    cbn [processed_count success_count jobs].
    rewrite !List.filter_app. cbn. rewrite !app_nil_r. auto.
  - assert (Hc : j_consumed j = false).
    { destruct (j_consumed j) eqn:E; [|reflexivity]. exfalso.
      pose proof (inv_consumed _ _ _ _ Hinv k j Hk E) as Hr.
      unfold returned in Hr. unfold over in Hover.
      destruct (status (j_phase j)); discriminate. }
    unfold counted, work, taken, taken_with_success.
    cbn [processed_count success_count jobs].
    rewrite !(filter_insert_same _ _ k j) by
      (try exact Hk; cbn [set_phase j_consumed]; now rewrite ?Hc).
    auto.
  - unfold counted, taken, taken_with_success.
    rewrite processed_on_completed, success_on_completed, jobs_on_completed.
    rewrite (filter_insert_more j_consumed _ k j) by (auto; reflexivity).
    split; [unfold taken in Hp; lia|].
    destruct d.
    + rewrite (filter_insert_more _ _ k j); auto.
      * unfold taken_with_success in Hs. lia.
      * now rewrite Hcons.
      * unfold succeeded. cbn [consume j_consumed j_phase].
        now rewrite Hdone.
    + rewrite (filter_insert_same _ _ k j); auto.
      unfold succeeded. cbn [consume j_consumed j_phase].
      now rewrite Hcons, Hdone.
Qed.

Lemma counted_reachable s : reachable cfg input s -> counted s.
Proof.
  intros H. unfold reachable in H.
  eapply (rtc_ind_r (fun s => counted s)); [| | exact H].
  - split; reflexivity.
  - intros y z Hy Hstep IH. apply counted_step with y; auto.
    apply inv_reachable; auto.
Qed.

(** One entry of [items_to_process] for each selected item. *)
Lemma todo_length (h pre : list record) :
  length (List.filter (needs_job (pre ++ h))
            (enumerate (length pre) (seq (length pre) (length h))))
  = length (List.filter selected h).
Proof.
  revert pre. induction h as [|x h IH]; intros pre; [reflexivity|].
  cbn [length seq enumerate List.filter].
  unfold needs_job at 1. cbn [snd].
  rewrite list_lookup_middle by reflexivity.
  specialize (IH (pre ++ [x])).
  rewrite <- app_assoc, length_app in IH. simpl in IH.
  replace (length pre + 1)%nat with (S (length pre)) in IH by lia.
  destruct (selected x); simpl; now rewrite IH.
Qed.

Lemma job_refs_length :
  length (job_refs cfg input)
  = if (0 <? max_workers cfg)%Z
    then length (List.filter selected (data input)) else 0%nat.
Proof.
  unfold job_refs. destruct (0 <? max_workers cfg)%Z; [|reflexivity].
  rewrite <- (todo_length (data input) []).
  change (List.filter (needs_job ([] ++ data input))
            (enumerate (length (@nil record))
               (seq (length (@nil record)) (length (data input)))))
    with (items_to_process (data input) (seq 0 (length (data input)))).
  now rewrite items_to_process_refs, length_fmap.
Qed.

Lemma dispatched_start :
  dispatched (start_run cfg input)
  = if (0 <? max_workers cfg)%Z
    then length (List.filter selected (data input)) else 0%nat.
Proof.
  unfold dispatched, start_run. cbn [jobs].
  destruct (0 <? max_workers cfg)%Z; [|reflexivity].
  rewrite length_fmap. exact (todo_length (data input) []).
Qed.

(** The jobs and the items still to submit are the selected items. *)
Lemma dispatched_reachable s :
  reachable cfg input s ->
  (dispatched s + length (pending s))%nat
  = if (0 <? max_workers cfg)%Z
    then length (List.filter selected (data input)) else 0%nat.
Proof.
  intros H.
  assert (Hinv : inv cfg input (fun _ _ _ => True) s)
    by (apply inv_reachable; auto).
  rewrite <- job_refs_length, <- (inv_item _ _ _ _ Hinv).
  unfold dispatched. now rewrite length_app, !length_fmap.
Qed.

End Counters.

(** ** What can abort a run *)

Section Failures.

Context {W : Worker}.
Variable cfg : config.
Variable input : snapshot_of record.
Hypothesis never_fails : forall ph e, status ph <> Failed e.

Implicit Types s : state W.


End Failures.

End RunProps.

(* ===================================================================== *)
(** * The specification's statements about enrichment runs *)
(* ===================================================================== *)

Module RunClaims.
Import PyStr Store Orchestrator OrchestratorProps RunProps.
Import GeocodeWorker WorkerProps.

(** The defaults of [geocode_nursing_rooms] and
    [reverse_geocode_playgrounds]. *)
Definition default_config : config :=
  {| max_workers := 10; batch_size := 100; save_interval := 50 |}.

Definition one_item (it : item) : snapshot :=
  {| total_count := Some 1%Z; data := [it] |}.

(** An item without coordinates, and a client that places every address in
    Shanghai: longitude 121.47, latitude 31.23. *)
Definition unlocated : item :=
  {| name := Py.lit "A"; address := Some (Py.lit "1 Main St");
     latitude := None; longitude := None; other := [] |}.



Definition no_answer (_ : option pystr) : option coordinates := None.

(** Both coordinates, or none. *)
Definition paired (it : item) : Prop :=
  is_none (latitude it) = is_none (longitude it).


(** What [process_item] made of the loaded item [o]. *)
Definition enriched (geocode : option pystr -> option coordinates)
    (o it : item) : Prop :=
  (it = o /\
   (missing_coordinates o = false \/ geocode (address o) = None)) \/
  (exists lon lat,
     missing_coordinates o = true /\
     geocode (address o) = Some (lon, lat) /\
     it = set_latitude lat (set_longitude lon o)).






Lemma nothing_to_process {W : Worker} (h : list record) :
  Forall (fun o => selected o = false) h ->
  items_to_process h (seq 0 (length h)) = [].
Proof. apply nothing_selected. Qed.

(** The run of one job whose client answers: the worker fetches, writes the
    longitude, writes the latitude; the loop takes the result; the final
    save opens the file and writes it. *)
Definition one_job_answered : list action :=
  [Work 0; Work 0; Work 0; Take 0; Finish; Written].


(** A client that places every address in Taipei. *)
Definition taipei_client (_ : option pystr) : option coordinates :=
  Some (121.5, 25.0)%Q.


(** An item with coordinates and no address, and a client that names every
    place the same. *)
Definition unaddressed : item :=
  {| name := Py.lit "B"; address := Some [];
     latitude := Some 25.0%Q; longitude := Some 121.5%Q; other := [] |}.

Definition some_street (_ _ : option Q) (_ : pystr) : option pystr :=
  Some (Py.lit "1 Main St").

Definition located : item := set_latitude 25.0 (set_longitude 121.5 unlocated).

(** ** The file of a geocoding run *)

Section GeocodeFile.

Variable geocode : option pystr -> option coordinates.
Variable cfg : config.
Variable input : snapshot.

Implicit Types s : state (geocode_worker geocode).





End GeocodeFile.

(** ** C1 *)




(** An interruption while the jobs are submitted leaves items without a
    job: of three items without coordinates the run that is interrupted
    after its first submission saves the first with the pair of the client
    and the two others as they were, though the client has an answer for
    them. *)
Lemma interrupted_submission_saves_less :
  let input := {| total_count := Some 3%Z;
                  data := [unlocated; unlocated; unlocated] |} in
  let s := run_from (W := geocode_worker taipei_client) default_config input
             [Submit; Interrupt; Work 0; Work 0; Work 0; Join; Written] in
  geocode_nursing_rooms taipei_client default_config input s /\
  run_mode s = Interrupted /\
  dispatched s = 1%nat /\
  file s = {| total_count := Some 3%Z;
              data := [located; unlocated; unlocated] |} /\
  ~ enriched taipei_client unlocated unlocated.
Proof.
  split; [apply run_from_reachable|].
  split; [reflexivity|]. split; [reflexivity|]. split; [reflexivity|].
  intros [[_ [H|H]]|(lon & lat & _ & _ & H)]; discriminate.
Qed.

(** ** C3 *)


(** A periodic save can catch an item between the two writes of its
    worker: with two jobs and a save after every result, the first result
    is taken while the second worker has set the longitude only. *)
Lemma periodic_save_between_writes :
  let cfg := {| max_workers := 10; batch_size := 100; save_interval := 1 |} in
  let input := {| total_count := Some 2%Z; data := [unlocated; unlocated] |} in
  let s := run_from (W := geocode_worker taipei_client) cfg input
             [Submit; Submit; Work 0; Work 0; Work 0; Work 1; Work 1;
              Take 0] in
  geocode_nursing_rooms taipei_client cfg input s /\
  run_mode s = Running /\
  file s = {| total_count := Some 2%Z;
              data := [located; set_longitude 121.5 unlocated] |}.
Proof.
  split; [apply run_from_reachable|]. split; reflexivity.
Qed.

(** So can the save of the interruption handler, when a second interruption
    cuts the wait for the threads of the pool short: the run returns from
    the handler, and the file holds a longitude without its latitude. *)
Lemma handler_save_between_writes :
  let s := run_from (W := geocode_worker taipei_client) default_config
             (one_item unlocated)
             [Submit; Work 0; Work 0; Interrupt; InterruptAgain; Written] in
  geocode_nursing_rooms taipei_client default_config (one_item unlocated) s /\
  run_mode s = Interrupted /\
  all_over (jobs s) = false /\
  file s = one_item (set_longitude 121.5 unlocated) /\
  paired unlocated /\
  ~ paired (set_longitude 121.5 unlocated).
Proof.
  split; [apply run_from_reachable|].
  split; [reflexivity|]. split; [reflexivity|]. split; [reflexivity|].
  split; [reflexivity | discriminate].
Qed.



(** ** C4 *)

(** A first run that is interrupted while it submits its jobs leaves items
    to the second run: here the second run has two jobs to submit. *)
Lemma interrupted_run_leaves_jobs :
  let input := {| total_count := Some 3%Z;
                  data := [unlocated; unlocated; unlocated] |} in
  let s := run_from (W := geocode_worker taipei_client) default_config input
             [Submit; Interrupt; Work 0; Work 0; Work 0; Join; Written] in
  let snap := {| total_count := Some 3%Z;
                 data := [located; unlocated; unlocated] |} in
  geocode_nursing_rooms taipei_client default_config input s /\
  run_mode s = Interrupted /\
  file s = snap /\
  length (pending (begin_run (W := geocode_worker taipei_client)
                     default_config snap)) = 2%nat.
Proof.
  split; [apply run_from_reachable|].
  split; [reflexivity|]. split; reflexivity.
Qed.



(** ** C5 *)



Section Persisted.

Context {W : Worker}.
Variable cfg : config.
Variable input : snapshot_of record.

Implicit Types s : state W.

#[local] Abbreviation plain_inv := (inv cfg input (fun _ _ _ => True)).







End Persisted.




(** ** C7 *)






End RunClaims.

(* ===================================================================== *)
(** * Properties of the coordinate transformer *)
(* ===================================================================== *)

Module Twd97Props.

(** ** Over the real numbers *)

Module Exact.
Import Twd97.

#[local] Open Scope R_scope.

Lemma divide_some x y : y <> 0 -> divide x y = Some (x / y).
Proof. intros H. unfold divide. now destruct (Req_EM_T y 0). Qed.

Lemma math_sqrt_some x : 0 <= x -> math_sqrt x = Some (sqrt x).
Proof. intros H. unfold math_sqrt. destruct (Rlt_dec x 0); [lra | reflexivity]. Qed.

Lemma power_one y : power 1 y = 1.
Proof.
  unfold power. destruct (Rlt_dec 0 1); [|lra].
  unfold Rpower. now rewrite ln_1, Rmult_0_r, exp_0.
Qed.

(** The square of the first eccentricity of GRS80. *)
Definition ecc2 : R := 1 - (6356752.314140 * 6356752.314140) / (6378137.0 * 6378137.0).

Lemma ecc2_bounds : 0 <= ecc2 < 0.01.
Proof. unfold ecc2. split; lra. Qed.

Lemma divide_zero y : y <> 0 -> divide 0 y = Some 0.
Proof. intros H. rewrite divide_some by exact H. f_equal. unfold Rdiv. ring. Qed.

Lemma footpoint_zero J1 J2 J3 J4 :
  0 + J1 * sin (2 * 0) + J2 * sin (4 * 0) + J3 * sin (6 * 0)
  + J4 * sin (8 * 0) = 0.
Proof. rewrite !Rmult_0_r, sin_0. ring. Qed.

(** Over the real numbers the false easting on the equator is mapped to
    the latitude 0 and the longitude 121 exactly. *)
Lemma origin_exact : twd97_to_wgs84 250000 0 = Some (0, 121).
Proof.
  unfold twd97_to_wgs84. cbv zeta. fold ecc2.
  pose proof ecc2_bounds as [Hlo Hhi].
  assert (H2 : sqrt ecc2 ^ 2 = ecc2)
    by (simpl; rewrite Rmult_1_r; now apply sqrt_sqrt).
  assert (H4 : sqrt ecc2 ^ 4 = ecc2 * ecc2).
  { replace (sqrt ecc2 ^ 4)
      with ((sqrt ecc2 * sqrt ecc2) * (sqrt ecc2 * sqrt ecc2)) by ring.
    now rewrite sqrt_sqrt. }
  assert (H6 : sqrt ecc2 ^ 6 = ecc2 * ecc2 * ecc2).
  { replace (sqrt ecc2 ^ 6)
      with ((sqrt ecc2 * sqrt ecc2) * (sqrt ecc2 * sqrt ecc2)
            * (sqrt ecc2 * sqrt ecc2)) by ring.
    now rewrite sqrt_sqrt. }
  rewrite (math_sqrt_some ecc2) by exact Hlo. cbn [mbind option_bind].
  rewrite H2, H4, H6, (sqrt_sqrt ecc2) by exact Hlo.
  replace ((0 - 0) / 0.9999) with 0 by lra.
  rewrite divide_zero by nra. cbn [mbind option_bind].
  rewrite (math_sqrt_some (1 - ecc2)) by lra. cbn [mbind option_bind].
  pose proof (sqrt_pos (1 - ecc2)) as Hroot.
  rewrite (divide_some (1 - sqrt (1 - ecc2))) by lra. cbn [mbind option_bind].
  rewrite !footpoint_zero.
  rewrite (divide_some ecc2) by lra. cbn [mbind option_bind].
  rewrite sin_0, cos_0, tan_0.
  replace (1 - ecc2 * 0 ^ 2) with 1 by ring.
  rewrite (math_sqrt_some 1) by lra. cbn [mbind option_bind].
  rewrite sqrt_1, power_one.
  rewrite (divide_some 6378137.0) by lra. cbn [mbind option_bind].
  rewrite (divide_some (6378137.0 * (1 - ecc2))) by lra.
  cbn [mbind option_bind].
  replace (250000 - 250000) with 0 by lra.
  rewrite divide_zero by lra. cbn [mbind option_bind].
  replace (6378137.0 / 1 * 0) with 0 by lra.
  rewrite divide_zero by lra. cbn [mbind option_bind].
  rewrite divide_some by lra. cbn [mbind option_bind].
  pose proof PI_neq0 as Hpi.
  f_equal. f_equal; field; repeat split; lra.
Qed.

End Exact.

(** ** In binary64

    Every intermediate value of the run on (250000, 0) is computed. The
    powers of the two eccentricities are the only values that depend on the
    C library beyond its values at 0 and 1: each is one of 17 floats, and
    the statement is checked for every one of them. *)

Module Binary64.
Import Floats.PrimFloat Twd97Float.

#[local] Open Scope float_scope.

Lemma float_eq x y : Leibniz.eqb x y = true -> x = y.
Proof. apply Floats.FloatAxioms.Leibniz.eqb_spec. Qed.

(** The first eccentricity of GRS80, and the [e1] of the series. *)
Definition ecc : float :=
  sqrt (1 - (0x1.83fc4141adea9p+22 * 0x1.83fc4141adea9p+22)
            / (6378137 * 6378137)).

Definition ecc1 : float := (1 - sqrt (1 - ecc * ecc)) / (1 + sqrt (1 - ecc * ecc)).

(** [mu] is zero whatever the three powers of the eccentricity are among
    their candidates. *)
Definition check_mu (p2 p4 p6 : float) : bool :=
  negb (is_inf p2) && negb (is_inf p4) && negb (is_inf p6) &&
  match divide ((0 - 0) / 0x1.fff2e48e8a71ep-1)
          (6378137 * (1 - p2 / 4 - 3 * p4 / 64 - 5 * p6 / 256)) with
  | Some mu => Leibniz.eqb mu 0
  | None => false
  end.

Lemma check_mu_all :
  forallb (fun p2 =>
    forallb (fun p4 =>
      forallb (fun p6 => check_mu p2 p4 p6)
        (nearby (ecc * ecc * ecc * ecc * ecc * ecc)))
      (nearby (ecc * ecc * ecc * ecc)))
    (nearby (ecc * ecc)) = true.
Proof. vm_compute. reflexivity. Qed.

Lemma foot_mu (m : libm) :
  libm_ok m ->
  is_inf (c_pow m ecc 2) = false /\
  is_inf (c_pow m ecc 4) = false /\
  is_inf (c_pow m ecc 6) = false /\
  divide ((0 - 0) / 0x1.fff2e48e8a71ep-1)
    (6378137 * (1 - c_pow m ecc 2 / 4 - 3 * c_pow m ecc 4 / 64
                - 5 * c_pow m ecc 6 / 256)) = Some 0.
Proof.
  intros Hm.
  pose proof (pow_2 m Hm ecc eq_refl eq_refl) as H2.
  pose proof (pow_4 m Hm ecc eq_refl eq_refl) as H4.
  pose proof (pow_6 m Hm ecc eq_refl eq_refl) as H6.
  pose proof check_mu_all as Hall.
  rewrite forallb_forall in Hall. specialize (Hall _ H2).
  rewrite forallb_forall in Hall. specialize (Hall _ H4).
  rewrite forallb_forall in Hall. specialize (Hall _ H6).
  unfold check_mu in Hall.
  apply andb_true_iff in Hall as [Hall Hmu].
  apply andb_true_iff in Hall as [Hall Hi6].
  apply andb_true_iff in Hall as [Hi2 Hi4].
  apply negb_true_iff in Hi2, Hi4, Hi6.
  repeat split; try assumption.
  destruct (divide _ _) as [mu|]; [|discriminate].
  f_equal. now apply float_eq.
Qed.

(** The footpoint latitude [fp] is zero whatever the three powers of [e1]
    are among their candidates. *)
Definition check_fp (a2 a3 a4 : float) : bool :=
  negb (is_inf a2) && negb (is_inf a3) && negb (is_inf a4) &&
  Leibniz.eqb
    (0 + (3 * ecc1 / 2 - 27 * a3 / 32) * 0
       + (21 * a2 / 16 - 55 * a4 / 32) * 0
       + 151 * a3 / 96 * 0
       + 1097 * a4 / 512 * 0) 0.

Lemma check_fp_all :
  forallb (fun a2 =>
    forallb (fun a3 =>
      forallb (fun a4 => check_fp a2 a3 a4)
        (nearby (ecc1 * ecc1 * ecc1 * ecc1)))
      (nearby (ecc1 * ecc1 * ecc1)))
    (nearby (ecc1 * ecc1)) = true.
Proof. vm_compute. reflexivity. Qed.

Lemma foot_fp (m : libm) :
  libm_ok m ->
  is_inf (c_pow m ecc1 2) = false /\
  is_inf (c_pow m ecc1 3) = false /\
  is_inf (c_pow m ecc1 4) = false /\
  0 + (3 * ecc1 / 2 - 27 * c_pow m ecc1 3 / 32) * 0
    + (21 * c_pow m ecc1 2 / 16 - 55 * c_pow m ecc1 4 / 32) * 0
    + 151 * c_pow m ecc1 3 / 96 * 0
    + 1097 * c_pow m ecc1 4 / 512 * 0 = 0.
Proof.
  intros Hm.
  pose proof (pow_2 m Hm ecc1 eq_refl eq_refl) as H2.
  pose proof (pow_3 m Hm ecc1 eq_refl eq_refl) as H3.
  pose proof (pow_4 m Hm ecc1 eq_refl eq_refl) as H4.
  pose proof check_fp_all as Hall.
  rewrite forallb_forall in Hall. specialize (Hall _ H2).
  rewrite forallb_forall in Hall. specialize (Hall _ H3).
  rewrite forallb_forall in Hall. specialize (Hall _ H4).
  unfold check_fp in Hall.
  apply andb_true_iff in Hall as [Hall Hfp].
  apply andb_true_iff in Hall as [Hall Hi4].
  apply andb_true_iff in Hall as [Hi2 Hi3].
  apply negb_true_iff in Hi2, Hi3, Hi4.
  repeat split; try assumption. now apply float_eq.
Qed.

(** The values that do not depend on the C library. *)
Lemma eccentricity :
  math_sqrt (1 - (0x1.83fc4141adea9p+22 * 0x1.83fc4141adea9p+22)
                 / (6378137 * 6378137)) = Some ecc.
Proof. vm_compute. reflexivity. Qed.

Lemma eccentricity_root :
  math_sqrt (1 - ecc * ecc) = Some (sqrt (1 - ecc * ecc)).
Proof. vm_compute. reflexivity. Qed.

Lemma eccentricity_1 :
  divide (1 - sqrt (1 - ecc * ecc)) (1 + sqrt (1 - ecc * ecc)) = Some ecc1.
Proof. vm_compute. reflexivity. Qed.

Lemma power_finite (m : libm) (x y : float) :
  is_inf (c_pow m x y) = false -> power m x y = Some (c_pow m x y).
Proof. intros H. unfold power. now rewrite H. Qed.

Lemma math_call_0 (f : float -> float) : math_call f 0 = Some (f 0).
Proof. reflexivity. Qed.

Lemma times_zero : 2 * 0 = 0 /\ 4 * 0 = 0 /\ 6 * 0 = 0 /\ 8 * 0 = 0.
Proof. vm_compute. auto. Qed.

Section SpecialValues.
Variable m : libm.
Hypothesis Hm : libm_ok m.

Lemma sin_origin : math_call (c_sin m) 0 = Some 0.
Proof. rewrite math_call_0. now rewrite (sin_zero m Hm). Qed.

Lemma tan_origin : math_call (c_tan m) 0 = Some 0.
Proof. rewrite math_call_0. now rewrite (tan_zero m Hm). Qed.

Lemma cos_origin : math_call (c_cos m) 0 = Some 1.
Proof. rewrite math_call_0. now rewrite (cos_zero m Hm). Qed.

Lemma power_0_2 : power m 0 2 = Some 0.
Proof. unfold power. now rewrite (pow_zero_2 m Hm). Qed.

Lemma power_0_3 : power m 0 3 = Some 0.
Proof. unfold power. now rewrite (pow_zero_3 m Hm). Qed.

Lemma power_0_4 : power m 0 4 = Some 0.
Proof. unfold power. now rewrite (pow_zero_4 m Hm). Qed.

Lemma power_0_5 : power m 0 5 = Some 0.
Proof. unfold power. now rewrite (pow_zero_5 m Hm). Qed.

Lemma power_0_6 : power m 0 6 = Some 0.
Proof. unfold power. now rewrite (pow_zero_6 m Hm). Qed.

Lemma power_1_2 : power m 1 2 = Some 1.
Proof. unfold power. now rewrite (pow_one_2 m Hm). Qed.

Lemma power_1_5_1 : power_1_5 m 1 = Some 1.
Proof. unfold power_1_5, power. cbn. now rewrite (pow_one_1_5 m Hm). Qed.

End SpecialValues.

(** A call of the C library at 0 or 1. *)
Ltac known Hm :=
  first
    [ rewrite (sin_origin _ Hm) | rewrite (tan_origin _ Hm)
    | rewrite (cos_origin _ Hm)
    | rewrite (power_0_2 _ Hm) | rewrite (power_0_3 _ Hm)
    | rewrite (power_0_4 _ Hm) | rewrite (power_0_5 _ Hm)
    | rewrite (power_0_6 _ Hm) | rewrite (power_1_2 _ Hm)
    | rewrite (power_1_5_1 _ Hm) ].

(** A closed term is replaced by its value. *)
Ltac reduce_arg x :=
  let r := eval vm_compute in x in
  tryif constr_eq x r then fail
  else replace x with r by (vm_compute; reflexivity).

(** One assignment of the function: its right-hand side is evaluated and
    bound. *)
Ltac statement Hm :=
  lazymatch goal with
  | |- (power _ ?x _ ≫= _) = _ => first [known Hm | reduce_arg x]
  | |- (power_1_5 _ ?x ≫= _) = _ => first [known Hm | reduce_arg x]
  | |- (math_call _ ?x ≫= _) = _ => first [known Hm | reduce_arg x]
  | |- (?X ≫= _) = _ => reduce_arg X
  end; cbn [mbind option_bind].

Lemma power_value (m : libm) (x y c : float) :
  c = c_pow m x y -> is_inf c = false -> power m x y = Some c.
Proof. intros -> H. now apply power_finite. Qed.

(** The square of a base between 0 and 1, one candidate at a time. *)
Ltac square Hm :=
  lazymatch goal with
  | |- (power ?m ?x 2 ≫= _) = _ =>
      let H := fresh "H" in
      pose proof (pow_2 m Hm x eq_refl eq_refl) as H;
      vm_compute in H;
      repeat destruct H as [H|H]; [..|contradiction];
      rewrite (power_value m x 2 _ H eq_refl); cbn [mbind option_bind]
  end.

(** Whatever the C library, as long as it is exact at 0 and 1 and its
    [pow] is near the repeated product, the result is (0, 121) exactly. *)
Lemma origin_binary64 (m : libm) :
  libm_ok m -> twd97_to_wgs84 m 250000 0 = Some (0, 121).
Proof.
  intros Hm.
  destruct (foot_mu m Hm) as (Hi2 & Hi4 & Hi6 & Hmu).
  destruct (foot_fp m Hm) as (Ha2 & Ha3 & Ha4 & Hfp).
  unfold twd97_to_wgs84. cbv zeta.
  rewrite eccentricity. cbn [mbind option_bind].
  rewrite !(power_finite m ecc 2 Hi2), (power_finite m ecc 4 Hi4),
    (power_finite m ecc 6 Hi6). cbn [mbind option_bind].
  rewrite Hmu. cbn [mbind option_bind].
  rewrite eccentricity_root. cbn [mbind option_bind].
  rewrite eccentricity_1. cbn [mbind option_bind].
  rewrite (power_finite m ecc1 2 Ha2), (power_finite m ecc1 3 Ha3),
    (power_finite m ecc1 4 Ha4). cbn [mbind option_bind].
  destruct times_zero as (-> & -> & -> & ->).
  rewrite math_call_0, (sin_zero m Hm). cbn [mbind option_bind].
  rewrite Hfp.
  clear Hi2 Hi4 Hi6 Hmu Ha2 Ha3 Ha4 Hfp.
  pose proof (pow_2 m Hm ecc eq_refl eq_refl) as H2.
  generalize dependent (c_pow m ecc 2). intros p2 H2.
  vm_compute in H2.
  repeat destruct H2 as [H2|H2]; [subst p2 ..|contradiction].
  all: repeat statement Hm.
  all: square Hm.
  all: repeat statement Hm.
  all: vm_compute; reflexivity.
Qed.

(** The hypothesis on the C library can be met. *)
Lemma sample_libm_ok : libm_ok sample_libm.
Proof.
  constructor; try reflexivity; intros x _ _; left; reflexivity.
Qed.

End Binary64.

(** ** The specification's statement *)

Import Floats.PrimFloat.

(** C8: [twd97_to_wgs84] applied to the false easting 250000 and the
    northing 0 raises nothing and returns the latitude 0 and the longitude
    121, the central meridian, each within 1e-6 degrees: over the real
    numbers, and in binary64 with every C library that is exact at 0 and 1
    and whose [pow] is at most 8 units in the last place away from the
    repeated product. *)
Theorem twd97_false_easting_origin :
  (exists lat lng : R,
     Twd97.twd97_to_wgs84 250000%R 0%R = Some (lat, lng) /\
     (Rabs (lat - 0) <= 1e-6)%R /\
     (Rabs (lng - 121) <= 1e-6)%R) /\
  (forall m : Twd97Float.libm,
     Twd97Float.libm_ok m ->
     exists lat lng : float,
       Twd97Float.twd97_to_wgs84 m 250000%float 0%float = Some (lat, lng) /\
       Twd97Float.within lat 0%float = true /\
       Twd97Float.within lng 121%float = true).
Proof.
  split.
  - exists 0%R, 121%R. split; [apply Exact.origin_exact|].
    replace (0 - 0)%R with 0%R by ring.
    replace (121 - 121)%R with 0%R by ring.
    rewrite Rabs_R0. split; lra.
  - intros m Hm. exists 0%float, 121%float.
    split; [now apply Binary64.origin_binary64|].
    split; vm_compute; reflexivity.
Qed.

Lemma twd97_false_easting_origin_witness :
  exists lat lng : float,
    Twd97Float.twd97_to_wgs84 Twd97Float.sample_libm 250000%float 0%float
    = Some (lat, lng) /\
    Twd97Float.within lat 0%float = true /\
    Twd97Float.within lng 121%float = true.
Proof.
  exact (proj2 twd97_false_easting_origin Twd97Float.sample_libm
           Binary64.sample_libm_ok).
Defined.

End Twd97Props.

(* ===================================================================== *)
(** * More on the address parser: what it splits, and what it leaves *)
(* ===================================================================== *)

Module ParseAddressFacts.
Import PyStr ParseAddress ParseAddressProps.

(** ** The city loop and the district pattern, read backwards *)

Lemma startswith_app s p :
  startswith s p = true -> s = p ++ drop (length p) s.
Proof.
  revert s. induction p as [|c p IH]; intros s; simpl.
  - intros _. now rewrite drop_0.
  - destruct s as [|d s]; [discriminate|].
    intros H. apply andb_true_iff in H as [Hc Hp].
    apply N.eqb_eq in Hc as ->. simpl. f_equal. now apply IH.
Qed.

Lemma match_city_inv patterns s o r :
  match_city patterns s = (o, r) ->
  (o = None /\ r = s /\ Forall (fun p => startswith s p = false) patterns) \/
  (exists p, o = Some p /\ In p patterns /\ s = p ++ r).
Proof.
  induction patterns as [|p ps IH]; simpl.
  - intros [= <- <-]. left. auto.
  - destruct (startswith s p) eqn:Hp.
    + intros [= <- <-]. right. exists p. split; [reflexivity|].
      split; [now left | now apply startswith_app].
    + intros H. destruct (IH H) as [(-> & -> & Hall)|(q & -> & Hq & Hs)].
      * left. auto.
      * right. exists q. auto.
Qed.

Lemma match_city_none patterns s :
  Forall (fun p => startswith s p = false) patterns ->
  match_city patterns s = (None, s).
Proof.
  induction 1 as [|p ps Hp _ IH]; simpl; [reflexivity|]. now rewrite Hp.
Qed.

Lemma span_body_le n s : (span_body n s <= n)%nat.
Proof.
  revert s. induction n as [|n IH]; intros [|c s]; simpl; try lia.
  destruct (is_suffix c); [lia|]. specialize (IH s). lia.
Qed.

Lemma span_body_lookup n s i :
  (i < span_body n s)%nat ->
  exists c, s !! i = Some c /\ is_suffix c = false.
Proof.
  revert s i. induction n as [|n IH]; intros [|c s] i; simpl; try lia.
  destruct (is_suffix c) eqn:Hc; [lia|].
  destruct i as [|i]; simpl; [eauto|]. intros H. apply IH. lia.
Qed.

Lemma backtrack_inv k s d :
  backtrack k s = Some d ->
  exists k' c,
    (1 <= k' <= k)%nat /\ s !! k' = Some c /\ is_suffix c = true /\
    d = take (S k') s.
Proof.
  induction k as [|k IH]; simpl; [discriminate|].
  destruct (s !! S k) as [c|] eqn:Hk.
  - destruct (is_suffix c) eqn:Hc.
    + intros [= <-]. exists (S k), c. repeat split; auto; lia.
    + intros H. destruct (IH H) as (k' & c' & Hle & ?). exists k', c'.
      split; [lia | assumption].
  - intros H. destruct (IH H) as (k' & c' & Hle & ?). exists k', c'.
    split; [lia | assumption].
Qed.

(** What the pattern matches is a district-shaped prefix. *)
Lemma district_match_inv s d :
  district_match s = Some d ->
  district_shaped d /\ s = d ++ drop (length d) s.
Proof.
  unfold district_match. intros H.
  apply backtrack_inv in H as (k & c & [Hlo Hhi] & Hk & Hc & ->).
  pose proof (span_body_le 4 s) as Hspan.
  assert (Hlen : length (take (S k) s) = S k).
  { rewrite length_take. apply lookup_lt_Some in Hk. lia. }
  split.
  - exists (take k s), c. split; [|split; [|split]].
    + now apply take_S_r.
    + rewrite length_take. apply lookup_lt_Some in Hk. lia.
    + apply Forall_lookup. intros i x Hi.
      apply lookup_take_Some in Hi as [Hi Hlt].
      destruct (span_body_lookup 4 s i) as (x' & Hx' & Hs); [lia|]. congruence.
    + exact Hc.
  - rewrite Hlen. symmetry. apply take_drop.
Qed.

Lemma strip_nil_eq : strip [] = [].
Proof. reflexivity. Qed.

(** The parser on an address that is not blank, one decision at a time. *)
Lemma parse_unfold a fallback_city fallback_district :
  strip a <> [] ->
  parse_city_and_district (Some a) fallback_city fallback_district
  = let city := (match_city CITY_PATTERNS (strip a)).1 in
    let rest := (match_city CITY_PATTERNS (strip a)).2 in
    let known := or_fallback city fallback_city in
    let found :=
      if truthy known && (0 <? length rest)%nat then district_match rest
      else None in
    (known, or_fallback found fallback_district,
     strip (match found with
            | Some d => drop (length d) rest
            | None => rest
            end)).
Proof.
  intros Hne. unfold parse_city_and_district.
  assert (Ha : is_empty a || is_empty (strip a) = false).
  { destruct a as [|c a]; [now rewrite strip_nil_eq in Hne|].
    destruct (strip (c :: a)); [congruence | reflexivity]. }
  rewrite Ha. destruct (match_city CITY_PATTERNS (strip a)) as [city rest].
  cbn [fst snd]. cbv zeta.
  destruct (truthy (or_fallback city fallback_city) && (0 <? length rest)%nat);
    [destruct (district_match rest)|]; reflexivity.
Qed.

Lemma parse_blank a fallback_city fallback_district :
  strip a = [] ->
  parse_city_and_district (Some a) fallback_city fallback_district
  = (fallback_city, fallback_district, []).
Proof.
  intros H. unfold parse_city_and_district. rewrite H. cbn [is_empty].
  now rewrite orb_true_r.
Qed.

(** ** What the parser returns *)

(** The remaining address the parser returns has no white space at either
    end, whatever the address and the fallbacks. *)
Theorem parse_remaining_is_stripped address fallback_city fallback_district :
  strip (parse_city_and_district address fallback_city fallback_district).2
  = (parse_city_and_district address fallback_city fallback_district).2.
Proof.
  destruct address as [a|]; [|reflexivity].
  destruct (strip a) as [|c t] eqn:E.
  - now rewrite parse_blank.
  - rewrite parse_unfold by congruence. cbn [snd]. apply strip_idem.
Qed.

(** The parser only cuts: the stripped address is the city it found (if
    any), then the district it found (if any), then a rest of which the
    returned remaining address is the stripped form. A part that was found
    is a city of [CITY_PATTERNS], respectively a match of the district
    pattern, and is returned as it stands in the address. *)
Theorem parse_cuts_stripped_address a fallback_city fallback_district :
  exists c d rest,
    strip a = c ++ d ++ rest /\
    (parse_city_and_district (Some a) fallback_city fallback_district).2
    = strip rest /\
    (c = [] \/
     In c CITY_PATTERNS /\
     (parse_city_and_district (Some a) fallback_city fallback_district).1.1
     = Some c) /\
    (d = [] \/
     district_shaped d /\
     (parse_city_and_district (Some a) fallback_city fallback_district).1.2
     = Some d).
Proof.
  destruct (strip a) as [|x t] eqn:E.
  { exists [], [], []. rewrite parse_blank by exact E. auto. }
  rewrite parse_unfold by congruence. rewrite E. cbv zeta.
  destruct (match_city CITY_PATTERNS (x :: t)) as [city rest] eqn:Hcity.
  cbn [fst snd].
  assert (Hc : exists c, x :: t = c ++ rest /\
            (c = [] \/ In c CITY_PATTERNS /\
                       or_fallback city fallback_city = Some c)).
  { destruct (match_city_inv _ _ _ _ Hcity)
      as [(-> & -> & _)|(p & -> & Hp & Hs)].
    - exists []. auto.
    - exists p. split; [exact Hs|]. right. split; [exact Hp|].
      destruct (city_shape p Hp) as (c1 & c2 & c3 & -> & _). reflexivity. }
  destruct Hc as (c & Hsplit & Hcity').
  destruct (truthy (or_fallback city fallback_city) && (0 <? length rest)%nat).
  - destruct (district_match rest) as [d|] eqn:Hd.
    + apply district_match_inv in Hd as [Hshape Hrest].
      exists c, d, (drop (length d) rest).
      split; [now rewrite <- Hrest|]. split; [reflexivity|].
      split; [exact Hcity'|]. right. split; [exact Hshape|].
      destruct Hshape as (body & s & -> & _). now destruct body.
    + exists c, [], rest. auto.
  - exists c, [], rest. auto.
Qed.

(** Without a city there is no district: when the stripped address starts
    with none of [CITY_PATTERNS] and no fallback city is given, the parser
    does not look for a district at all; it returns no city, the fallback
    district if there is one, and the whole stripped address. *)
Theorem parse_without_city_skips_district a fallback_city fallback_district :
  strip a <> [] ->
  Forall (fun p => startswith (strip a) p = false) CITY_PATTERNS ->
  truthy fallback_city = false ->
  parse_city_and_district (Some a) fallback_city fallback_district
  = (None, if truthy fallback_district then fallback_district else None,
     strip a).
Proof.
  intros Hne Hnone Hfc. rewrite parse_unfold by exact Hne.
  rewrite (match_city_none _ _ Hnone). cbn [fst snd]. cbv zeta.
  assert (Hcity : or_fallback None fallback_city = None)
    by (unfold or_fallback; now rewrite Hfc, andb_false_r).
  rewrite Hcity. cbn [truthy andb]. unfold or_fallback.
  cbn [truthy negb andb]. now rewrite strip_idem.
Qed.

Lemma parse_without_city_skips_district_witness :
  parse_city_and_district (Some (beitou ++ ronghua_road)) None None
  = (None, None, beitou ++ ronghua_road).
Proof.
  apply (parse_without_city_skips_district (beitou ++ ronghua_road) None None).
  - vm_compute. discriminate.
  - vm_compute. repeat constructor.
  - reflexivity.
Defined.

(** A blank address: [''], or white space only, yields the two fallbacks
    as they were given (an empty fallback string included) and an empty
    remaining address. *)
Theorem parse_blank_address_returns_fallbacks
    a fallback_city fallback_district :
  strip a = [] ->
  parse_city_and_district (Some a) fallback_city fallback_district
  = (fallback_city, fallback_district, []) /\
  parse_city_and_district None fallback_city fallback_district
  = (fallback_city, fallback_district, []).
Proof. intros H. split; [now apply parse_blank | reflexivity]. Qed.

Lemma parse_blank_address_returns_fallbacks_witness :
  parse_city_and_district (Some [0x20; 0x3000; 0xA]%N) (Some []) (Some beitou)
  = (Some [], Some beitou, []) /\
  parse_city_and_district None (Some []) (Some beitou)
  = (Some [], Some beitou, []).
Proof.
  apply (parse_blank_address_returns_fallbacks [0x20; 0x3000; 0xA]%N
           (Some []) (Some beitou)).
  reflexivity.
Defined.

(** ** The city normalizer *)

Lemma replace_lookup old new s i :
  replace old new s !! i
  = (fun c => if N.eqb c old then new else c) <$> s !! i.
Proof. unfold replace. apply list_lookup_fmap. Qed.

(** [normalize_city_name] keeps the length of a city name and every
    character but 台, which it turns into 臺: no 台 is left. *)
Theorem normalize_city_leaves_no_simplified_tai s :
  s <> [] ->
  exists s',
    normalize_city_name (Some s) = Some s' /\
    length s' = length s /\
    ~ In c_tai_simp s' /\
    forall i c, s !! i = Some c ->
      s' !! i = Some (if N.eqb c c_tai_simp then c_tai_trad else c).
Proof.
  intros Hne. exists (replace c_tai_simp c_tai_trad s).
  split; [now destruct s|]. split; [apply length_map|]. split.
  - unfold replace. rewrite in_map_iff. intros (c & Hc & _).
    destruct (N.eqb_spec c c_tai_simp) as [E|Hneq]; [discriminate | congruence].
  - intros i c Hi. now rewrite replace_lookup, Hi.
Qed.

Lemma normalize_city_leaves_no_simplified_tai_witness :
  exists s',
    normalize_city_name (Some [c_tai_simp; 0x5317; c_shi]%N) = Some s' /\
    length s' = 3%nat /\
    ~ In c_tai_simp s' /\
    forall i c, [c_tai_simp; 0x5317; c_shi]%N !! i = Some c ->
      s' !! i = Some (if N.eqb c c_tai_simp then c_tai_trad else c).
Proof.
  apply (normalize_city_leaves_no_simplified_tai
           [c_tai_simp; 0x5317; c_shi]%N).
  discriminate.
Defined.

(** The cities of [CITY_PATTERNS] spelled with 臺. *)
Definition standard_city (p : pystr) : Prop :=
  In p CITY_PATTERNS /\ ~ In c_tai_simp p.

Lemma normalize_pattern p :
  In p CITY_PATTERNS ->
  exists q, normalize_city_name (Some p) = Some q /\ standard_city q.
Proof.
  intros H. simpl in H.
  repeat (destruct H as [<-|H];
          [eexists; split; [reflexivity|];
           split; [simpl; tauto | vm_compute; intuition discriminate]|]).
  destruct H.
Qed.

(** Parsing, then normalizing: the city a loader gets from an address alone
    (no fallback city) is [None] or one of the cities of [CITY_PATTERNS]
    spelled with 臺, so the two spellings of a city end up as one. *)
Theorem parsed_city_normalizes_to_standard address fallback_district :
  normalize_city_name
    (parse_city_and_district address None fallback_district).1.1 = None \/
  exists p,
    normalize_city_name
      (parse_city_and_district address None fallback_district).1.1 = Some p /\
    standard_city p.
Proof.
  destruct address as [a|]; [|now left].
  destruct (strip a) as [|x t] eqn:E.
  { rewrite parse_blank by exact E. now left. }
  rewrite parse_unfold by congruence. cbv zeta. cbn [fst snd].
  destruct (match_city CITY_PATTERNS (strip a)) as [city rest] eqn:Hcity.
  cbn [fst].
  destruct (match_city_inv _ _ _ _ Hcity) as [(-> & _)|(p & -> & Hp & _)].
  - now left.
  - right. destruct (city_shape p Hp) as (c1 & c2 & c3 & Ep & _).
    replace (or_fallback (Some p) None) with (Some p) by now rewrite Ep.
    now apply normalize_pattern.
Qed.

End ParseAddressFacts.

(* ===================================================================== *)
(** * More on the clients: what an answer tells about the exchange *)
(* ===================================================================== *)

Module ClientFacts.
Import PyStr Py Http ClientProps.

Lemma bind_return {A B} (m : outcome A) (k : A -> outcome B) b :
  bind m k = Return b -> exists a, m = Return a /\ k a = Return b.
Proof. destruct m as [a|e]; simpl; [eauto | discriminate]. Qed.

Lemma try_except_some {A} (body : outcome (option A)) v :
  try_except body GeocodeClient.on_error = Return (Some v) ->
  body = Return (Some v).
Proof.
  destruct body as [r|e]; simpl; [now intros [= ->]|].
  rewrite on_error_returns. discriminate.
Qed.

Lemma py_get_return v k default w :
  py_get v k default = Return w ->
  exists l, v = JObj l /\
    w = match lookup_key k l with Some x => x | None => default end.
Proof. destruct v; simpl; try discriminate. intros [= <-]. eauto. Qed.

(** [max] returns one of the items. *)
Lemma max_loop_member key rest : forall maxitem maxval best,
  max_loop key maxitem maxval rest = Return best ->
  best = maxitem \/ In best rest.
Proof.
  induction rest as [|item rest IH]; intros maxitem maxval best; simpl.
  - intros [= <-]. now left.
  - intros H. apply bind_return in H as (val & _ & H).
    apply bind_return in H as (gt & _ & H).
    destruct gt; apply IH in H as [->|H]; auto.
Qed.

Lemma py_max_member key v best :
  py_max key v = Return best ->
  exists items, py_iter v = Return items /\ In best items.
Proof.
  unfold py_max. intros H. apply bind_return in H as (items & Hitems & H).
  exists items. split; [exact Hitems|].
  destruct items as [|item rest]; [discriminate|].
  apply bind_return in H as (val & _ & H).
  apply max_loop_member in H as [->|H]; [now left | now right].
Qed.

(** The items of a string or of the keys of a dict have no [get]. *)
Lemma score_needs_object c v :
  GeocodeClient.score c = Return v -> exists l, c = JObj l.
Proof.
  unfold GeocodeClient.score. intros H.
  apply py_get_return in H as (l & -> & _). eauto.
Qed.

Lemma py_max_score_list v best :
  py_truthy v = true ->
  py_max GeocodeClient.score v = Return best ->
  exists cands, v = JArr cands /\ In best cands.
Proof.
  intros Ht H. pose proof H as Hmax.
  apply py_max_member in H as (items & Hitems & Hin).
  unfold py_max in Hmax. rewrite Hitems in Hmax. cbn [bind] in Hmax.
  destruct items as [|item rest]; [discriminate|].
  apply bind_return in Hmax as (val & Hval & _).
  apply score_needs_object in Hval as [l ->].
  destruct v as [|?|?|s|l'|l']; simpl in Hitems; try discriminate.
  - destruct s; discriminate.
  - injection Hitems as ->. eauto.
  - destruct l'; discriminate.
Qed.

(** ** The geocode client *)

(** When [geocode_address] returns coordinates, the request was answered
    with a status that is no HTTP error and a JSON object whose
    ["candidates"] is a non-empty list; the pair returned is the ["x"] and
    the ["y"] of the ["location"] object of one of these candidates, and
    neither is [null]. (Nothing says that they are numbers.) *)
Theorem geocode_answer_comes_from_candidate net address x y :
  GeocodeClient.geocode_address net address = Return (Some (x, y)) ->
  exists a s l cands best fields location,
    address = Some a /\ strip a <> [] /\
    net a = Reply s (Some (JObj l)) /\
    http_error s = false /\
    lookup_key (lit "candidates") l = Some (JArr cands) /\
    In best cands /\
    best = JObj fields /\
    lookup_key (lit "location") fields = Some (JObj location) /\
    lookup_key (lit "x") location = Some x /\
    lookup_key (lit "y") location = Some y /\
    x <> JNull /\ y <> JNull.
Proof.
  unfold GeocodeClient.geocode_address.
  destruct address as [a|]; [|discriminate].
  destruct (negb (truthy (Some a)) || negb (truthy (Some (strip a)))) eqn:Hb;
    [discriminate|].
  intros H. apply try_except_some in H.
  assert (Ha : strip a <> []).
  { intros E. rewrite E in Hb. cbn [truthy negb] in Hb.
    now rewrite orb_true_r in Hb. }
  unfold GeocodeClient.geocode_request in H.
  destruct (net a) as [|s b] eqn:Hnet; [discriminate|].
  cbn [requests_get bind] in H. unfold raise_for_status in H.
  cbn [status_code] in H.
  destruct (http_error s) eqn:Hs; [discriminate|].
  destruct b as [data|]; [|discriminate].
  cbn [bind response_json body] in H.
  apply bind_return in H as (has & Hhas & H).
  destruct has; [|discriminate]. cbn [negb] in H.
  apply bind_return in H as (candidates & Hc & H).
  destruct data as [|?|?|?|?|l]; try discriminate.
  cbn [py_getitem_str] in Hc.
  destruct (lookup_key (lit "candidates") l) as [w|] eqn:Hl; [|discriminate].
  injection Hc as ->.
  destruct (py_truthy candidates) eqn:Ht; [|discriminate]. cbn [negb] in H.
  apply bind_return in H as (best & Hmax & H).
  apply py_max_score_list in Hmax as (cands & -> & Hin); [|exact Ht].
  unfold GeocodeClient.candidate_location in H.
  apply bind_return in H as (loc & Hloc & H).
  apply bind_return in H as (lon & Hlon & H).
  apply bind_return in H as (lat & Hlat & H).
  apply py_get_return in Hloc as (fields & -> & Eloc).
  apply py_get_return in Hlon as (location & -> & Elon).
  apply py_get_return in Hlat as (location' & [= <-] & Elat).
  destruct (GeocodeClient.is_not_none lon) eqn:Nlon; [|discriminate].
  destruct (GeocodeClient.is_not_none lat) eqn:Nlat; [|discriminate].
  injection H as <- <-.
  exists a, s, l, cands, (JObj fields), fields, location.
  repeat split; auto.
  - destruct (lookup_key (lit "location") fields) as [w|]; [now subst|].
    injection Eloc as ->. simpl in Elon. subst lon. discriminate.
  - destruct (lookup_key (lit "x") location); subst lon;
      [reflexivity | discriminate].
  - destruct (lookup_key (lit "y") location); subst lat;
      [reflexivity | discriminate].
  - intros ->. discriminate.
  - intros ->. discriminate.
Qed.

Lemma geocode_answer_comes_from_candidate_witness :
  exists a s l cands best fields location,
    Some (lit "Taipei") = Some a /\ strip a <> [] /\
    sample_net a = Reply s (Some (JObj l)) /\
    http_error s = false /\
    lookup_key (lit "candidates") l = Some (JArr cands) /\
    In best cands /\
    best = JObj fields /\
    lookup_key (lit "location") fields = Some (JObj location) /\
    lookup_key (lit "x") location = Some (JNum 121.5) /\
    lookup_key (lit "y") location = Some (JNum 25.0) /\
    JNum 121.5 <> JNull /\ JNum 25.0 <> JNull.
Proof.
  apply (geocode_answer_comes_from_candidate sample_net (Some (lit "Taipei"))
           (JNum 121.5) (JNum 25.0)).
  reflexivity.
Defined.

(** ** The reverse-geocode client *)

(** When [reverse_geocode] returns an address, both coordinates were given,
    the request was answered with a status that is no HTTP error and a JSON
    object whose ["status"] is ["OK"] and whose ["results"] is a non-empty
    list; the value returned is the ["formatted_address"] of the first
    result, and it is truthy. The other results are never read. *)
Theorem reverse_answer_is_first_result net latitude longitude api_key v :
  ReverseClient.reverse_geocode net latitude longitude api_key
  = Return (Some v) ->
  exists lat lng s l first rest fields,
    latitude = Some lat /\ longitude = Some lng /\
    net {| ReverseClient.req_latitude := lat;
           ReverseClient.req_longitude := lng;
           ReverseClient.req_key := api_key |}
    = Reply s (Some (JObj l)) /\
    http_error s = false /\
    lookup_key (lit "status") l = Some (JStr (lit "OK")) /\
    lookup_key (lit "results") l = Some (JArr (first :: rest)) /\
    first = JObj fields /\
    lookup_key (lit "formatted_address") fields = Some v /\
    py_truthy v = true.
Proof.
  unfold ReverseClient.reverse_geocode.
  destruct latitude as [lat|]; [|discriminate].
  destruct longitude as [lng|]; [|discriminate].
  intros H. apply try_except_some in H.
  unfold ReverseClient.reverse_request in H.
  destruct (net _) as [|s b] eqn:Hnet; [discriminate|].
  cbn [requests_get bind] in H. unfold raise_for_status in H.
  cbn [status_code] in H.
  destruct (http_error s) eqn:Hs; [discriminate|].
  destruct b as [data|]; [|discriminate].
  cbn [bind response_json body] in H.
  apply bind_return in H as (status & Hstatus & H).
  apply py_get_return in Hstatus as (l & -> & Est).
  destruct (py_eq status (JStr (lit "OK"))) eqn:Hok.
  2:{ cbn [negb py_get bind] in H. discriminate. }
  cbn [negb] in H.
  apply bind_return in H as (results & Hres & H).
  apply py_get_return in Hres as (l' & [= <-] & Eres).
  destruct (py_truthy results) eqn:Ht; [|discriminate]. cbn [negb] in H.
  apply bind_return in H as (first & Hfirst & H).
  apply bind_return in H as (formatted & Hfmt & H).
  apply py_get_return in Hfmt as (fields & -> & Efmt).
  destruct (py_truthy formatted) eqn:Htf; [|discriminate].
  injection H as <-.
  assert (Hstatus : lookup_key (lit "status") l = Some (JStr (lit "OK"))).
  { destruct (lookup_key (lit "status") l) as [w|]; subst status;
      [|discriminate].
    destruct w; try discriminate.
    simpl in Hok. apply str_eqb_eq in Hok. now subst. }
  assert (Hresults : exists rest, results = JArr (JObj fields :: rest)).
  { destruct results as [|?|?|[|c s']|[|x rest]|lr]; simpl in Hfirst;
      try discriminate; injection Hfirst as <-. eauto. }
  destruct Hresults as [rest ->].
  exists lat, lng, s, l, (JObj fields), rest, fields.
  repeat split; auto.
  - destruct (lookup_key (lit "results") l); [now subst | discriminate].
  - destruct (lookup_key (lit "formatted_address") fields);
      [now subst | subst; discriminate].
Qed.

(** A service that knows one street. *)
Definition one_street (_ : ReverseClient.latlng_request) : reply :=
  Reply 200
    (Some (JObj [(lit "status", JStr (lit "OK"));
                 (lit "results",
                  JArr [JObj [(lit "formatted_address",
                               JStr (lit "1 Main St"))];
                        JObj [(lit "formatted_address",
                               JStr (lit "2 Side St"))]])])).

Lemma reverse_answer_is_first_result_witness :
  exists lat lng s l first rest fields,
    Some 25.0%Q = Some lat /\ Some 121.5%Q = Some lng /\
    one_street {| ReverseClient.req_latitude := lat;
                  ReverseClient.req_longitude := lng;
                  ReverseClient.req_key := lit "key" |}
    = Reply s (Some (JObj l)) /\
    http_error s = false /\
    lookup_key (lit "status") l = Some (JStr (lit "OK")) /\
    lookup_key (lit "results") l = Some (JArr (first :: rest)) /\
    first = JObj fields /\
    lookup_key (lit "formatted_address") fields
    = Some (JStr (lit "1 Main St")) /\
    py_truthy (JStr (lit "1 Main St")) = true.
Proof.
  apply (reverse_answer_is_first_result one_street (Some 25.0%Q)
           (Some 121.5%Q) (lit "key") (JStr (lit "1 Main St"))).
  reflexivity.
Defined.

(** ** Input the clients do not send *)

(** For an address that is [None], empty or white space only, and for a
    latitude or a longitude that is [None], the clients return [None]
    whatever the network would do: they send no request. *)
Theorem clients_send_nothing_for_blank_input
    net net' a latitude longitude api_key :
  strip a = [] ->
  latitude = None \/ longitude = None ->
  GeocodeClient.geocode_address net None = Return None /\
  GeocodeClient.geocode_address net (Some a) = Return None /\
  ReverseClient.reverse_geocode net' latitude longitude api_key
  = Return None.
Proof.
  intros Ha Hc. split; [reflexivity|]. split.
  - unfold GeocodeClient.geocode_address. rewrite Ha.
    cbn [truthy negb]. now rewrite orb_true_r.
  - unfold ReverseClient.reverse_geocode.
    destruct Hc as [-> | ->]; [reflexivity | now destruct latitude].
Qed.

Lemma clients_send_nothing_for_blank_input_witness :
  GeocodeClient.geocode_address sample_net None = Return None /\
  GeocodeClient.geocode_address sample_net (Some [0x20; 0x9]%N)
  = Return None /\
  ReverseClient.reverse_geocode one_street (Some 25.0%Q) None (lit "key")
  = Return None.
Proof.
  apply (clients_send_nothing_for_blank_input sample_net one_street
           [0x20; 0x9]%N (Some 25.0%Q) None (lit "key")).
  - reflexivity.
  - now right.
Defined.

End ClientFacts.

(* ===================================================================== *)
(** * More on the workers: what they call and what they touch *)
(* ===================================================================== *)

Module WorkerFacts.
Import PyStr Store.

(** A worker calls its client exactly for the items the orchestrator
    selects, once, and for no other: the geocode worker with the address
    of an item that lacks a coordinate, the reverse-geocode worker with the
    two coordinates, both set, of an item whose address is missing or
    empty. *)
Theorem workers_call_client_once_when_selected
    geocode reverse api_key (it : item) (index total : nat) :
  (GeocodeWorker.process_item geocode it index total).2
  = (if GeocodeWorker.missing_coordinates it then [address it] else []) /\
  (ReverseWorker.process_item reverse api_key it index total).2
  = (if ReverseWorker.missing_address it
     then [(latitude it, longitude it)] else []) /\
  (ReverseWorker.missing_address it = true ->
   is_none (latitude it) = false /\ is_none (longitude it) = false).
Proof.
  split; [|split].
  - unfold GeocodeWorker.process_item, GeocodeWorker.missing_coordinates.
    destruct (latitude it), (longitude it); cbn [is_none negb andb orb];
      try reflexivity; now destruct (geocode (address it)) as [[? ?]|].
  - unfold ReverseWorker.process_item, ReverseWorker.missing_address.
    destruct (truthy (address it)); cbn [negb andb]; [reflexivity|].
    destruct (latitude it), (longitude it); cbn [is_none negb andb orb];
      try reflexivity.
    destruct (reverse _ _ api_key) as [[|c a]|]; reflexivity.
  - unfold ReverseWorker.missing_address.
    destruct (latitude it), (longitude it); cbn [is_none negb andb];
      rewrite ?andb_false_r; auto; discriminate.
Qed.

(** A worker returns the index it was given and leaves alone what is not
    its business: the geocode worker keeps the name, the address and the
    other keys of the item and never clears a coordinate; the
    reverse-geocode worker keeps the name, the coordinates and the other
    keys, replaces only an address that is missing or empty, and only by
    one that is not empty. *)
Theorem workers_touch_only_their_fields
    geocode reverse api_key (it : item) (index total : nat) :
  let g := (GeocodeWorker.process_item geocode it index total).1 in
  let r := (ReverseWorker.process_item reverse api_key it index total).1 in
  (g.1.1 = index /\
   name g.1.2 = name it /\ address g.1.2 = address it /\
   other g.1.2 = other it /\
   (is_none (latitude it) = false -> is_none (latitude g.1.2) = false) /\
   (is_none (longitude it) = false -> is_none (longitude g.1.2) = false)) /\
  (r.1.1 = index /\
   name r.1.2 = name it /\ latitude r.1.2 = latitude it /\
   longitude r.1.2 = longitude it /\ other r.1.2 = other it /\
   (address r.1.2 = address it \/
    truthy (address it) = false /\ truthy (address r.1.2) = true)).
Proof.
  cbv zeta. split.
  - unfold GeocodeWorker.process_item.
    destruct (negb (is_none (latitude it)) && negb (is_none (longitude it)));
      [cbn; auto 10|].
    destruct (geocode (address it)) as [[lon lat]|]; cbn; auto 10.
  - unfold ReverseWorker.process_item.
    destruct (truthy (address it)) eqn:Ha; [cbn; auto 10|].
    destruct (is_none (latitude it) || is_none (longitude it));
      [cbn; auto 10|].
    destruct (reverse _ _ api_key) as [[|c a]|]; cbn; auto 10.
Qed.

End WorkerFacts.
(* ===================================================================== *)
(** * More on the runs: what is written, and when nothing is *)
(* ===================================================================== *)

Module RunFacts.
Import PyStr Store Orchestrator OrchestratorProps RunProps.

(** ** The snapshots a run writes *)

(** What the geocode worker leaves as it is, and what the reverse-geocode
    worker does. *)
Definition same_but_coordinates (o c : item) : Prop :=
  name c = name o /\ address c = address o /\ other c = other o.

Definition same_but_address (o c : item) : Prop :=
  name c = name o /\ latitude c = latitude o /\
  longitude c = longitude o /\ other c = other o.

Lemma geocode_progress_frame geocode o c ph :
  WorkerProps.geocode_progress geocode o c ph -> same_but_coordinates o c.
Proof.
  destruct ph as [|r|lon lat|r]; simpl.
  - intros ->. repeat split.
  - intros (-> & _). repeat split.
  - intros (-> & _). repeat split.
  - intros (-> & _). unfold WorkerProps.geocoded, GeocodeWorker.process_item.
    destruct (_ && _); [repeat split|].
    destruct (geocode (address o)) as [[lon lat]|]; repeat split.
Qed.

Lemma reverse_progress_frame reverse api_key o c ph :
  WorkerProps.reverse_progress reverse api_key o c ph -> same_but_address o c.
Proof.
  destruct ph as [|r|r]; simpl.
  - intros ->. repeat split.
  - intros (-> & _). repeat split.
  - intros (-> & _). unfold WorkerProps.addressed, ReverseWorker.process_item.
    destruct (truthy (address o)); [repeat split|].
    destruct (_ || _); [repeat split|].
    destruct (reverse _ _ api_key) as [[|x a]|]; repeat split.
Qed.

Section Snapshots.

Context {W : Worker}.
Variable cfg : config.
Variable input : snapshot_of record.
Variable progress : record -> record -> phase -> Prop.
Hypothesis progress_start : forall o, progress o o start.
Hypothesis progress_step : forall o c ph,
  progress o c ph -> progress o (wstep c ph).1 (wstep c ph).2.
Variable R : record -> record -> Prop.
Hypothesis R_refl : forall o, R o o.
Hypothesis R_progress : forall o c ph, progress o c ph -> R o c.

Lemma saved_snapshots (s : state W) :
  reachable cfg input s ->
  Forall (fun snap =>
            total_count snap = Some (Z.of_nat (length (data input))) /\
            Forall2 R (data input) (data snap)) (saves s) /\
  (forall snap,
     file s = Whole snap ->
     snap = input /\ saves s = [] \/ exists rest, saves s = snap :: rest) /\
  (returned_normally s = true -> exists snap, file s = Whole snap).
Proof.
  intros Hreach. split; [|split].
  - exact (saves_written cfg input progress progress_start progress_step
             R R_refl R_progress s Hreach).
  - intros snap Hf.
    destruct (file_shape_reachable cfg input progress progress_start
                progress_step s Hreach)
      as [[Hf' Hs]|[(snap' & rest & Hf' & Hs)|(Hf' & _)]];
      rewrite Hf in Hf'; try discriminate; injection Hf' as ->; eauto.
  - intros Hret.
    assert (Hinv : inv cfg input progress s) by now apply inv_reachable.
    destruct (inv_final _ _ _ _ Hinv Hret) as (snap & Hf & _). eauto.
Qed.

End Snapshots.

(** Every snapshot a run writes in full, at a periodic save, at the final
    save or in the interruption handler, holds as many items as were
    loaded, in the same order, with [total_count] set to their number,
    whatever it was in the file that was loaded. A geocoding run changes
    nothing in an item but its coordinates; a reverse-geocoding run nothing
    but its address. Whenever the file is whole, it is the one that was
    loaded, as long as nothing was written, and the last snapshot written
    afterwards; and it is whole when the run returns. *)
Theorem run_writes_whole_snapshots
    geocode reverse api_key cfg input input' s s' :
  geocode_nursing_rooms geocode cfg input s ->
  reverse_geocode_playgrounds reverse api_key cfg input' s' ->
  (Forall (fun snap =>
             total_count snap = Some (Z.of_nat (length (data input))) /\
             Forall2 same_but_coordinates (data input) (data snap))
     (saves s) /\
   (forall snap : snapshot,
      file s = Whole snap ->
      snap = input /\ saves s = [] \/ exists rest, saves s = snap :: rest) /\
   (returned_normally s = true ->
    exists snap : snapshot, file s = Whole snap))
  /\
  (Forall (fun snap =>
             total_count snap = Some (Z.of_nat (length (data input'))) /\
             Forall2 same_but_address (data input') (data snap))
     (saves s') /\
   (forall snap : snapshot,
      file s' = Whole snap ->
      snap = input' /\ saves s' = [] \/ exists rest, saves s' = snap :: rest) /\
   (returned_normally s' = true ->
    exists snap : snapshot, file s' = Whole snap)).
Proof.
  intros Hs Hs'. split.
  - apply (saved_snapshots (W := GeocodeWorker.geocode_worker geocode)
             cfg input (WorkerProps.geocode_progress geocode)
             (WorkerProps.geocode_progress_start geocode)
             (WorkerProps.geocode_progress_step geocode)
             same_but_coordinates); [| |exact Hs].
    + intros o. repeat split.
    + apply geocode_progress_frame.
  - apply (saved_snapshots (W := ReverseWorker.reverse_worker reverse api_key)
             cfg input' (WorkerProps.reverse_progress reverse api_key)
             (WorkerProps.reverse_progress_start reverse api_key)
             (WorkerProps.reverse_progress_step reverse api_key)
             same_but_address); [| |exact Hs'].
    + intros o. repeat split.
    + apply reverse_progress_frame.
Qed.

Lemma run_writes_whole_snapshots_witness :
  let s := run_of (W := GeocodeWorker.geocode_worker RunClaims.taipei_client)
             RunClaims.default_config (RunClaims.one_item RunClaims.unlocated)
             RunClaims.one_job_answered in
  let s' := run_of (W := ReverseWorker.reverse_worker RunClaims.some_street
                           (Py.lit "key"))
              RunClaims.default_config
              (RunClaims.one_item RunClaims.unaddressed)
              [Work 0; Work 0; Take 0; Finish; Written] in
  (Forall (fun snap =>
             total_count snap = Some 1%Z /\
             Forall2 same_but_coordinates [RunClaims.unlocated] (data snap))
     (saves s) /\
   (forall snap : snapshot,
      file s = Whole snap ->
      snap = RunClaims.one_item RunClaims.unlocated /\ saves s = [] \/
      exists rest, saves s = snap :: rest) /\
   (returned_normally s = true ->
    exists snap : snapshot, file s = Whole snap))
  /\
  (Forall (fun snap =>
             total_count snap = Some 1%Z /\
             Forall2 same_but_address [RunClaims.unaddressed] (data snap))
     (saves s') /\
   (forall snap : snapshot,
      file s' = Whole snap ->
      snap = RunClaims.one_item RunClaims.unaddressed /\ saves s' = [] \/
      exists rest, saves s' = snap :: rest) /\
   (returned_normally s' = true ->
    exists snap : snapshot, file s' = Whole snap)).
Proof.
  apply (run_writes_whole_snapshots RunClaims.taipei_client
           RunClaims.some_street (Py.lit "key") RunClaims.default_config
           (RunClaims.one_item RunClaims.unlocated)
           (RunClaims.one_item RunClaims.unaddressed)).
  - apply run_of_reachable.
  - apply run_of_reachable.
Defined.

(** The final save opens the file before it writes it: an interruption of
    the write leaves a file that is cut short, and the run ends there. The
    same holds of the save of the interruption handler. *)
Lemma interrupted_write_cuts_file_short :
  let s := run_from (W := GeocodeWorker.geocode_worker RunClaims.taipei_client)
             RunClaims.default_config (RunClaims.one_item RunClaims.unlocated)
             [Submit; Work 0; Work 0; Work 0; Take 0; Finish; Tear] in
  let s' := run_from
              (W := GeocodeWorker.geocode_worker RunClaims.taipei_client)
              RunClaims.default_config
              (RunClaims.one_item RunClaims.unlocated)
              [Submit; Interrupt; Work 0; Work 0; Work 0; Join; Tear] in
  geocode_nursing_rooms RunClaims.taipei_client RunClaims.default_config
    (RunClaims.one_item RunClaims.unlocated) s /\
  run_mode s = Crashed /\ failure s = Some WriteInterrupted /\
  file s = Torn /\
  geocode_nursing_rooms RunClaims.taipei_client RunClaims.default_config
    (RunClaims.one_item RunClaims.unlocated) s' /\
  run_mode s' = Crashed /\ failure s' = Some WriteInterrupted /\
  file s' = Torn.
Proof.
  split; [apply run_from_reachable|]. do 3 (split; [reflexivity|]).
  split; [apply run_from_reachable|]. repeat split.
Qed.

(** ** Runs that end before the loop *)

(** When no loaded item is selected (for either orchestrator: every item
    has what the run would add), the run returns at once: it submits no
    job and does not write the file, so that even a ["total_count"] that is
    missing or wrong stays as it is. *)
Theorem run_with_nothing_to_do_writes_nothing
    {W : Worker} cfg input (s : state W) :
  Forall (fun o => selected o = false) (data input) ->
  reachable cfg input s ->
  run_mode s = Completed /\ dispatched s = 0%nat /\
  file s = input /\ saves s = [].
Proof.
  intros Hnone Hreach.
  destruct (idle_run cfg input s Hnone Hreach) as (_ & _ & Hm & Hj & Hf & Hs).
  unfold dispatched. rewrite Hj. auto.
Qed.

Lemma run_with_nothing_to_do_writes_nothing_witness :
  let input := {| total_count := Some 7%Z;
                  data := [WorkerProps.sample_complete] |} in
  let s := start_run (W := GeocodeWorker.geocode_worker RunClaims.no_answer)
             RunClaims.default_config input in
  run_mode s = Completed /\ dispatched s = 0%nat /\
  file s = input /\ saves s = [].
Proof.
  intros input s.
  apply (run_with_nothing_to_do_writes_nothing
           (W := GeocodeWorker.geocode_worker RunClaims.no_answer)
           RunClaims.default_config input s).
  - repeat constructor.
  - apply start_run_reachable.
Defined.

(** With [max_workers] at 0 or below and an item to process, the creation
    of the thread pool raises: the run ends there, with no job submitted
    and the file as it was loaded. *)
Theorem run_without_threads_writes_nothing
    {W : Worker} cfg input (s : state W) :
  (max_workers cfg <= 0)%Z ->
  Exists (fun o => selected o = true) (data input) ->
  reachable cfg input s ->
  run_mode s = Crashed /\ dispatched s = 0%nat /\
  file s = input /\ saves s = [].
Proof.
  intros Hpool Hsome Hreach.
  destruct (no_pool_run cfg input s Hpool Hsome Hreach)
    as (_ & _ & Hm & Hj & Hf & Hs).
  unfold dispatched. rewrite Hj. auto.
Qed.

Lemma run_without_threads_writes_nothing_witness :
  let cfg := {| max_workers := 0; batch_size := 100; save_interval := 50 |} in
  let input := RunClaims.one_item RunClaims.unlocated in
  let s := start_run (W := GeocodeWorker.geocode_worker RunClaims.no_answer)
             cfg input in
  run_mode s = Crashed /\ dispatched s = 0%nat /\
  file s = input /\ saves s = [].
Proof.
  intros cfg input s.
  apply (run_without_threads_writes_nothing
           (W := GeocodeWorker.geocode_worker RunClaims.no_answer)
           cfg input s).
  - simpl. lia.
  - constructor. reflexivity.
  - apply start_run_reachable.
Defined.

(** ** A [batch_size] of 0 *)

Section ZeroBatch.

Context {W : Worker}.
Variable cfg : config.
Variable input : snapshot_of record.
Hypothesis zero : batch_size cfg = 0%Z.
Hypothesis some : Exists (fun o => selected o = true) (data input).

Implicit Types s : state W.





End ZeroBatch.



(** ** A [save_interval] of 1 or below *)

Section EveryResult.

Context {W : Worker}.
Variable cfg : config.
Variable input : snapshot_of record.
Hypothesis small : (save_interval cfg <= 1)%Z.

Implicit Types s : state W.


End EveryResult.



(** ** What is in the file stays in the file *)

Section Monotone.

Context {W : Worker}.
Variable cfg : config.
Variable input : snapshot_of record.

(** What a later state of an item keeps of an earlier one. *)
Variable keeps : record -> record -> Prop.
Hypothesis keeps_refl : forall a, keeps a a.
Hypothesis keeps_trans : forall a b c, keeps a b -> keeps b c -> keeps a c.
Hypothesis wstep_keeps : forall c ph, keeps c (wstep c ph).1.

Implicit Types s : state W.

#[local] Abbreviation plain_inv := (inv cfg input (fun _ _ _ => True)).

Lemma Forall2_keeps_refl (l : list record) : Forall2 keeps l l.
Proof. apply Forall_Forall2_diag, Forall_forall. auto. Qed.

Lemma Forall2_keeps_trans (l1 l2 l3 : list record) :
  Forall2 keeps l1 l2 -> Forall2 keeps l2 l3 -> Forall2 keeps l1 l3.
Proof.
  intros H12. revert l3. induction H12 as [|a b l1 l2 Hab _ IH];
    intros l3 H23; inversion H23; subst; constructor; eauto.
Qed.

Lemma Forall2_keeps_insert (l1 l2 : list record) r it c :
  Forall2 keeps l1 l2 -> l2 !! r = Some it -> keeps it c ->
  Forall2 keeps l1 (<[r := c]> l2).
Proof.
  intros H. revert r. induction H as [|a b l1 l2 Hab H12 IH]; intros [|r];
    simpl; try discriminate.
  - intros [= ->] Hc. constructor; [eauto | assumption].
  - intros Hr Hc. constructor; [assumption | now apply IH].
Qed.

(** A step changes one object of the heap at most, by a step of its
    worker. *)
Lemma step_heap s s' :
  step cfg s s' ->
  heap s' = heap s \/
  exists k j it,
    jobs s !! k = Some j /\ heap s !! j_item j = Some it /\
    heap s' = <[j_item j := (wstep it (j_phase j)).1]> (heap s) /\
    file s' = file s.
Proof.
  intros Hstep. apply step_kinds in Hstep.
  destruct Hstep as
    [ir rest _ _ -> | k j it _ Hk _ Hit -> | k j d _ _ _ _ ->
    | (Hh & _) _ _ _ _ | (Hh & _) _ _ _ | (Hh & _) _ _ _]; auto.
  - right. exists k, j, it. auto.
  - left. apply heap_on_completed.
Qed.

Lemma step_heap_keeps s s' :
  step cfg s s' -> Forall2 keeps (heap s) (heap s').
Proof.
  intros Hstep.
  destruct (step_heap s s' Hstep) as [->|(k & j & it & _ & Hit & -> & _)].
  - apply Forall2_keeps_refl.
  - eapply Forall2_keeps_insert; eauto. apply Forall2_keeps_refl.
Qed.

Lemma later_heap_keeps s s' :
  rtc (step cfg) s s' -> Forall2 keeps (heap s) (heap s').
Proof.
  induction 1 as [s0|s0 s1 s2 Hstep _ IH]; [apply Forall2_keeps_refl|].
  eapply Forall2_keeps_trans; [|exact IH]. now apply step_heap_keeps.
Qed.

(** The file, when it is whole, is behind the heap. *)
Lemma file_behind_heap s snap :
  reachable cfg input s -> file s = Whole snap ->
  Forall2 keeps (data snap) (heap s).
Proof.
  intros H. revert snap. unfold reachable in H.
  eapply (rtc_ind_r (fun s => forall snap, file s = Whole snap ->
            Forall2 keeps (data snap) (heap s))); [| |exact H].
  - intros snap [= <-]. apply Forall2_keeps_refl.
  - intros y z Hy Hstep IH snap Hf.
    assert (Hinv : plain_inv y) by (apply inv_reachable; auto).
    destruct (step_heap y z Hstep)
      as [Hsame|(k & j & it & Hk & Hit & Hz & Hfile)].
    + rewrite Hsame.
      destruct (step_file cfg input _ y z Hinv Hstep)
        as [[Ef _]|[(Ef & _)|[Ef _]]]; rewrite Ef in Hf.
      * now apply IH.
      * discriminate.
      * injection Hf as <-. rewrite (inv_dump cfg input _ y Hinv).
        apply Forall2_keeps_refl.
    + rewrite Hz. rewrite Hfile in Hf.
      eapply Forall2_keeps_insert; eauto.
Qed.

Lemma later_file_keeps s s' a b :
  reachable cfg input s -> rtc (step cfg) s s' ->
  file s = Whole a -> file s' = Whole b ->
  Forall2 keeps (data a) (data b).
Proof.
  intros Hreach H Ha. revert b.
  eapply (rtc_ind_r (fun s' => forall b, file s' = Whole b ->
            Forall2 keeps (data a) (data b))); [| |exact H].
  - intros b Hb. rewrite Ha in Hb. injection Hb as <-.
    apply Forall2_keeps_refl.
  - intros y z Hy Hstep IH b Hb.
    assert (Hry : reachable cfg input y)
      by (unfold reachable in *; etransitivity; eauto).
    assert (Hinv : plain_inv y) by (apply inv_reachable; auto).
    destruct (step_file cfg input _ y z Hinv Hstep)
      as [[Ef _]|[(Ef & _)|[Ef _]]]; rewrite Ef in Hb.
    + now apply IH.
    + discriminate.
    + injection Hb as <-. rewrite (inv_dump cfg input _ y Hinv).
      cbn [data].
      apply Forall2_keeps_trans with (heap s).
      * now apply file_behind_heap.
      * now apply later_heap_keeps.
Qed.

End Monotone.

(** A coordinate that an item has in the file has it at every later point
    of a geocoding run (its value may be replaced, it is never removed). *)
Definition keeps_coordinates (a b : item) : Prop :=
  (is_none (latitude a) = false -> is_none (latitude b) = false) /\
  (is_none (longitude a) = false -> is_none (longitude b) = false).

(** An address that is not empty in the file stays not empty. *)
Definition keeps_address (a b : item) : Prop :=
  truthy (address a) = true -> truthy (address b) = true.

Lemma gstep_keeps geocode c ph :
  keeps_coordinates c (GeocodeWorker.gstep geocode c ph).1.
Proof.
  unfold keeps_coordinates.
  destruct ph as [|[[lon lat]|]|lon lat|r]; cbn [GeocodeWorker.gstep];
    [destruct (negb _ && negb _)|..]; cbn; auto.
Qed.

Lemma rstep_keeps reverse api_key c ph :
  keeps_address c (ReverseWorker.rstep reverse api_key c ph).1.
Proof.
  unfold keeps_address.
  intros H.
  destruct ph as [|[[|x a]|]|r]; cbn [ReverseWorker.rstep]; cbn; auto.
  now rewrite H.
Qed.

(** Whatever the scheduling, what the file holds at one point of a run it
    still holds at any later point at which it is whole: an item that has
    a latitude or a longitude (in a geocoding run), or an address that is
    not empty (in a reverse-geocoding run), still has one. *)
Theorem file_never_loses_what_it_holds
    geocode reverse api_key cfg input input' s1 s2 s1' s2' :
  geocode_nursing_rooms geocode cfg input s1 ->
  rtc (step cfg) s1 s2 ->
  reverse_geocode_playgrounds reverse api_key cfg input' s1' ->
  rtc (step cfg) s1' s2' ->
  (forall a b : snapshot,
     file s1 = Whole a -> file s2 = Whole b ->
     Forall2 keeps_coordinates (data a) (data b)) /\
  (forall a b : snapshot,
     file s1' = Whole a -> file s2' = Whole b ->
     Forall2 keeps_address (data a) (data b)).
Proof.
  intros H1 H12 H1' H12'. split.
  - intros a b.
    apply (later_file_keeps (W := GeocodeWorker.geocode_worker geocode)
             cfg input keeps_coordinates); auto.
    + intros x. split; auto.
    + intros x y z [Hab1 Hab2] [Hbc1 Hbc2]. split; auto.
    + apply gstep_keeps.
  - intros a b.
    apply (later_file_keeps
             (W := ReverseWorker.reverse_worker reverse api_key)
             cfg input' keeps_address); auto.
    + intros x H. exact H.
    + intros x y z Hab Hbc H. auto.
    + apply rstep_keeps.
Qed.

Lemma file_never_loses_what_it_holds_witness :
  let cfg := {| max_workers := 10; batch_size := 100; save_interval := 1 |} in
  let input := {| total_count := None;
                  data := [RunClaims.unlocated; RunClaims.unlocated] |} in
  let input' := RunClaims.one_item RunClaims.unaddressed in
  let worker := GeocodeWorker.geocode_worker RunClaims.taipei_client in
  let worker' :=
    ReverseWorker.reverse_worker RunClaims.some_street (Py.lit "key") in
  (forall a b : snapshot,
     file (run_of (W := worker) cfg input [Work 0; Work 0; Work 0; Take 0])
     = Whole a ->
     file (run_of (W := worker) cfg input
             [Work 0; Work 0; Work 0; Take 0;
              Work 1; Work 1; Work 1; Take 1; Finish; Written])
     = Whole b ->
     Forall2 keeps_coordinates (data a) (data b)) /\
  (forall a b : snapshot,
     file (run_of (W := worker') cfg input' []) = Whole a ->
     file (run_of (W := worker') cfg input'
             [Work 0; Work 0; Take 0; Finish; Written]) = Whole b ->
     Forall2 keeps_address (data a) (data b)).
Proof.
  intros cfg input input' worker worker'.
  apply (file_never_loses_what_it_holds RunClaims.taipei_client
           RunClaims.some_street (Py.lit "key") cfg input input').
  - apply run_of_reachable.
  - apply (schedule_steps (W := worker) cfg
             [Work 1; Work 1; Work 1; Take 1; Finish; Written]).
    vm_compute. reflexivity.
  - apply run_of_reachable.
  - apply (schedule_steps (W := worker') cfg
             [Work 0; Work 0; Take 0; Finish; Written]).
    vm_compute. reflexivity.
Defined.

(** ** The counters of the summary *)

(** The figures of the summary are right: at every point of a run, for
    either orchestrator, the number of successes is at most the number of
    results counted, which is at most the number of jobs submitted so far;
    a pool that could be created is given one job for each selected item,
    those submitted and those still to submit; and a run that reaches the
    final save has submitted them all and counted them all. *)
Theorem run_counts_every_job {W : Worker} cfg input (s : state W) :
  reachable cfg input s ->
  (0 <= success_count s <= processed_count s)%Z /\
  (processed_count s <= Z.of_nat (dispatched s))%Z /\
  (dispatched s + length (pending s))%nat
  = (if (0 <? max_workers cfg)%Z
     then length (List.filter selected (data input)) else 0%nat) /\
  (run_mode s = Completed ->
   pending s = [] /\ processed_count s = Z.of_nat (dispatched s)).
Proof.
  intros Hreach.
  destruct (counted_reachable cfg input s Hreach) as (Hp & Hs).
  assert (Hinv : inv cfg input (fun _ _ _ => True) s)
    by (apply inv_reachable; auto).
  rewrite Hp, Hs. unfold taken, taken_with_success.
  split; [|split; [|split]].
  - split; [lia|]. apply inj_le, filter_length_impl.
    intros j H. now apply andb_true_iff in H as [H _].
  - unfold dispatched. apply inj_le, filter_length_le.
  - now apply dispatched_reachable.
  - intros Hmode. split; [apply (inv_loop _ _ _ _ Hinv); auto|].
    unfold dispatched. rewrite filter_all; [reflexivity|].
    apply (inv_done _ _ _ _ Hinv). auto.
Qed.

Lemma run_counts_every_job_witness :
  let cfg := RunClaims.default_config in
  let input := {| total_count := None;
                  data := [RunClaims.unlocated; WorkerProps.sample_complete;
                           RunClaims.unlocated] |} in
  let s := run_from (W := GeocodeWorker.geocode_worker RunClaims.taipei_client)
             cfg input
             [Submit; Work 0; Work 0; Work 0; Submit; Take 0;
              Work 1; Work 1; Work 1; Take 1; Finish; Written] in
  (0 <= success_count s <= processed_count s)%Z /\
  (processed_count s <= Z.of_nat (dispatched s))%Z /\
  (dispatched s + length (pending s))%nat = 2%nat /\
  (run_mode s = Completed ->
   pending s = [] /\ processed_count s = Z.of_nat (dispatched s)).
Proof.
  intros cfg input s.
  apply (run_counts_every_job
           (W := GeocodeWorker.geocode_worker RunClaims.taipei_client)
           cfg input s).
  apply run_from_reachable.
Defined.

(** An interruption while the jobs are submitted leaves selected items
    without a job: the run returns with fewer jobs than selected items. *)
Lemma interrupted_submission_counts_less :
  let input := {| total_count := Some 3%Z;
                  data := [RunClaims.unlocated; RunClaims.unlocated;
                           RunClaims.unlocated] |} in
  let s := run_from (W := GeocodeWorker.geocode_worker RunClaims.taipei_client)
             RunClaims.default_config input
             [Submit; Interrupt; Work 0; Work 0; Work 0; Join; Written] in
  run_mode s = Interrupted /\ dispatched s = 1%nat /\
  length (pending s) = 2%nat /\ processed_count s = 0%Z.
Proof. repeat split. Qed.

(** ** The reverse-geocoding run *)

Section ReverseRun.

Variable reverse : option Q -> option Q -> pystr -> option pystr.
Variable api_key : pystr.

Import ReverseWorker.

(** What [process_item] made of the loaded item [o]. *)
Definition readdressed (o c : item) : Prop :=
  (c = o /\
   (missing_address o = false \/
    truthy (reverse (latitude o) (longitude o) api_key) = false)) \/
  (exists a,
     missing_address o = true /\
     reverse (latitude o) (longitude o) api_key = Some a /\
     a <> [] /\
     c = set_address a o).

Lemma addressed_cases o : readdressed o (WorkerProps.addressed reverse api_key o).
Proof.
  unfold readdressed, WorkerProps.addressed, process_item, missing_address.
  destruct (truthy (address o)); cbn [negb andb]; [auto|].
  destruct (latitude o) as [lat|], (longitude o) as [lng|];
    cbn [is_none negb andb orb]; auto.
  destruct (reverse (Some lat) (Some lng) api_key) as [[|x a]|] eqn:E;
    cbn [truthy]; auto.
  right. exists (x :: a). repeat split; auto; discriminate.
Qed.

Lemma addressed_complete o :
  (forall lat lng, truthy (reverse (Some lat) (Some lng) api_key) = true) ->
  missing_address (WorkerProps.addressed reverse api_key o) = false.
Proof.
  intros Htotal.
  destruct (addressed_cases o) as [[-> [H|H]]|(a & _ & _ & Ha & ->)].
  - exact H.
  - unfold missing_address.
    destruct (latitude o) as [lat|], (longitude o) as [lng|];
      cbn [is_none negb andb]; rewrite ?andb_false_r; auto.
    now rewrite Htotal in H.
  - unfold missing_address. cbn [set_address address].
    destruct a; [congruence | reflexivity].
Qed.


End ReverseRun.



(** With a client that has an address that is not empty for every pair of
    coordinates, a pool of at least one thread and a [batch_size] other
    than 0, some reverse-geocoding run returns after the final save; and
    every run that does leaves a file in which no item with both
    coordinates lacks an address, so that a second run over this file
    selects no item: it submits no job and returns at once, the file
    untouched. *)
Theorem second_reverse_run_is_idle reverse api_key cfg cfg' input :
  (forall lat lng, truthy (reverse (Some lat) (Some lng) api_key) = true) ->
  (0 < max_workers cfg)%Z ->
  batch_size cfg <> 0%Z ->
  (exists s,
     reverse_geocode_playgrounds reverse api_key cfg input s /\
     run_mode s = Completed) /\
  forall s,
    reverse_geocode_playgrounds reverse api_key cfg input s ->
    run_mode s = Completed ->
    exists snap : snapshot,
      file s = Whole snap /\
      Forall (fun it => truthy (address it) = true \/
                        is_none (latitude it) = true \/
                        is_none (longitude it) = true) (data snap) /\
      forall s2,
        reverse_geocode_playgrounds reverse api_key cfg' snap s2 ->
        dispatched s2 = 0%nat /\ run_mode s2 = Completed /\
        file s2 = Whole snap /\ saves s2 = [].
Proof.
  intros Htotal Hpool Hbatch.
  split.
  - apply (run_completes
             (W := ReverseWorker.reverse_worker reverse api_key)
             (L := WorkerProps.reverse_worker_laws reverse api_key) cfg input
             (WorkerProps.reverse_progress reverse api_key)); auto.
    + apply WorkerProps.reverse_progress_start.
    + apply WorkerProps.reverse_progress_step.
    + intros ph e. destruct ph; discriminate.
  - intros s Hreach Hmode.
    pose proof (reverse_inv reverse api_key cfg input s Hreach) as Hinv.
    assert (Hret : returned_normally s = true)
      by (unfold returned_normally; now rewrite Hmode).
    pose proof (completed_all_done
                  (W := ReverseWorker.reverse_worker reverse api_key)
                  cfg input _ s Hinv Hmode) as Hdone.
    destruct (returned_file
                (W := ReverseWorker.reverse_worker reverse api_key)
                cfg input _ s Hinv Hret) as (snap & Hf & Hd & _).
    assert (E : data snap
                = WorkerProps.addressed reverse api_key <$> data input).
    { etransitivity; [exact Hd|].
      apply (reverse_run_heap reverse api_key cfg input s); auto.
      rewrite Hmode. discriminate. }
    assert (Hcomplete :
      Forall (fun o : item => ReverseWorker.missing_address o = false)
        (data snap)).
    { refine (eq_ind_r
                (Forall (fun o : item =>
                           ReverseWorker.missing_address o = false)) _ E).
      apply Forall_fmap, Forall_forall. intros o _.
      now apply addressed_complete. }
    exists snap. split; [exact Hf|]. split.
    + eapply Forall_impl; [exact Hcomplete|]. intros o Ho.
      unfold ReverseWorker.missing_address in Ho.
      destruct (truthy (address o)); [now left|]. right.
      destruct (is_none (latitude o)); [now left|]. right.
      destruct (is_none (longitude o)); [reflexivity | discriminate].
    + intros s2 Hs2.
      destruct (idle_run (W := ReverseWorker.reverse_worker reverse api_key)
                  cfg' snap s2 Hcomplete Hs2) as (_ & _ & Hm & Hj & Hf2 & Hs).
      unfold dispatched. rewrite Hj. auto.
Qed.

Lemma second_reverse_run_is_idle_witness :
  let cfg := RunClaims.default_config in
  let input := RunClaims.one_item RunClaims.unaddressed in
  (exists s,
     reverse_geocode_playgrounds RunClaims.some_street (Py.lit "key")
       cfg input s /\
     run_mode s = Completed) /\
  forall s,
    reverse_geocode_playgrounds RunClaims.some_street (Py.lit "key")
      cfg input s ->
    run_mode s = Completed ->
    exists snap : snapshot,
      file s = Whole snap /\
      Forall (fun it => truthy (address it) = true \/
                        is_none (latitude it) = true \/
                        is_none (longitude it) = true) (data snap) /\
      forall s2,
        reverse_geocode_playgrounds RunClaims.some_street (Py.lit "key")
          cfg snap s2 ->
        dispatched s2 = 0%nat /\ run_mode s2 = Completed /\
        file s2 = Whole snap /\ saves s2 = [].
Proof.
  intros cfg input.
  apply (second_reverse_run_is_idle RunClaims.some_street (Py.lit "key")
           cfg cfg input).
  - reflexivity.
  - reflexivity.
  - discriminate.
Defined.

End RunFacts.

(* ===================================================================== *)
(** * The API key *)
(* ===================================================================== *)

Module ApiKeyFacts.
Import PyStr Py ApiKey.

Lemma split_once_app sep a b :
  ~ In sep a -> split_once sep (a ++ sep :: b) = [a; b].
Proof.
  induction a as [|c a IH]; simpl; intros Hnot.
  - now rewrite N.eqb_refl.
  - destruct (N.eqb_spec c sep) as [->|Hne]; [tauto|].
    rewrite IH by tauto. reflexivity.
Qed.

Definition spellings : list pystr :=
  [lit "key"; lit "API_KEY"; lit "GOOGLE_API_KEY"].

Lemma is_key_line_inv line :
  is_key_line line = true ->
  exists spelling value,
    In spelling spellings /\ line = spelling ++ c_equals :: value.
Proof.
  unfold is_key_line. rewrite !orb_true_iff.
  intros [[H|H]|H]; apply ParseAddressFacts.startswith_app in H.
  - exists (lit "key"), (drop 4 line). split; [simpl; tauto | exact H].
  - exists (lit "API_KEY"), (drop 8 line). split; [simpl; tauto | exact H].
  - exists (lit "GOOGLE_API_KEY"), (drop 15 line).
    split; [simpl; tauto | exact H].
Qed.

Lemma spelling_has_no_equals spelling :
  In spelling spellings -> ~ In c_equals spelling.
Proof.
  intros H. simpl in H.
  repeat (destruct H as [<-|H]; [vm_compute; intuition discriminate|]).
  destruct H.
Qed.

(** What the loop returns at a line that names the key. *)
Lemma key_line_value line :
  is_key_line line = true ->
  exists spelling value,
    In spelling spellings /\ line = spelling ++ c_equals :: value /\
    split_once c_equals line !! 1%nat = Some value.
Proof.
  intros H. destruct (is_key_line_inv line H) as (sp & v & Hsp & ->).
  exists sp, v. split; [exact Hsp|]. split; [reflexivity|].
  rewrite split_once_app by now apply spelling_has_no_equals.
  reflexivity.
Qed.

Lemma scan_lines_none lines broken :
  scan_lines lines broken = None <->
  Forall (fun l => is_key_line (strip l) = false) lines /\ broken = None.
Proof.
  induction lines as [|l lines IH]; simpl.
  - destruct broken; split; try discriminate; auto.
    intros [_ H]. discriminate.
  - destruct (is_key_line (strip l)) eqn:E.
    + split; [discriminate|]. intros [H _]. apply Forall_cons in H as [H _].
      congruence.
    + rewrite IH. split; intros [H1 H2]; (split; [|exact H2]).
      * now constructor.
      * now apply Forall_cons in H1 as [_ H1].
Qed.


(** The loop raises only when a read does, before any key line. *)
Lemma scan_lines_raises lines broken e :
  scan_lines lines broken = Some (Raise e) <->
  Forall (fun l => is_key_line (strip l) = false) lines /\ broken = Some e.
Proof.
  induction lines as [|l lines IH]; simpl.
  - destruct broken as [e'|]; split.
    + intros [= ->]. auto.
    + intros [_ [= ->]]. reflexivity.
    + discriminate.
    + intros [_ H]. discriminate.
  - destruct (is_key_line (strip l)) eqn:E.
    + destruct (key_line_value _ E) as (sp & v & _ & _ & ->).
      split; [discriminate|]. intros [H _]. apply Forall_cons in H as [H _].
      congruence.
    + rewrite IH. split; intros [H1 H2]; (split; [|exact H2]).
      * now constructor.
      * now apply Forall_cons in H1 as [_ H1].
Qed.



(** [load_api_key] raises in three cases only, whatever the environment
    variables in the first two: when the [.env] file is there and cannot
    be opened, with the exception of [exists] or [open]; when reading it
    fails before a key line was read, with the exception of the read
    (bytes that are not UTF-8 raise a [UnicodeDecodeError]); and, with
    the [ValueError] of its last line, when the file is missing or was
    read to its end without a key line and neither [GOOGLE_API_KEY] nor
    [API_KEY] is set to a string that is not empty. *)
Theorem load_api_key_raises_only_without_key env getenv e :
  load_api_key env getenv = Raise e <->
  match env with
  | Unreadable e' => e = e'
  | Opened lines (Some e') =>
      Forall (fun l => is_key_line (strip l) = false) lines /\ e = e'
  | Opened lines None =>
      Forall (fun l => is_key_line (strip l) = false) lines /\
      e = ValueError /\
      truthy (getenv (lit "GOOGLE_API_KEY")) = false /\
      truthy (getenv (lit "API_KEY")) = false
  | Missing =>
      e = ValueError /\
      truthy (getenv (lit "GOOGLE_API_KEY")) = false /\
      truthy (getenv (lit "API_KEY")) = false
  end.
Proof.
  unfold load_api_key.
  assert (Henv : forall o : option pystr,
            match o with
            | Some (c :: k) => Return (c :: k)
            | _ => Raise ValueError
            end = Raise e <-> e = ValueError /\ truthy o = false).
  { intros [[|c k]|]; simpl; split; try discriminate;
      try (intros [= <-]; auto); try (intros [-> _]; reflexivity);
      intros [_ H]; discriminate. }
  assert (Hor : forall a b : option pystr,
            truthy (or_else a b) = false <->
            truthy a = false /\ truthy b = false).
  { intros a b. unfold or_else. destruct (truthy a) eqn:Ha.
    - rewrite Ha. split; [discriminate | intros [H _]; discriminate].
    - tauto. }
  destruct env as [|e'|lines broken]; cbn [read_env_file].
  - cbv zeta. rewrite Henv, Hor. tauto.
  - split; [intros [= ->]; reflexivity | intros ->; reflexivity].
  - destruct (scan_lines lines broken) as [[key|e'']|] eqn:Hscan.
    + split; [discriminate|]. intros H. exfalso.
      destruct broken as [e'|].
      * destruct H as [H _].
        assert (Hr : scan_lines lines (Some e') = Some (Raise e'))
          by (apply scan_lines_raises; auto).
        congruence.
      * destruct H as (H & _).
        assert (Hr : scan_lines lines None = None)
          by (apply scan_lines_none; auto).
        congruence.
    + apply scan_lines_raises in Hscan as [Hnone ->].
      split; [intros [= ->]; auto | intros [_ ->]; reflexivity].
    + apply scan_lines_none in Hscan as [Hnone ->].
      cbv zeta. rewrite Henv, Hor. tauto.
Qed.

(** A file that is a directory, a file whose second line does not decode,
    and no file at all. *)
Lemma load_api_key_raises_only_without_key_witness :
  load_api_key (Unreadable OSError) (fun _ => Some (lit "k")) = Raise OSError
  /\
  load_api_key (Opened [lit "# Google"] (Some UnicodeDecodeError))
    (fun _ => Some (lit "k"))
  = Raise UnicodeDecodeError /\
  load_api_key Missing (fun _ => None) = Raise ValueError.
Proof.
  split; [|split].
  - apply (load_api_key_raises_only_without_key (Unreadable OSError)).
    reflexivity.
  - apply (load_api_key_raises_only_without_key
             (Opened [lit "# Google"] (Some UnicodeDecodeError))).
    split; [repeat constructor | reflexivity].
  - apply (load_api_key_raises_only_without_key Missing).
    repeat split.
Defined.

End ApiKeyFacts.

(* ===================================================================== *)
(** * From the CSV files to the geocoding run *)
(* ===================================================================== *)

Module ConverterFacts.
Import PyStr Py Csv Store NursingRoomColumns Orchestrator.

(** ** The loops *)

Lemma convert_rows_filter rows data_list :
  ConvertNursingRooms.convert_rows rows data_list
  = data_list
    ++ (ConvertNursingRooms.to_item
        <$> List.filter (fun r => negb (ConvertNursingRooms.unnamed r)) rows).
Proof.
  revert data_list. induction rows as [|r rows IH]; intros data_list; csimpl.
  - now rewrite app_nil_r.
  - destruct (ConvertNursingRooms.unnamed r); csimpl; rewrite IH.
    + reflexivity.
    + now rewrite <- app_assoc.
Qed.

Definition kept (r : row) : bool :=
  negb (ConvertNursingRooms.unnamed r)
  && negb (ConvertVoluntaryNursingRooms.for_staff r).

Definition dropped_for_staff (r : row) : bool :=
  negb (ConvertNursingRooms.unnamed r)
  && ConvertVoluntaryNursingRooms.for_staff r.

Lemma convert_voluntary_rows_filter rows data_list filtered_count :
  ConvertVoluntaryNursingRooms.convert_rows rows data_list filtered_count
  = (data_list
     ++ (ConvertVoluntaryNursingRooms.to_item <$> List.filter kept rows),
     (filtered_count + length (List.filter dropped_for_staff rows))%nat).
Proof.
  revert data_list filtered_count.
  induction rows as [|r rows IH]; intros data_list filtered_count; csimpl.
  - now rewrite app_nil_r, Nat.add_0_r.
  - unfold kept, dropped_for_staff.
    destruct (ConvertNursingRooms.unnamed r); csimpl; [apply IH|].
    destruct (ConvertVoluntaryNursingRooms.for_staff r); csimpl; rewrite IH.
    + f_equal. unfold dropped_for_staff. lia.
    + now rewrite <- app_assoc.
Qed.

Lemma named_strips_to_name r :
  ConvertNursingRooms.unnamed r = false ->
  strip (value (get k_name r)) <> [].
Proof.
  unfold ConvertNursingRooms.unnamed. intros H.
  apply orb_false_iff in H as [_ H]. apply negb_false_iff in H.
  destruct (strip (value (get k_name r))); [discriminate | congruence].
Qed.

(** A record without coordinates, under a name that is stripped and not
    empty. *)
Definition fresh_room (it : item) : Prop :=
  name it <> [] /\ strip (name it) = name it /\
  latitude it = None /\ longitude it = None.

(** Both converters keep the rows in their order and write one record for
    each row they keep: the rows with a name that is not blank, less, for
    the voluntary rooms, those whose opening hours or note mention 員工
    (these are counted). Every record written has a stripped name that is
    not empty and no coordinates, and ["total_count"] is the number of
    records. *)
Theorem converters_write_named_unlocated_rooms rows rows' :
  let mandatory := ConvertNursingRooms.convert_csv_to_json rows in
  let voluntary := (ConvertVoluntaryNursingRooms.convert_csv_to_json rows').1 in
  let filtered_count :=
    (ConvertVoluntaryNursingRooms.convert_csv_to_json rows').2 in
  (data mandatory
   = ConvertNursingRooms.to_item
     <$> List.filter (fun r => negb (ConvertNursingRooms.unnamed r)) rows /\
   total_count mandatory = Some (Z.of_nat (length (data mandatory))) /\
   Forall fresh_room (data mandatory)) /\
  (data voluntary
   = ConvertVoluntaryNursingRooms.to_item <$> List.filter kept rows' /\
   total_count voluntary = Some (Z.of_nat (length (data voluntary))) /\
   Forall fresh_room (data voluntary) /\
   filtered_count = length (List.filter dropped_for_staff rows') /\
   (length (data voluntary) + filtered_count)%nat
   = length (List.filter (fun r => negb (ConvertNursingRooms.unnamed r))
               rows')).
Proof.
  cbv zeta.
  unfold ConvertNursingRooms.convert_csv_to_json,
    ConvertVoluntaryNursingRooms.convert_csv_to_json.
  rewrite convert_rows_filter, convert_voluntary_rows_filter.
  cbn [app data total_count fst snd Nat.add]. split.
  - split; [reflexivity|]. split; [reflexivity|].
    apply Forall_fmap, Forall_forall. intros r Hr.
    apply list_elem_of_In, filter_In in Hr as [_ Hr].
    apply negb_true_iff in Hr. unfold fresh_room. cbn.
    split; [now apply named_strips_to_name|].
    split; [apply ParseAddressProps.strip_idem | auto].
  - split; [reflexivity|]. split; [reflexivity|]. split; [|split].
    + apply Forall_fmap, Forall_forall. intros r Hr.
      apply list_elem_of_In, filter_In in Hr as [_ Hr].
      unfold kept in Hr. apply andb_true_iff in Hr as [Hr _].
      apply negb_true_iff in Hr. unfold fresh_room. cbn.
      split; [now apply named_strips_to_name|].
      split; [apply ParseAddressProps.strip_idem | auto].
    + reflexivity.
    + rewrite !length_fmap. unfold kept, dropped_for_staff.
      induction rows' as [|r rows' IH]; simpl; [reflexivity|].
      destruct (ConvertNursingRooms.unnamed r),
        (ConvertVoluntaryNursingRooms.for_staff r); simpl; lia.
Qed.

(** ** Rooms for the staff *)

Lemma startswith_more s t k :
  startswith s k = true -> startswith (s ++ t) k = true.
Proof.
  revert s. induction k as [|c k IH]; intros [|d s]; simpl; auto;
    try discriminate.
  intros H. apply andb_true_iff in H as [H1 H2]. rewrite H1. simpl. auto.
Qed.

Lemma substring_more k s t :
  substring k s = true -> substring k (s ++ t) = true.
Proof.
  induction s as [|c s IH].
  - simpl. rewrite orb_false_r. intros H.
    destruct k; [|discriminate]. now destruct t.
  - cbn [substring app]. intros H. apply orb_true_iff in H as [H|H].
    + change (c :: s ++ t) with ((c :: s) ++ t).
      rewrite (startswith_more _ t _ H). reflexivity.
    + rewrite (IH H). apply orb_true_r.
Qed.

Lemma substring_later k pre s :
  substring k s = true -> substring k (pre ++ s) = true.
Proof.
  intros H. induction pre as [|c pre IH]; [exact H|].
  cbn [app substring]. rewrite IH. apply orb_true_r.
Qed.

Lemma lstrip_suffix s : exists pre, s = pre ++ lstrip s.
Proof.
  induction s as [|c s [pre IH]]; simpl; [now exists []|].
  destruct (isspace c).
  - exists (c :: pre). simpl. now f_equal.
  - now exists [].
Qed.

Lemma rstrip_prefix s : exists post, s = rstrip s ++ post.
Proof.
  unfold rstrip. destruct (lstrip_suffix (rev s)) as [pre H].
  exists (rev pre). apply (f_equal (@rev _)) in H.
  now rewrite rev_involutive, rev_app_distr in H.
Qed.

(** Stripping brings no word in. *)
Lemma substring_strip k s :
  substring k (strip s) = true -> substring k s = true.
Proof.
  unfold strip. intros H.
  destruct (lstrip_suffix (rstrip s)) as [pre Hpre].
  destruct (rstrip_prefix s) as [post Hpost].
  rewrite Hpost. apply substring_more. rewrite Hpre.
  now apply substring_later.
Qed.

Lemma get_default_truthy k r :
  truthy (get k r) = true -> get_default k [] r = get k r.
Proof.
  unfold get, get_default. destruct (lookup_column k r); [reflexivity|].
  discriminate.
Qed.

Lemma get_truthy_default k r :
  truthy (get_default k [] r) = truthy (get k r).
Proof. unfold get, get_default. now destruct (lookup_column k r). Qed.

(** The text a record holds under a key, when it holds one. *)
Definition text_of (k : pystr) (it : item) : option pystr :=
  match lookup_key k (other it) with
  | Some (JStr s) => Some s
  | _ => None
  end.

Lemma voluntary_hours r :
  lookup_key (lit "opening_hours")
    (other (ConvertVoluntaryNursingRooms.to_item r))
  = Some (if truthy (get_default k_hours [] r)
             && truthy (Some (strip (value (get_default k_hours [] r))))
          then JStr (strip (value (get_default k_hours [] r))) else JNull).
Proof. reflexivity. Qed.

Lemma voluntary_note r :
  lookup_key (lit "note") (other (ConvertVoluntaryNursingRooms.to_item r))
  = Some (ConvertNursingRooms.stripped_or_none k_note r).
Proof. reflexivity. Qed.

(** No record of the voluntary rooms mentions 員工 in its opening hours or
    in its note: the converter drops every row that does, and stripping a
    text brings no word in. The converter of the mandatory rooms has no
    such filter. *)
Theorem voluntary_rooms_never_mention_staff rows it s :
  In it (data (ConvertVoluntaryNursingRooms.convert_csv_to_json rows).1) ->
  text_of (lit "opening_hours") it = Some s \/ text_of (lit "note") it = Some s ->
  substring staff s = false.
Proof.
  unfold ConvertVoluntaryNursingRooms.convert_csv_to_json.
  rewrite convert_voluntary_rows_filter. cbn [app data fst].
  intros Hit. apply in_map_iff in Hit as (r & <- & Hr).
  apply filter_In in Hr as [_ Hr]. unfold kept in Hr.
  apply andb_true_iff in Hr as [_ Hr]. apply negb_true_iff in Hr.
  unfold ConvertVoluntaryNursingRooms.for_staff in Hr.
  apply orb_false_iff in Hr as [Hh Hn].
  unfold ConvertVoluntaryNursingRooms.mentions_staff in Hh, Hn.
  unfold text_of. rewrite voluntary_hours, voluntary_note.
  intros [H|H].
  - destruct (truthy (get_default k_hours [] r)) eqn:Ht; [|discriminate].
    cbn [andb] in Hh, H.
    destruct (truthy (Some (strip (value (get_default k_hours [] r)))));
      [|discriminate].
    injection H as <-.
    destruct (substring staff (strip _)) eqn:E; [|reflexivity].
    apply substring_strip in E. congruence.
  - unfold ConvertNursingRooms.stripped_or_none in H.
    rewrite get_truthy_default in Hn.
    destruct (truthy (get k_note r)) eqn:Ht; [|discriminate].
    cbn [andb] in Hn, H.
    rewrite (get_default_truthy _ _ Ht) in *.
    destruct (truthy (Some (strip (value (get k_note r))))); [|discriminate].
    injection H as <-.
    destruct (substring staff (strip _)) eqn:E; [|reflexivity].
    apply substring_strip in E. congruence.
Qed.

(** A room for the staff, and a room for all. *)
Definition staff_room : row :=
  [(k_name, Some (lit "Office")); (k_hours, Some (staff ++ lit " 9-17"))].

Definition public_room : row :=
  [(k_name, Some (lit " Station ")); (k_hours, Some (lit " 6-24 "));
   (k_city, Some ParseAddressProps.taipei)].

Lemma voluntary_rooms_never_mention_staff_witness :
  substring staff (lit "6-24") = false.
Proof.
  apply (voluntary_rooms_never_mention_staff [staff_room; public_room]
           (ConvertVoluntaryNursingRooms.to_item public_room) (lit "6-24")).
  - vm_compute. left. reflexivity.
  - left. reflexivity.
Defined.

(** ** The merge *)

Lemma str_eqb_refl s : str_eqb s s = true.
Proof. induction s as [|c s IH]; simpl; [reflexivity|]. now rewrite N.eqb_refl. Qed.

Lemma lookup_set_key k v l : lookup_key k (PyDict.set_key k v l) = Some v.
Proof.
  induction l as [|[k' w] l IH]; simpl.
  - now rewrite str_eqb_refl.
  - destruct (str_eqb k k') eqn:E; simpl; now rewrite E.
Qed.

Lemma lookup_set_key_other k k2 v l :
  str_eqb k2 k = false ->
  lookup_key k2 (PyDict.set_key k v l) = lookup_key k2 l.
Proof.
  intros Hne. induction l as [|[k' w] l IH]; simpl.
  - now rewrite Hne.
  - destruct (str_eqb k k') eqn:E; simpl.
    + apply ClientProps.str_eqb_eq in E. subst k'. now rewrite Hne.
    + now rewrite IH.
Qed.

(** What the merge does to a record: the type, and nothing else. *)
Definition relabelled (label : pystr) (o c : item) : Prop :=
  name c = name o /\ address c = address o /\
  latitude c = latitude o /\ longitude c = longitude o /\
  lookup_key (lit "type") (other c) = Some (JStr label) /\
  forall k, str_eqb k (lit "type") = false ->
    lookup_key k (other c) = lookup_key k (other o).

Lemma set_type_relabelled label o :
  relabelled label o (MergeNursingRooms.set_type label o).
Proof.
  unfold relabelled, MergeNursingRooms.set_type. cbn.
  repeat split; [apply lookup_set_key|].
  intros k Hk. now apply lookup_set_key_other.
Qed.

(** The merged file holds the mandatory rooms, then the voluntary rooms,
    each as it was but for its ["type"], which says where it comes from;
    ["total_count"] is the sum of the two numbers of records, whatever the
    two files said. *)
Theorem merge_keeps_and_labels_every_room mandatory_data voluntary_data :
  let merged :=
    MergeNursingRooms.merge_nursing_rooms mandatory_data voluntary_data in
  exists mandatory voluntary,
    data merged = mandatory ++ voluntary /\
    Forall2 (relabelled mandatory_room) (data mandatory_data) mandatory /\
    Forall2 (relabelled voluntary_room) (data voluntary_data) voluntary /\
    total_count merged
    = Some (Z.of_nat (length (data mandatory_data)
                      + length (data voluntary_data))).
Proof.
  cbv zeta. unfold MergeNursingRooms.merge_nursing_rooms. cbn [data total_count].
  eexists _, _. split; [reflexivity|]. split; [|split].
  - apply Forall2_fmap_r, Forall_Forall2_diag, Forall_forall.
    intros o _. apply set_type_relabelled.
  - apply Forall2_fmap_r, Forall_Forall2_diag, Forall_forall.
    intros o _. apply set_type_relabelled.
  - now rewrite length_app, !length_fmap.
Qed.

(** ** The pipeline *)

Lemma filter_selected_all {W : Worker} (l : list record) :
  Forall (fun it => selected it = true) l -> List.filter selected l = l.
Proof.
  induction 1 as [|it l Hit _ IH]; simpl; [reflexivity|].
  now rewrite Hit, IH.
Qed.

(** Converting the two CSV files, merging the results and starting the
    geocoding run on the merged file submits one job for every record:
    as many as the rows the converters kept, all of them without
    coordinates. *)
Theorem merged_rooms_are_all_submitted geocode cfg rows rows' :
  (0 < max_workers cfg)%Z ->
  let merged :=
    MergeNursingRooms.merge_nursing_rooms
      (ConvertNursingRooms.convert_csv_to_json rows)
      (ConvertVoluntaryNursingRooms.convert_csv_to_json rows').1 in
  dispatched (start_run (W := GeocodeWorker.geocode_worker geocode) cfg merged)
  = length (data merged) /\
  length (data merged)
  = (length (List.filter (fun r => negb (ConvertNursingRooms.unnamed r)) rows)
     + length (List.filter kept rows'))%nat.
Proof.
  intros Hpool. cbv zeta. split.
  - rewrite (RunProps.dispatched_start
               (W := GeocodeWorker.geocode_worker geocode)).
    apply Z.ltb_lt in Hpool. rewrite Hpool. f_equal.
    apply (filter_selected_all (W := GeocodeWorker.geocode_worker geocode)).
    unfold MergeNursingRooms.merge_nursing_rooms. cbn [data].
    unfold ConvertNursingRooms.convert_csv_to_json,
      ConvertVoluntaryNursingRooms.convert_csv_to_json.
    rewrite convert_rows_filter, convert_voluntary_rows_filter.
    cbn [app data fst].
    apply Forall_app. split; apply Forall_fmap, Forall_fmap, Forall_forall;
      intros r _; reflexivity.
  - unfold MergeNursingRooms.merge_nursing_rooms. cbn [data].
    unfold ConvertNursingRooms.convert_csv_to_json,
      ConvertVoluntaryNursingRooms.convert_csv_to_json.
    rewrite convert_rows_filter, convert_voluntary_rows_filter.
    cbn [app data fst]. now rewrite length_app, !length_fmap.
Qed.

Lemma merged_rooms_are_all_submitted_witness :
  let merged :=
    MergeNursingRooms.merge_nursing_rooms
      (ConvertNursingRooms.convert_csv_to_json [staff_room; public_room])
      (ConvertVoluntaryNursingRooms.convert_csv_to_json
         [staff_room; public_room]).1 in
  dispatched
    (start_run (W := GeocodeWorker.geocode_worker RunClaims.taipei_client)
       RunClaims.default_config merged)
  = length (data merged) /\
  length (data merged)
  = (length (List.filter (fun r => negb (ConvertNursingRooms.unnamed r))
               [staff_room; public_room])
     + length (List.filter kept [staff_room; public_room]))%nat.
Proof.
  apply (merged_rooms_are_all_submitted RunClaims.taipei_client
           RunClaims.default_config [staff_room; public_room]
           [staff_room; public_room]).
  reflexivity.
Defined.

End ConverterFacts.

(* ===================================================================== *)
(** * The playground loaders: the box of Taiwan and NaN *)
(* ===================================================================== *)

Module FloatOrder.
Import Floats.PrimFloat Floats.SpecFloat Floats.FloatOps Floats.FloatAxioms.

#[local] Open Scope float_scope.

Lemma SFcompare_antisym x y :
  SFcompare y x = option_map CompOpp (SFcompare x y).
Proof.
  destruct x as [sx|sx| |sx mx ex], y as [sy|sy| |sy my ey]; simpl;
    try reflexivity;
    try (destruct sx; reflexivity); try (destruct sy; reflexivity);
    try (destruct sx, sy; reflexivity).
  f_equal. rewrite (Z.compare_antisym ex ey).
  rewrite !Pos.compare_cont_spec. simpl.
  rewrite (Pos.compare_antisym mx my).
  destruct sx, sy; try reflexivity;
    destruct (ex ?= ey)%Z; simpl; try reflexivity;
    destruct (mx ?= my)%positive; reflexivity.
Qed.

Lemma is_nan_false x : is_nan x = false -> Prim2SF x <> S754_nan.
Proof.
  unfold is_nan. rewrite eqb_spec. intros H E. rewrite E in H. discriminate.
Qed.

Lemma SFcompare_total x y :
  x <> S754_nan -> y <> S754_nan -> exists c, SFcompare x y = Some c.
Proof.
  destruct x as [sx|sx| |sx mx ex], y as [sy|sy| |sy my ey]; simpl;
    intros Hx Hy; try congruence; eauto.
Qed.

(** Two floats that are not NaN are ordered: what is not below is at
    least. *)
Lemma not_ltb_leb x y :
  is_nan x = false -> is_nan y = false ->
  (x <? y) = false -> (y <=? x) = true.
Proof.
  intros Hx Hy. rewrite ltb_spec, leb_spec. unfold SFltb, SFleb.
  apply is_nan_false in Hx, Hy.
  destruct (SFcompare_total _ _ Hx Hy) as [c Hc].
  rewrite (SFcompare_antisym (Prim2SF x) (Prim2SF y)), Hc.
  now destruct c.
Qed.

(** In comparisons NaN is below nothing and above nothing. *)
Lemma is_nan_true x : is_nan x = true -> Prim2SF x = S754_nan.
Proof.
  unfold is_nan. rewrite eqb_spec. unfold SFeqb.
  destruct (Prim2SF x) as [s|s| |s mm e]; simpl; try reflexivity.
  - discriminate.
  - now destruct s.
  - rewrite Z.compare_refl, Pos.compare_cont_refl.
    now destruct s.
Qed.

Lemma is_nan_ltb_l x y : is_nan x = true -> (x <? y) = false.
Proof.
  intros H. rewrite ltb_spec, (is_nan_true x H). reflexivity.
Qed.

Lemma is_nan_ltb_r x y : is_nan y = true -> (x <? y) = false.
Proof.
  intros H. rewrite ltb_spec, (is_nan_true y H). unfold SFltb.
  now destruct (Prim2SF x).
Qed.

End FloatOrder.

Module LoaderFacts.
Import PyStr Py Csv ParseAddress ParsePlaygrounds.
Import Floats.PrimFloat.

#[local] Open Scope float_scope.

(** The box of the loaders: latitude in [20, 26], longitude in
    [118, 123]. *)
Definition in_box (lat lng : float) : bool :=
  (20 <=? lat) && (lat <=? 26) && (118 <=? lng) && (lng <=? 123).

Lemma inside_box lat lng :
  is_nan lat = false -> is_nan lng = false ->
  outside_box lat lng = false -> in_box lat lng = true.
Proof.
  intros Hlat Hlng H. unfold outside_box in H.
  apply orb_false_iff in H as [H H4]. apply orb_false_iff in H as [H H3].
  apply orb_false_iff in H as [H1 H2].
  unfold in_box.
  rewrite (FloatOrder.not_ltb_leb lat 20 Hlat eq_refl H1).
  rewrite (FloatOrder.not_ltb_leb 26 lat eq_refl Hlat H2).
  rewrite (FloatOrder.not_ltb_leb lng 118 Hlng eq_refl H3).
  rewrite (FloatOrder.not_ltb_leb 123 lng eq_refl Hlng H4).
  reflexivity.
Qed.

Lemma inside_box_or_nan lat lng :
  outside_box lat lng = false ->
  in_box lat lng = true \/ is_nan lat = true \/ is_nan lng = true.
Proof.
  intros H. destruct (is_nan lat) eqn:Hlat; [auto|].
  destruct (is_nan lng) eqn:Hlng; [auto|]. left. now apply inside_box.
Qed.

(** ** Districts *)

Lemma last_app_one (s : pystr) c : last (s ++ [c]) = Some c.
Proof. apply last_snoc. Qed.

Lemma last_inv (s : pystr) c : last s = Some c -> exists body, s = body ++ [c].
Proof.
  intros H. destruct s as [|x s] using rev_ind; [discriminate|].
  rewrite last_snoc in H. injection H as ->. eauto.
Qed.

Lemma strip_keeps_last s c :
  last s = Some c -> isspace c = false -> last (strip s) = Some c.
Proof.
  intros H Hc. apply last_inv in H as [body ->]. unfold strip.
  change (body ++ [c]) with (body ++ c :: []).
  rewrite ParseAddressProps.rstrip_app_nonspace by exact Hc.
  cbn [rstrip rev lstrip app].
  rewrite ParseAddressProps.lstrip_app_nonspace by exact Hc.
  apply last_snoc.
Qed.

Lemma suffix_is_no_space c :
  mem c [c_qu; c_shi; c_zhen; c_xiang] = true -> isspace c = false.
Proof.
  unfold mem. simpl. rewrite !orb_true_iff.
  intros [H|[H|[H|[H|H]]]]; try discriminate;
    apply N.eqb_eq in H; subst; reflexivity.
Qed.

(** The district a Taipei playground gets from a name that is not empty
    ends with 區, 市, 鎮 or 鄉. *)
Lemma suffixed_district d :
  d <> [] ->
  exists d',
    normalize_district_name
      (Some (if ends_with_suffix d then d else d ++ [c_qu])) = Some d' /\
    ends_with_suffix d' = true.
Proof.
  intros Hd.
  set (full := if ends_with_suffix d then d else d ++ [c_qu]).
  assert (Hfull : exists c, last full = Some c /\
            mem c [c_qu; c_shi; c_zhen; c_xiang] = true).
  { unfold full. destruct (ends_with_suffix d) eqn:E.
    - unfold ends_with_suffix in E. destruct (last d) as [c|]; [eauto|].
      discriminate.
    - exists c_qu. split; [apply last_snoc | reflexivity]. }
  destruct Hfull as (c & Hlast & Hc).
  assert (Hne : full <> []) by (intros E; rewrite E in Hlast; discriminate).
  exists (strip full). split.
  - unfold normalize_district_name. destruct full; [congruence | reflexivity].
  - unfold ends_with_suffix.
    rewrite (strip_keeps_last full c Hlast (suffix_is_no_space c Hc)).
    exact Hc.
Qed.

Section WithPython.

Variable m : Twd97Float.libm.
Variable parse_float : pystr -> option float.
Variable number_to_float : Q -> float.
Variable format_float : float -> pystr.
Variable format_value : json -> pystr.

(** ** The JSON loader *)

(** A playground of Taipei as the loader makes it. *)
Definition taipei_place (p : ParsedPlace) : Prop :=
  in_box (latitude p) (longitude p) = true /\
  city p = Some taipei_city /\
  address p = JStr [] /\
  source p = taipei_playground /\
  (district p = None \/
   exists d, district p = Some d /\ ends_with_suffix d = true).

Lemma parse_item_kept item p :
  parse_item m parse_float number_to_float format_float format_value item
  = Kept p ->
  taipei_place p.
Proof.
  unfold parse_item. destruct item as [|?|?|?|?|l]; try discriminate.
  cbv zeta.
  destruct (locate m parse_float number_to_float l) as [| |lat lng];
    try discriminate.
  destruct (is_nan lat || is_nan lng || outside_box lat lng) eqn:Hbox;
    [discriminate|].
  apply orb_false_iff in Hbox as [Hnan Hout].
  apply orb_false_iff in Hnan as [Hlat Hlng].
  pose proof (inside_box lat lng Hlat Hlng Hout) as Hin.
  set (district_name := py_or _ (py_or _ (py_or _ (JStr [])))).
  destruct (py_truthy district_name) eqn:Ht.
  - destruct district_name as [|?|?|d|?|?]; try discriminate.
    intros [= <-]. unfold taipei_place. cbn.
    repeat split; auto. right. apply suffixed_district.
    intros ->. discriminate.
  - destruct district_name as [|?|?|d|?|?]; intros [= <-];
      unfold taipei_place; cbn; repeat split; auto.
    left. destruct d; [reflexivity | discriminate].
Qed.

Lemma parse_items_kept data : forall places result,
  parse_items m parse_float number_to_float format_float format_value
    data places = Some result ->
  exists new,
    result = places ++ new /\ Forall taipei_place new /\
    (length new <= length data)%nat.
Proof.
  induction data as [|item data IH]; intros places result; simpl.
  - intros [= <-]. exists []. rewrite app_nil_r. repeat split; auto.
  - destruct (parse_item _ _ _ _ _ item) as [| |p] eqn:Hitem;
      [discriminate| |]; intros H; apply IH in H as (new & -> & Hnew & Hlen).
    + exists new. repeat split; auto.
    + exists (p :: new). rewrite <- app_assoc. repeat split; simpl; auto.
      * constructor; [|exact Hnew]. now apply parse_item_kept with item.
      * lia.
Qed.

(** Every place [parse_taipei_playgrounds_json] returns lies in the box
    of Taiwan, latitude in [20, 26] and longitude in [118, 123], whether
    its coordinates were given or converted from TWD97, and neither is
    NaN; its city is 臺北市, its address empty, and its district is [None]
    or ends with 區, 市, 鎮 or 鄉. There is at most one place for each
    item, and a value that is no list gives no place. *)
Theorem taipei_playgrounds_lie_in_the_box data places :
  parse_taipei_playgrounds_json m parse_float number_to_float format_float
    format_value data = Some places ->
  Forall taipei_place places /\
  match data with
  | JArr items => (length places <= length items)%nat
  | _ => places = []
  end.
Proof.
  unfold parse_taipei_playgrounds_json.
  destruct data as [|?|?|?|items|?]; try (intros [= <-]; auto).
  intros H. apply parse_items_kept in H as (new & -> & Hnew & Hlen). auto.
Qed.

(** ** The CSV loader *)

Lemma parse_row_kept r p :
  parse_row parse_float format_float r = Some p ->
  outside_box (latitude p) (longitude p) = false.
Proof.
  unfold parse_row.
  destruct (float_of_column parse_float (lit "latitude") r) as [lat|];
    [|discriminate].
  destruct (float_of_column parse_float (lit "longitude") r) as [lng|];
    [|discriminate].
  destruct (outside_box lat lng) eqn:Hout; [discriminate|].
  destruct (parse_city_and_district _ _ _) as [[c d] rest].
  now intros [= <-].
Qed.

Lemma parse_rows_kept rows : forall places,
  exists new,
    parse_rows parse_float format_float rows places = places ++ new /\
    Forall (fun p => outside_box (latitude p) (longitude p) = false) new /\
    (length new <= length rows)%nat.
Proof.
  induction rows as [|r rows IH]; intros places; simpl.
  - exists []. rewrite app_nil_r. auto.
  - destruct (parse_row parse_float format_float r) as [p|] eqn:Hrow.
    + destruct (IH (places ++ [p])) as (new & -> & Hnew & Hlen).
      exists (p :: new). rewrite <- app_assoc. repeat split; simpl; auto.
      * constructor; [|exact Hnew]. now apply parse_row_kept with r.
      * lia.
    + destruct (IH places) as (new & -> & Hnew & Hlen).
      exists new. auto.
Qed.

(** A place [parse_playgrounds_csv] returns lies in the box of Taiwan
    unless one of its coordinates is NaN, and there is at most one place
    for each row. *)
Theorem csv_playgrounds_lie_in_the_box_unless_nan rows :
  Forall (fun p =>
            in_box (latitude p) (longitude p) = true \/
            is_nan (latitude p) = true \/ is_nan (longitude p) = true)
    (parse_playgrounds_csv parse_float format_float rows) /\
  (length (parse_playgrounds_csv parse_float format_float rows)
   <= length rows)%nat.
Proof.
  unfold parse_playgrounds_csv.
  destruct (parse_rows_kept rows []) as (new & -> & Hnew & Hlen).
  cbn [app]. split; [|exact Hlen].
  eapply Forall_impl; [exact Hnew|]. intros p. apply inside_box_or_nan.
Qed.

(** The CSV loader keeps NaN: its range test is made of comparisons, all
    false for NaN, and it has no [isnan] test as the JSON loader has. A
    row whose latitude is read as NaN and whose longitude is not outside
    [118, 123] gives a place, with its NaN. *)
Theorem csv_row_with_nan_latitude_is_kept r lat lng :
  float_of_column parse_float (lit "latitude") r = Some lat ->
  float_of_column parse_float (lit "longitude") r = Some lng ->
  is_nan lat = true ->
  (lng <? 118) = false -> (123 <? lng) = false ->
  exists p,
    parse_playgrounds_csv parse_float format_float [r] = [p] /\
    latitude p = lat /\ longitude p = lng.
Proof.
  intros Hlat Hlng Hnan H1 H2.
  assert (Hout : outside_box lat lng = false).
  { unfold outside_box.
    rewrite (FloatOrder.is_nan_ltb_l lat 20 Hnan).
    rewrite (FloatOrder.is_nan_ltb_r 26 lat Hnan).
    now rewrite H1, H2. }
  unfold parse_playgrounds_csv. cbn [parse_rows app]. unfold parse_row.
  rewrite Hlat, Hlng, Hout.
  destruct (parse_city_and_district _ _ _) as [[c d] rest].
  eexists. split; [reflexivity|]. split; reflexivity.
Qed.

End WithPython.

(** ** Samples *)

(** A [float] of strings that knows three texts. *)
Definition sample_parse_float (s : pystr) : option float :=
  if str_eqb s (lit "nan") then Some nan
  else if str_eqb s (lit "121.5") then Some 121.5
  else if str_eqb s (lit "25") then Some 25
  else None.

(** A [float] of numbers, for the small fractions of the samples. *)
Definition sample_number_to_float (q : Q) : float :=
  of_uint63 (Uint63.of_Z (Qnum q))
  / of_uint63 (Uint63.of_Z (Z.pos (Qden q))).

Definition sample_format_float (x : float) : pystr := lit "x".

Definition sample_format_value (v : json) : pystr :=
  match v with
  | JStr s => s
  | _ => lit "v"
  end.

Definition c_da : char := 0x5927%N.  (* 大 *)
Definition c_an : char := 0x5B89%N.  (* 安 *)

(** Three items: one in 大安 with its coordinates, one without any, one
    outside the box. *)
Definition sample_items : json :=
  JArr
    [JObj [(lit "name", JStr (lit "A")); (k_borough, JStr [c_da; c_an]);
           (lit "lat", JNum 25.03); (lit "lng", JNum 121.54)];
     JObj [(lit "name", JStr (lit "B"))];
     JObj [(lit "name", JStr (lit "C"));
           (lit "lat", JNum 35); (lit "lng", JNum 139)]].

Definition sample_places : list ParsedPlace :=
  Eval vm_compute in
    default []
      (parse_taipei_playgrounds_json Twd97Float.sample_libm
         sample_parse_float sample_number_to_float sample_format_float
         sample_format_value sample_items).

Lemma taipei_playgrounds_lie_in_the_box_witness :
  length sample_places = 1%nat /\
  Forall taipei_place sample_places /\
  (length sample_places <= 3)%nat.
Proof.
  split; [reflexivity|].
  apply (taipei_playgrounds_lie_in_the_box Twd97Float.sample_libm
           sample_parse_float sample_number_to_float sample_format_float
           sample_format_value sample_items sample_places).
  vm_compute. reflexivity.
Defined.

(** A row with a latitude that is the text nan. *)
Definition sample_row : row :=
  [(lit "location", Some (lit "A")); (lit "latitude", Some (lit "nan"));
   (lit "longitude", Some (lit "121.5"))].

Lemma csv_row_with_nan_latitude_is_kept_witness :
  exists p,
    parse_playgrounds_csv sample_parse_float sample_format_float
      [sample_row] = [p] /\
    latitude p = nan /\ longitude p = 121.5.
Proof.
  apply (csv_row_with_nan_latitude_is_kept sample_parse_float
           sample_format_float sample_row nan 121.5);
    vm_compute; reflexivity.
Defined.

End LoaderFacts.
